(** * EncoreRafflerV5: ledger and settlement engine

    A shallow embedding of the Solidity contract [EncoreRafflerV5]
    (contracts/EncoreRafflerV5.sol, shipped inside the documentation viewer)
    and the verification of its ledger, lifecycle and settlement properties.

    Conventions of the embedding:
    - [uint256] values are [N]; Solidity 0.8 checked arithmetic is written
      out: an overflow, underflow, division by zero or out-of-range index
      reverts the call with a [Panic] code;
    - storage mappings are [gmap]s read with the Solidity default value,
      the membership mapping [hasEntered] is a [gset] of addresses;
    - a call runs in a state-and-error monad over the [World] (contract
      storage, payment token ledger, log); a revert discards every effect of
      the call, so a reverted call leaves the caller with the world it had;
    - every external call is logged together with the contract storage as it
      stands at the moment of the call, which is what a re-entrant callee
      would observe. *)

From Stdlib Require Import NArith Lia.
From stdpp Require Import gmap fin_maps fin_sets.

Local Open Scope N_scope.

Abbreviation address := N (only parsing).
Abbreviation Signature := (list N) (only parsing).

Definition MAX_UINT256 : N := 2 ^ 256 - 1.

(** ** Enums *)

Inductive RaffleType := DonationBased | ProfitBased | IncentiveBased.

Inductive RaffleStatus := Inactive | Active | Closed | AwaitingVRF | Finalized.

#[global] Instance RaffleType_eq_dec : EqDecision RaffleType.
Proof. solve_decision. Defined.

#[global] Instance RaffleStatus_eq_dec : EqDecision RaffleStatus.
Proof. solve_decision. Defined.

Definition raffleType_code (t : RaffleType) : N :=
  match t with DonationBased => 0 | ProfitBased => 1 | IncentiveBased => 2 end.

(** ** Custom errors, and the panics of checked arithmetic *)

(** The custom errors of OpenZeppelin's ECDSA library (version 5), with
    which [ECDSA.recover] reverts on a malformed signature. *)
Inductive ECDSAError :=
  | ECDSAInvalidSignature
  | ECDSAInvalidSignatureLength (length : N)
  | ECDSAInvalidSignatureS (s : N).

Inductive Error :=
  | InvalidSigner | InvalidSignature | RaffleNotActive | DeadlineNotPassed
  | GracePeriodNotPassed | AlreadyEntered | RaffleClosed | InvalidRaffleType
  | TransferFailed | OnlyOwner | InvalidRaffleId | InsufficientAllowance
  | InvalidAmount | RaffleNotClosed | ZeroAddress | ContractPaused
  | VRFRequestNotFound | RaffleNotAwaitingVRF | CannotEndPoolEarly
  | InvalidRefundConditions
  | Panic (code : N)
  | ECDSA (e : ECDSAError)
  | CoordinatorReverted.

Definition PANIC_ARITHMETIC : N := 17.
Definition PANIC_DIVISION_BY_ZERO : N := 18.
Definition PANIC_INDEX_OUT_OF_BOUNDS : N := 50.

(** ** Structs *)

Record Raffle := {
  id : N;
  organizer : address;
  status : RaffleStatus;
  raffleType : RaffleType;
  entryCost : N;
  incentiveAmount : N;
  totalCollected : N;
  entryLimit : N;
  entryCount : N;
  deadline : N;
  targetAmount : N;
  isPool : bool;
  vrfRequestId : N;
  winnerIndex : N;
  payoutAddress : address;
  hasEntered : gset N
}.

Record VRFRequest := { raffleId : N; fulfilled : bool }.

(** The value of an unwritten storage slot. *)
Definition emptyRaffle : Raffle :=
  {| id := 0; organizer := 0; status := Inactive; raffleType := DonationBased;
     entryCost := 0; incentiveAmount := 0; totalCollected := 0; entryLimit := 0;
     entryCount := 0; deadline := 0; targetAmount := 0; isPool := false;
     vrfRequestId := 0; winnerIndex := 0; payoutAddress := 0; hasEntered := ∅ |}.

Definition emptyRequest : VRFRequest := {| raffleId := 0; fulfilled := false |}.

(** Field assignments [raffle.f = v] through a storage pointer. *)
Definition set_status (v : RaffleStatus) (r : Raffle) : Raffle :=
  {| id := id r; organizer := organizer r; status := v; raffleType := raffleType r;
     entryCost := entryCost r; incentiveAmount := incentiveAmount r;
     totalCollected := totalCollected r; entryLimit := entryLimit r;
     entryCount := entryCount r; deadline := deadline r;
     targetAmount := targetAmount r; isPool := isPool r;
     vrfRequestId := vrfRequestId r; winnerIndex := winnerIndex r;
     payoutAddress := payoutAddress r; hasEntered := hasEntered r |}.

Definition set_totalCollected (v : N) (r : Raffle) : Raffle :=
  {| id := id r; organizer := organizer r; status := status r; raffleType := raffleType r;
     entryCost := entryCost r; incentiveAmount := incentiveAmount r;
     totalCollected := v; entryLimit := entryLimit r;
     entryCount := entryCount r; deadline := deadline r;
     targetAmount := targetAmount r; isPool := isPool r;
     vrfRequestId := vrfRequestId r; winnerIndex := winnerIndex r;
     payoutAddress := payoutAddress r; hasEntered := hasEntered r |}.

Definition set_entryCount (v : N) (r : Raffle) : Raffle :=
  {| id := id r; organizer := organizer r; status := status r; raffleType := raffleType r;
     entryCost := entryCost r; incentiveAmount := incentiveAmount r;
     totalCollected := totalCollected r; entryLimit := entryLimit r;
     entryCount := v; deadline := deadline r;
     targetAmount := targetAmount r; isPool := isPool r;
     vrfRequestId := vrfRequestId r; winnerIndex := winnerIndex r;
     payoutAddress := payoutAddress r; hasEntered := hasEntered r |}.

Definition set_vrfRequestId (v : N) (r : Raffle) : Raffle :=
  {| id := id r; organizer := organizer r; status := status r; raffleType := raffleType r;
     entryCost := entryCost r; incentiveAmount := incentiveAmount r;
     totalCollected := totalCollected r; entryLimit := entryLimit r;
     entryCount := entryCount r; deadline := deadline r;
     targetAmount := targetAmount r; isPool := isPool r;
     vrfRequestId := v; winnerIndex := winnerIndex r;
     payoutAddress := payoutAddress r; hasEntered := hasEntered r |}.

Definition set_winnerIndex (v : N) (r : Raffle) : Raffle :=
  {| id := id r; organizer := organizer r; status := status r; raffleType := raffleType r;
     entryCost := entryCost r; incentiveAmount := incentiveAmount r;
     totalCollected := totalCollected r; entryLimit := entryLimit r;
     entryCount := entryCount r; deadline := deadline r;
     targetAmount := targetAmount r; isPool := isPool r;
     vrfRequestId := vrfRequestId r; winnerIndex := v;
     payoutAddress := payoutAddress r; hasEntered := hasEntered r |}.

(** [raffle.hasEntered[user] = b] *)
Definition set_hasEntered (user : address) (b : bool) (r : Raffle) : Raffle :=
  {| id := id r; organizer := organizer r; status := status r; raffleType := raffleType r;
     entryCost := entryCost r; incentiveAmount := incentiveAmount r;
     totalCollected := totalCollected r; entryLimit := entryLimit r;
     entryCount := entryCount r; deadline := deadline r;
     targetAmount := targetAmount r; isPool := isPool r;
     vrfRequestId := vrfRequestId r; winnerIndex := winnerIndex r;
     payoutAddress := payoutAddress r;
     hasEntered := if b then {[user]} ∪ hasEntered r else hasEntered r ∖ {[user]} |}.

(** ** State variables *)

Record Storage := {
  owner : address;
  appServerSigner : address;
  raffles : gmap N Raffle;
  vrfRequests : gmap N VRFRequest;
  nextRaffleId : N;
  paused : bool;
  nonces : gmap N N
}.

Definition REFUND_GRACE_PERIOD : N := 3600.

Definition raffleAt (s : Storage) (i : N) : Raffle := default emptyRaffle (raffles s !! i).
Definition requestAt (s : Storage) (q : N) : VRFRequest := default emptyRequest (vrfRequests s !! q).
Definition nonceOf (s : Storage) (a : address) : N := default 0 (nonces s !! a).

Definition with_raffles (m : gmap N Raffle) (s : Storage) : Storage :=
  {| owner := owner s; appServerSigner := appServerSigner s; raffles := m;
     vrfRequests := vrfRequests s; nextRaffleId := nextRaffleId s;
     paused := paused s; nonces := nonces s |}.

Definition with_vrfRequests (m : gmap N VRFRequest) (s : Storage) : Storage :=
  {| owner := owner s; appServerSigner := appServerSigner s; raffles := raffles s;
     vrfRequests := m; nextRaffleId := nextRaffleId s;
     paused := paused s; nonces := nonces s |}.

Definition with_nextRaffleId (n : N) (s : Storage) : Storage :=
  {| owner := owner s; appServerSigner := appServerSigner s; raffles := raffles s;
     vrfRequests := vrfRequests s; nextRaffleId := n;
     paused := paused s; nonces := nonces s |}.

Definition with_paused (b : bool) (s : Storage) : Storage :=
  {| owner := owner s; appServerSigner := appServerSigner s; raffles := raffles s;
     vrfRequests := vrfRequests s; nextRaffleId := nextRaffleId s;
     paused := b; nonces := nonces s |}.

Definition with_nonces (m : gmap N N) (s : Storage) : Storage :=
  {| owner := owner s; appServerSigner := appServerSigner s; raffles := raffles s;
     vrfRequests := vrfRequests s; nextRaffleId := nextRaffleId s;
     paused := paused s; nonces := m |}.

Definition with_appServerSigner (a : address) (s : Storage) : Storage :=
  {| owner := owner s; appServerSigner := a; raffles := raffles s;
     vrfRequests := vrfRequests s; nextRaffleId := nextRaffleId s;
     paused := paused s; nonces := nonces s |}.

(** ** The payment token *)

(** Modelled from the spec: the external ERC-20 payment token ([IERC20], an
    OpenZeppelin interface whose implementation is not part of the
    repository).  The spec's asset-transfer collaborator is atomic,
    all-or-nothing and immediately observable, and reports failure as a
    boolean: a plain balance and allowance ledger without callbacks. *)
Record Token := {
  balances : gmap N N;
  allowances : gmap (N * N) N
}.

Definition balanceOf (t : Token) (a : address) : N := default 0 (balances t !! a).

Definition allowance (t : Token) (holder spender : address) : N :=
  default 0 (allowances t !! (holder, spender)).

Definition move (from to : address) (amount : N) (b : gmap N N) : gmap N N :=
  let b1 := <[from := default 0 (b !! from) - amount]> b in
  <[to := default 0 (b1 !! to) + amount]> b1.

Definition token_transfer (t : Token) (from to : address) (amount : N) : option Token :=
  if balanceOf t from <? amount then None
  else Some {| balances := move from to amount (balances t);
               allowances := allowances t |}.

Definition token_transferFrom (t : Token) (spender from to : address) (amount : N)
  : option Token :=
  if (allowance t from spender <? amount) || (balanceOf t from <? amount) then None
  else Some {| balances := move from to amount (balances t);
               allowances := <[(from, spender) := allowance t from spender - amount]>
                               (allowances t) |}.

Definition token_approve (t : Token) (holder spender : address) (amount : N) : Token :=
  {| balances := balances t;
     allowances := <[(holder, spender) := amount]> (allowances t) |}.

(** ** Events and logged external calls *)

Inductive LogEntry :=
  | Ev_RaffleCreated (raffleId : N) (organizer : address) (raffleType : RaffleType)
      (entryCost : N) (isPool : bool)
  | Ev_Entry (raffleId : N) (user : address) (amount : N)
  | Ev_IncentiveEntry (raffleId : N) (user : address) (raffleAmount incentiveAmount : N)
      (incentiveDestination : address)
  | Ev_RaffleClosed (raffleId : N)
  | Ev_VRFRequested (raffleId requestId : N)
  | Ev_WinnerSelected (raffleId winnerIndex : N) (payoutAddress : address) (prizeAmount : N)
  | Ev_PoolRaffleFinalized (raffleId : N) (payoutAddress : address) (prizeAmount : N)
  | Ev_Refunded (raffleId : N) (user : address) (refundAmount : N)
  | Ev_AppServerSignerUpdated (oldSigner newSigner : address)
  | Ev_ContractPaused (by_ : address)
  | Ev_ContractUnpaused (by_ : address)
  | Call_transferFrom (from to : address) (amount : N) (seen : Storage)
  | Call_transfer (to : address) (amount : N) (seen : Storage)
  | Call_requestRandomWords (seen : Storage).

Record World := {
  storage : Storage;
  token : Token;
  log : list LogEntry
}.

(** The transaction context: [msg.sender], [block.timestamp], and the answer
    the VRF coordinator gives to a [requestRandomWords] made during the call
    ([None] when the coordinator reverts). *)
Record Env := {
  msg_sender : address;
  block_timestamp : N;
  vrf_reply : option N
}.

(** ** The execution monad *)

Inductive Result (A : Type) :=
  | Ok (a : A)
  | Revert (e : Error).
Arguments Ok {A} a.
Arguments Revert {A} e.

Definition M (A : Type) : Type := World -> Result (A * World).

Definition ret {A} (a : A) : M A := fun w => Ok (a, w).

Definition bind {A B} (m : M A) (k : A -> M B) : M B :=
  fun w => match m w with
           | Ok (a, w') => k a w'
           | Revert e => Revert e
           end.

Definition revert {A} (e : Error) : M A := fun _ => Revert e.

Declare Scope sol_scope.
Delimit Scope sol_scope with sol.
Notation "x <- m ;; k" := (bind m (fun x => k))
  (at level 100, m at next level, right associativity) : sol_scope.
Notation "m ;; k" := (bind m (fun _ => k))
  (at level 100, right associativity) : sol_scope.
Local Open Scope sol_scope.

(** [if (c) revert e;] *)
Definition revert_if (c : bool) (e : Error) : M unit :=
  if c then revert e else ret tt.

Definition getStorage : M Storage := fun w => Ok (storage w, w).

Definition modifyStorage (f : Storage -> Storage) : M unit :=
  fun w => Ok (tt, {| storage := f (storage w); token := token w; log := log w |}).

Definition emit (e : LogEntry) : M unit :=
  fun w => Ok (tt, {| storage := storage w; token := token w; log := log w ++ [e] |}).

Definition readRaffle (i : N) : M Raffle :=
  s <- getStorage ;; ret (raffleAt s i).

Definition writeRaffle (i : N) (f : Raffle -> Raffle) : M unit :=
  modifyStorage (fun s => with_raffles (<[i := f (raffleAt s i)]> (raffles s)) s).

Definition checked_add (a b : N) : M N :=
  if a + b <=? MAX_UINT256 then ret (a + b) else revert (Panic PANIC_ARITHMETIC).

Definition checked_sub (a b : N) : M N :=
  if b <=? a then ret (a - b) else revert (Panic PANIC_ARITHMETIC).

Definition checked_mod (a b : N) : M N :=
  if b =? 0 then revert (Panic PANIC_DIVISION_BY_ZERO) else ret (a mod b).

(** Runs a call on a world: the new world, or the error it reverted with. *)
Definition exec (m : M unit) (w : World) : Result World :=
  match m w with
  | Ok (_, w') => Ok w'
  | Revert e => Revert e
  end.

(** The world a caller is left with: a revert changes nothing. *)
Definition after (m : M unit) (w : World) : World :=
  match exec m w with
  | Ok w' => w'
  | Revert _ => w
  end.

(** ** EIP-712 messages *)

(** The typed structs whose digests the App Server signs; each carries the
    fields given to [abi.encode] after the type hash. *)
Inductive TypedMessage :=
  | CreateRaffleMsg (organizer : address) (raffleType : N)
      (entryCost incentiveAmount entryLimit deadline targetAmount : N)
      (isPool : bool) (payoutAddress : address) (nonce : N)
  | IncentiveEntryMsg (raffleId : N) (user paymentAddress : address) (nonce : N)
  | EndRaffleMsg (raffleId : N) (caller : address) (nonce : N).

(** The outcome of [ECDSA.recover]: the signer of a well-formed signature,
    or the error with which the library reverts on a malformed one (wrong
    length, high [s], or no signer recovered). *)
Inductive Recovery :=
  | Recovered (signer : address)
  | Malformed (e : ECDSAError).

(** What a deployment fixes and the contract takes from its libraries:
    [this] is [address(this)], and [recover m sig] is the outcome of
    [_hashTypedDataV4(keccak256(abi.encode(m))).recover(sig)] in the
    OpenZeppelin EIP712 and ECDSA libraries, for a signature over the digest
    of a typed message. *)
Class Deployment := {
  this : address;
  recover : TypedMessage -> Signature -> Recovery
}.

(** The error of a signature check that does not pass: the library's own
    error for a malformed signature, [InvalidSignature] for a well-formed
    signature of another signer. *)
Definition rejection (r : Recovery) : Error :=
  match r with
  | Recovered _ => InvalidSignature
  | Malformed e => ECDSA e
  end.

Section EncoreRafflerV5.

Context {D : Deployment}.

(** *** External calls *)

(** [paymentToken.allowance(holder, address(this))] *)
Definition call_allowance (holder : address) : M N :=
  fun w => Ok (allowance (token w) holder this, w).

(** [paymentToken.transferFrom(from, address(this), amount)] *)
Definition call_transferFrom (from : address) (amount : N) : M bool :=
  fun w =>
    let l := log w ++ [Call_transferFrom from this amount (storage w)] in
    match token_transferFrom (token w) this from this amount with
    | Some t => Ok (true, {| storage := storage w; token := t; log := l |})
    | None => Ok (false, {| storage := storage w; token := token w; log := l |})
    end.

(** [paymentToken.transfer(to, amount)] *)
Definition call_transfer (to : address) (amount : N) : M bool :=
  fun w =>
    let l := log w ++ [Call_transfer to amount (storage w)] in
    match token_transfer (token w) this to amount with
    | Some t => Ok (true, {| storage := storage w; token := t; log := l |})
    | None => Ok (false, {| storage := storage w; token := token w; log := l |})
    end.

(** [s_vrfCoordinator.requestRandomWords(...)] *)
Definition call_requestRandomWords (env : Env) : M N :=
  fun w =>
    match vrf_reply env with
    | Some requestId =>
        Ok (requestId, {| storage := storage w; token := token w;
                          log := log w ++ [Call_requestRandomWords (storage w)] |})
    | None => Revert CoordinatorReverted
    end.

(** [hash.recover(_signature)]: the signer, or the revert of the ECDSA
    library. *)
Definition call_recover (m : TypedMessage) (_signature : Signature) : M address :=
  match recover m _signature with
  | Recovered signer => ret signer
  | Malformed e => revert (ECDSA e)
  end.

(** *** Modifiers *)

(** [nonReentrant] (OpenZeppelin's ReentrancyGuard) is not represented: the
    token ledger and the coordinator make no callbacks, so no call of the
    contract is ever entered while another one runs and the guard never
    fires. *)

Definition whenNotPaused : M unit :=
  s <- getStorage ;; revert_if (paused s) ContractPaused.

Definition validAddress (_addr : address) : M unit :=
  revert_if (_addr =? 0) ZeroAddress.

Definition onlyOwner (env : Env) : M unit :=
  s <- getStorage ;; revert_if (negb (msg_sender env =? owner s)) OnlyOwner.

Definition validRaffleId (_raffleId : N) : M unit :=
  s <- getStorage ;;
  revert_if ((_raffleId =? 0) || (nextRaffleId s <=? _raffleId)) InvalidRaffleId.

(** [nonces[a]++]: the value before the increment. *)
Definition useNonce (a : address) : M N :=
  s <- getStorage ;;
  n <- checked_add (nonceOf s a) 1 ;;
  modifyStorage (with_nonces (<[a := n]> (nonces s))) ;;
  ret (nonceOf s a).

(** *** Constructor *)

Definition constructor (env : Env) (_paymentToken _appServerSigner _vrfCoordinator : address)
  : Result Storage :=
  if _paymentToken =? 0 then Revert ZeroAddress
  else if _appServerSigner =? 0 then Revert ZeroAddress
  else if _vrfCoordinator =? 0 then Revert ZeroAddress
  else Ok {| owner := msg_sender env; appServerSigner := _appServerSigner;
             raffles := ∅; vrfRequests := ∅; nextRaffleId := 1;
             paused := false; nonces := ∅ |}.

(** *** Owner functions *)

Definition updateAppServerSigner (env : Env) (_newSigner : address) : M unit :=
  onlyOwner env ;;
  validAddress _newSigner ;;
  s <- getStorage ;;
  let oldSigner := appServerSigner s in
  modifyStorage (with_appServerSigner _newSigner) ;;
  emit (Ev_AppServerSignerUpdated oldSigner _newSigner).

Definition pause (env : Env) : M unit :=
  onlyOwner env ;;
  modifyStorage (with_paused true) ;;
  emit (Ev_ContractPaused (msg_sender env)).

Definition unpause (env : Env) : M unit :=
  onlyOwner env ;;
  modifyStorage (with_paused false) ;;
  emit (Ev_ContractUnpaused (msg_sender env)).

(** *** Raffle creation *)

Definition createRaffle (env : Env) (_raffleType : RaffleType)
    (_entryCost _incentiveAmount _entryLimit _deadline _targetAmount : N)
    (_isPool : bool) (_payoutAddress : address) (_signature : Signature) : M unit :=
  whenNotPaused ;;
  validAddress _payoutAddress ;;
  revert_if (_entryCost =? 0) InvalidAmount ;;
  revert_if (_deadline <=? block_timestamp env) InvalidAmount ;;
  revert_if (bool_decide (_raffleType = IncentiveBased)
             && ((_incentiveAmount =? 0) || (_entryCost <=? _incentiveAmount)))
            InvalidAmount ;;
  revert_if (bool_decide (_raffleType = DonationBased) && (_entryLimit =? 0))
            InvalidAmount ;;
  revert_if (_isPool && (_targetAmount =? 0)) InvalidAmount ;;
  nonce <- useNonce (msg_sender env) ;;
  signer <- call_recover (CreateRaffleMsg (msg_sender env) (raffleType_code _raffleType)
                            _entryCost _incentiveAmount _entryLimit _deadline
                            _targetAmount _isPool _payoutAddress nonce) _signature ;;
  s <- getStorage ;;
  revert_if (negb (signer =? appServerSigner s)) InvalidSignature ;;
  let raffleId := nextRaffleId s in
  next <- checked_add raffleId 1 ;;
  modifyStorage (with_nextRaffleId next) ;;
  writeRaffle raffleId (fun raffle =>
    {| id := raffleId; organizer := msg_sender env; status := Active;
       raffleType := _raffleType; entryCost := _entryCost;
       incentiveAmount := _incentiveAmount; totalCollected := totalCollected raffle;
       entryLimit := _entryLimit; entryCount := entryCount raffle;
       deadline := _deadline; targetAmount := _targetAmount; isPool := _isPool;
       vrfRequestId := vrfRequestId raffle; winnerIndex := winnerIndex raffle;
       payoutAddress := _payoutAddress; hasEntered := hasEntered raffle |}) ;;
  emit (Ev_RaffleCreated raffleId (msg_sender env) _raffleType _entryCost _isPool).

(** *** User functions *)

Definition enterRaffle (env : Env) (_raffleId : N) : M unit :=
  whenNotPaused ;;
  validRaffleId _raffleId ;;
  raffle <- readRaffle _raffleId ;;
  revert_if (negb (bool_decide (status raffle = Active))) RaffleNotActive ;;
  revert_if (bool_decide (msg_sender env ∈ hasEntered raffle)) AlreadyEntered ;;
  revert_if (bool_decide (raffleType raffle = IncentiveBased)) InvalidRaffleType ;;
  allowed <- call_allowance (msg_sender env) ;;
  revert_if (allowed <? entryCost raffle) InsufficientAllowance ;;
  writeRaffle _raffleId (set_hasEntered (msg_sender env) true) ;;
  count <- checked_add (entryCount raffle) 1 ;;
  writeRaffle _raffleId (set_entryCount count) ;;
  collected <- checked_add (totalCollected raffle) (entryCost raffle) ;;
  writeRaffle _raffleId (set_totalCollected collected) ;;
  pulled <- call_transferFrom (msg_sender env) (entryCost raffle) ;;
  revert_if (negb pulled) TransferFailed ;;
  raffle <- readRaffle _raffleId ;;
  let shouldClose :=
    if bool_decide (raffleType raffle = DonationBased)
       && (entryLimit raffle <=? entryCount raffle) then true
    else if isPool raffle && (targetAmount raffle <=? totalCollected raffle) then true
    else false in
  (if shouldClose
   then writeRaffle _raffleId (set_status Closed) ;; emit (Ev_RaffleClosed _raffleId)
   else ret tt) ;;
  emit (Ev_Entry _raffleId (msg_sender env) (entryCost raffle)).

Definition joinIncentiveRaffle (env : Env) (_raffleId : N) (_paymentAddress : address)
    (_signature : Signature) : M unit :=
  whenNotPaused ;;
  validRaffleId _raffleId ;;
  validAddress _paymentAddress ;;
  raffle <- readRaffle _raffleId ;;
  revert_if (negb (bool_decide (status raffle = Active))) RaffleNotActive ;;
  revert_if (bool_decide (msg_sender env ∈ hasEntered raffle)) AlreadyEntered ;;
  revert_if (negb (bool_decide (raffleType raffle = IncentiveBased))) InvalidRaffleType ;;
  nonce <- useNonce (msg_sender env) ;;
  signer <- call_recover (IncentiveEntryMsg _raffleId (msg_sender env) _paymentAddress
                            nonce) _signature ;;
  s <- getStorage ;;
  revert_if (negb (signer =? appServerSigner s)) InvalidSignature ;;
  allowed <- call_allowance (msg_sender env) ;;
  revert_if (allowed <? entryCost raffle) InsufficientAllowance ;;
  writeRaffle _raffleId (set_hasEntered (msg_sender env) true) ;;
  count <- checked_add (entryCount raffle) 1 ;;
  writeRaffle _raffleId (set_entryCount count) ;;
  raffleAmount <- checked_sub (entryCost raffle) (incentiveAmount raffle) ;;
  collected <- checked_add (totalCollected raffle) raffleAmount ;;
  writeRaffle _raffleId (set_totalCollected collected) ;;
  pulled <- call_transferFrom (msg_sender env) (entryCost raffle) ;;
  revert_if (negb pulled) TransferFailed ;;
  forwarded <- call_transfer _paymentAddress (incentiveAmount raffle) ;;
  revert_if (negb forwarded) TransferFailed ;;
  raffle <- readRaffle _raffleId ;;
  (if isPool raffle && (targetAmount raffle <=? totalCollected raffle)
   then writeRaffle _raffleId (set_status Closed) ;; emit (Ev_RaffleClosed _raffleId)
   else ret tt) ;;
  emit (Ev_IncentiveEntry _raffleId (msg_sender env) raffleAmount
          (incentiveAmount raffle) _paymentAddress).

Definition refund (env : Env) (_raffleId : N) : M unit :=
  whenNotPaused ;;
  validRaffleId _raffleId ;;
  raffle <- readRaffle _raffleId ;;
  revert_if (negb (bool_decide (msg_sender env ∈ hasEntered raffle))) AlreadyEntered ;;
  (if isPool raffle
   then revert_if (negb (bool_decide (status raffle = Active))) InvalidRefundConditions
   else
     revert_if (negb (bool_decide (status raffle = Active))) RaffleNotActive ;;
     opens <- checked_add (deadline raffle) REFUND_GRACE_PERIOD ;;
     revert_if (block_timestamp env <=? opens) GracePeriodNotPassed) ;;
  refundAmount <-
    (if bool_decide (raffleType raffle = IncentiveBased)
     then checked_sub (entryCost raffle) (incentiveAmount raffle)
     else ret (entryCost raffle)) ;;
  writeRaffle _raffleId (set_hasEntered (msg_sender env) false) ;;
  count <- checked_sub (entryCount raffle) 1 ;;
  writeRaffle _raffleId (set_entryCount count) ;;
  collected <- checked_sub (totalCollected raffle) refundAmount ;;
  writeRaffle _raffleId (set_totalCollected collected) ;;
  sent <- call_transfer (msg_sender env) refundAmount ;;
  revert_if (negb sent) TransferFailed ;;
  emit (Ev_Refunded _raffleId (msg_sender env) refundAmount).

(** *** Raffle ending functions *)

Definition _finalizePoolRaffle (_raffleId : N) : M unit :=
  raffle <- readRaffle _raffleId ;;
  let prizeAmount := totalCollected raffle in
  writeRaffle _raffleId (set_status Finalized) ;;
  writeRaffle _raffleId (set_totalCollected 0) ;;
  (if 0 <? prizeAmount
   then sent <- call_transfer (payoutAddress raffle) prizeAmount ;;
        revert_if (negb sent) TransferFailed
   else ret tt) ;;
  emit (Ev_PoolRaffleFinalized _raffleId (payoutAddress raffle) prizeAmount).

Definition _requestVRF (env : Env) (_raffleId : N) : M unit :=
  raffle <- readRaffle _raffleId ;;
  if entryCount raffle =? 0
  then
    writeRaffle _raffleId (set_status Finalized) ;;
    emit (Ev_WinnerSelected _raffleId 0 (payoutAddress raffle) 0)
  else
    requestId <- call_requestRandomWords env ;;
    writeRaffle _raffleId (set_vrfRequestId requestId) ;;
    writeRaffle _raffleId (set_status AwaitingVRF) ;;
    modifyStorage (fun s =>
      with_vrfRequests
        (<[requestId := {| raffleId := _raffleId; fulfilled := false |}]> (vrfRequests s)) s) ;;
    emit (Ev_VRFRequested _raffleId requestId).

Definition endRaffle (env : Env) (_raffleId : N) (_signature : Signature) : M unit :=
  whenNotPaused ;;
  validRaffleId _raffleId ;;
  raffle <- readRaffle _raffleId ;;
  revert_if (negb (bool_decide (status raffle = Active))
             && negb (bool_decide (status raffle = Closed))) RaffleNotActive ;;
  s <- getStorage ;;
  let isAppServer := msg_sender env =? appServerSigner s in
  let isOrganizer := msg_sender env =? organizer raffle in
  revert_if (negb isAppServer && negb isOrganizer) InvalidSigner ;;
  (if negb isAppServer
   then
     if isPool raffle
     then revert_if ((totalCollected raffle <? targetAmount raffle)
                     && (block_timestamp env <? deadline raffle)) CannotEndPoolEarly
     else revert_if (block_timestamp env <? deadline raffle) DeadlineNotPassed
   else ret tt) ;;
  (if isOrganizer
   then
     nonce <- useNonce (msg_sender env) ;;
     signer <- call_recover (EndRaffleMsg _raffleId (msg_sender env) nonce) _signature ;;
     revert_if (negb (signer =? appServerSigner s)) InvalidSignature
   else ret tt) ;;
  if isPool raffle then _finalizePoolRaffle _raffleId else _requestVRF env _raffleId.

(** The Chainlink callback; [_randomWords[0]] panics on an empty array. *)
Definition fulfillRandomWords (_requestId : N) (_randomWords : list N) : M unit :=
  s <- getStorage ;;
  let request := requestAt s _requestId in
  revert_if (raffleId request =? 0) VRFRequestNotFound ;;
  if fulfilled request then ret tt
  else
    modifyStorage (fun s =>
      with_vrfRequests
        (<[_requestId := {| raffleId := raffleId request; fulfilled := true |}]>
           (vrfRequests s)) s) ;;
    raffle <- readRaffle (raffleId request) ;;
    revert_if (negb (bool_decide (status raffle = AwaitingVRF))) RaffleNotAwaitingVRF ;;
    word <- match _randomWords with
            | w0 :: _ => ret w0
            | [] => revert (Panic PANIC_INDEX_OUT_OF_BOUNDS)
            end ;;
    remainder <- checked_mod word (entryCount raffle) ;;
    winnerIndex <- checked_add remainder 1 ;;
    writeRaffle (raffleId request) (set_winnerIndex winnerIndex) ;;
    let prizeAmount := totalCollected raffle in
    writeRaffle (raffleId request) (set_status Finalized) ;;
    writeRaffle (raffleId request) (set_totalCollected 0) ;;
    (if 0 <? prizeAmount
     then sent <- call_transfer (payoutAddress raffle) prizeAmount ;;
          revert_if (negb sent) TransferFailed
     else ret tt) ;;
    emit (Ev_WinnerSelected (raffleId request) winnerIndex (payoutAddress raffle) prizeAmount).

(** *** View functions *)

Definition getRaffleCount (s : Storage) : N := nextRaffleId s - 1.

Definition hasUserEntered (s : Storage) (_raffleId : N) (_user : address) : bool :=
  bool_decide (_user ∈ hasEntered (raffleAt s _raffleId)).

Definition canEndPoolEarly (s : Storage) (_raffleId : N) : Result bool :=
  if (_raffleId =? 0) || (nextRaffleId s <=? _raffleId) then Revert InvalidRaffleId
  else
    let raffle := raffleAt s _raffleId in
    Ok (isPool raffle && bool_decide (status raffle = Active)
        && (targetAmount raffle <=? totalCollected raffle)).

Definition getContractBalance (w : World) : N := balanceOf (token w) this.

(** ** Transactions and reachable worlds *)

(** What an account can submit: a call of the contract, the coordinator's
    callback, or a call of the payment token itself. *)
Inductive Call :=
  | CreateRaffle (_raffleType : RaffleType)
      (_entryCost _incentiveAmount _entryLimit _deadline _targetAmount : N)
      (_isPool : bool) (_payoutAddress : address) (_signature : Signature)
  | EnterRaffle (_raffleId : N)
  | JoinIncentiveRaffle (_raffleId : N) (_paymentAddress : address) (_signature : Signature)
  | Refund (_raffleId : N)
  | EndRaffle (_raffleId : N) (_signature : Signature)
  | FulfillRandomWords (_requestId : N) (_randomWords : list N)
  | UpdateAppServerSigner (_newSigner : address)
  | Pause
  | Unpause
  | TokenTransfer (to : address) (amount : N)
  | TokenTransferFrom (from to : address) (amount : N)
  | TokenApprove (spender : address) (amount : N).

Definition token_call (f : Token -> option Token) : M unit :=
  fun w => match f (token w) with
           | Some t => Ok (tt, {| storage := storage w; token := t; log := log w |})
           | None => Revert TransferFailed
           end.

Definition perform (env : Env) (c : Call) : M unit :=
  match c with
  | CreateRaffle ty cost inc lim dl target pool payout sig =>
      createRaffle env ty cost inc lim dl target pool payout sig
  | EnterRaffle i => enterRaffle env i
  | JoinIncentiveRaffle i pay sig => joinIncentiveRaffle env i pay sig
  | Refund i => refund env i
  | EndRaffle i sig => endRaffle env i sig
  | FulfillRandomWords q words => fulfillRandomWords q words
  | UpdateAppServerSigner a => updateAppServerSigner env a
  | Pause => pause env
  | Unpause => unpause env
  | TokenTransfer to amount =>
      token_call (fun t => token_transfer t (msg_sender env) to amount)
  | TokenTransferFrom from to amount =>
      token_call (fun t => token_transferFrom t (msg_sender env) from to amount)
  | TokenApprove spender amount =>
      token_call (fun t => Some (token_approve t (msg_sender env) spender amount))
  end.

(** Worlds reachable from a deployment.  The contract never calls itself,
    the token or the coordinator on its own initiative, so no transaction has
    [msg.sender = address(this)]; at deployment the contract has granted no
    allowance. *)
Inductive reachable : World -> Prop :=
  | reachable_deploy env _paymentToken _appServerSigner _vrfCoordinator s t :
      constructor env _paymentToken _appServerSigner _vrfCoordinator = Ok s ->
      (forall spender, allowance t this spender = 0) ->
      reachable {| storage := s; token := t; log := [] |}
  | reachable_step w env c w' :
      reachable w ->
      msg_sender env <> this ->
      exec (perform env c) w = Ok w' ->
      reachable w'.

(** ** Ledger quantities *)

(** The raffle portion of one entry: what an entry credits to
    [totalCollected] and what a refund returns. *)
Definition raffleAmount (r : Raffle) : N :=
  if bool_decide (raffleType r = IncentiveBased)
  then entryCost r - incentiveAmount r
  else entryCost r.

(** Sum over the current members of their raffle-portion contribution. *)
Definition memberSum (r : Raffle) : N :=
  foldr (fun _ acc => raffleAmount r + acc) 0 (elements (hasEntered r)).

(** Sum of [totalCollected] over all raffles. *)
Definition sumCollected (m : gmap N Raffle) : N :=
  map_fold (fun _ r acc => totalCollected r + acc) 0 m.

(** ** Invariants *)

Record raffle_ok (r : Raffle) : Prop := {
  ok_count : entryCount r = N.of_nat (size (hasEntered r));
  ok_count_range : entryCount r <= MAX_UINT256;
  ok_open : status r <> Finalized -> totalCollected r = memberSum r;
  ok_finalized : status r = Finalized -> totalCollected r = 0;
  ok_created : status r <> Inactive;
  ok_incentive : raffleType r = IncentiveBased -> incentiveAmount r < entryCost r
}.

Record request_ok (s : Storage) (q : N) (rq : VRFRequest) : Prop := {
  ok_known : raffleId rq <> 0;
  ok_pending : fulfilled rq = false ->
               status (raffleAt s (raffleId rq)) = AwaitingVRF /\
               vrfRequestId (raffleAt s (raffleId rq)) = q
}.

Record Inv (w : World) : Prop := {
  inv_raffles : forall i r, raffles (storage w) !! i = Some r ->
                            raffle_ok r /\ 0 < i < nextRaffleId (storage w);
  inv_requests : forall q rq, vrfRequests (storage w) !! q = Some rq ->
                              request_ok (storage w) q rq;
  inv_next : 0 < nextRaffleId (storage w);
  inv_solvent : sumCollected (raffles (storage w)) <= balanceOf (token w) this;
  inv_no_allowance : forall spender, allowance (token w) this spender = 0
}.

(** ** Observations on the log *)

(** Token movements ordered by the contract, in order. *)
Inductive Movement :=
  | Pull (from : address) (amount : N)
  | Push (to : address) (amount : N).

Fixpoint movements (l : list LogEntry) : list Movement :=
  match l with
  | [] => []
  | Call_transferFrom from _ amount _ :: l' => Pull from amount :: movements l'
  | Call_transfer to amount _ :: l' => Push to amount :: movements l'
  | _ :: l' => movements l'
  end.

(** The recipient of each [transfer] with the contract storage as it stood
    when the token was called. *)
Fixpoint transfers_seen (l : list LogEntry) : list (address * Storage) :=
  match l with
  | [] => []
  | Call_transfer to _ seen :: l' => (to, seen) :: transfers_seen l'
  | _ :: l' => transfers_seen l'
  end.

(** ** Statements about the ledger and the lifecycle *)

(** The ledger invariant: an open raffle holds exactly its members'
    contributions, a finalized raffle holds nothing, and the contract's
    token balance covers what all raffles hold. *)
Definition ledger_ok (w : World) : Prop :=
  (forall i r, raffles (storage w) !! i = Some r ->
     (status r <> Finalized -> totalCollected r = memberSum r) /\
     (status r = Finalized -> totalCollected r = 0)) /\
  sumCollected (raffles (storage w)) <= getContractBalance w.

(** Raffle [i] is paid out in storage [s]. *)
Definition settled (i : N) (s : Storage) : Prop :=
  totalCollected (raffleAt s i) = 0 /\ status (raffleAt s i) = Finalized.

(** The three ways a raffle gets finalized: [w'] is the world after raffle
    [i] was finalized in [w]. *)
Inductive finalization : World -> N -> World -> Prop :=
  | finalize_pool i w w' :
      exec (_finalizePoolRaffle i) w = Ok w' ->
      finalization w i w'
  | finalize_vrf q words w w' :
      fulfilled (requestAt (storage w) q) = false ->
      exec (fulfillRandomWords q words) w = Ok w' ->
      finalization w (raffleId (requestAt (storage w) q)) w'
  | finalize_no_entries env i sig w w' :
      reachable w ->
      isPool (raffleAt (storage w) i) = false ->
      entryCount (raffleAt (storage w) i) = 0 ->
      exec (endRaffle env i sig) w = Ok w' ->
      finalization w i w'.

(** The auto-close condition, on the raffle as it stands after an entry. *)
Definition closes (r : Raffle) : Prop :=
  (raffleType r = DonationBased /\ entryLimit r <= entryCount r) \/
  (isPool r = true /\ targetAmount r <= totalCollected r).

(** The organizer's timing gate of [endRaffle]. *)
Definition may_end (env : Env) (r : Raffle) : Prop :=
  if isPool r
  then targetAmount r <= totalCollected r \/ deadline r <= block_timestamp env
  else deadline r <= block_timestamp env.

(** [endRaffle] needs nothing from outside the contract, or the coordinator
    answers the randomness request. *)
Definition coordinator_ready (env : Env) (r : Raffle) : Prop :=
  isPool r = true \/ entryCount r = 0 \/ is_Some (vrf_reply env).

(** Runs a script of transactions; a reverted one leaves the world as it was. *)
Definition run_all (script : list (Env * Call)) (w : World) : World :=
  foldl (fun w ec => after (perform ec.1 ec.2) w) w script.

(** *** Further view functions *)

Definition getRaffleInfo (s : Storage) (_raffleId : N)
  : Result (N * address * RaffleStatus * RaffleType * N * N * N * N * N * N * N * bool
            * N * address) :=
  if (_raffleId =? 0) || (nextRaffleId s <=? _raffleId) then Revert InvalidRaffleId
  else
    let raffle := raffleAt s _raffleId in
    Ok (id raffle, organizer raffle, status raffle, raffleType raffle, entryCost raffle,
        incentiveAmount raffle, totalCollected raffle, entryLimit raffle,
        entryCount raffle, deadline raffle, targetAmount raffle, isPool raffle,
        winnerIndex raffle, payoutAddress raffle).

Definition getVRFRequest (s : Storage) (_requestId : N) : N * bool :=
  let request := requestAt s _requestId in
  (raffleId request, fulfilled request).

(** ** Statements about terms, lifecycle and counters *)

(** The terms of a raffle, fixed by [createRaffle]. *)
Definition same_terms (r r' : Raffle) : Prop :=
  id r' = id r /\ organizer r' = organizer r /\ raffleType r' = raffleType r /\
  entryCost r' = entryCost r /\ incentiveAmount r' = incentiveAmount r /\
  entryLimit r' = entryLimit r /\ deadline r' = deadline r /\
  targetAmount r' = targetAmount r /\ isPool r' = isPool r /\
  payoutAddress r' = payoutAddress r.

(** The order of the lifecycle. *)
Definition status_rank (st : RaffleStatus) : N :=
  match st with
  | Inactive => 0 | Active => 1 | Closed => 2 | AwaitingVRF => 3 | Finalized => 4
  end.

(** What holds of the raffle stored at id [i], beyond the ledger. *)
Record raffle_shape (i : N) (r : Raffle) : Prop := {
  sh_id : id r = i;
  sh_cost : 0 < entryCost r;
  sh_payout : payoutAddress r <> 0;
  sh_donation : raffleType r = DonationBased ->
                0 < entryLimit r /\ entryCount r <= entryLimit r /\
                (status r = Active -> entryCount r < entryLimit r);
  sh_pool : isPool r = true ->
            0 < targetAmount r /\ status r <> AwaitingVRF /\
            (status r = Active -> totalCollected r < targetAmount r);
  sh_awaiting : status r = AwaitingVRF -> 0 < entryCount r;
  sh_winner : winnerIndex r <= entryCount r /\
              (status r <> Finalized -> winnerIndex r = 0) /\
              (isPool r = true -> winnerIndex r = 0) /\
              (status r = Finalized -> isPool r = false -> 0 < entryCount r ->
               1 <= winnerIndex r)
}.

Record Shape (s : Storage) : Prop := {
  shape_raffles : forall i r, raffles s !! i = Some r -> raffle_shape i r;
  shape_ids : forall i, 0 < i < nextRaffleId s -> is_Some (raffles s !! i)
}.

(** The calls that verify a signature, and so consume the sender's nonce. *)
Definition signed_call (s : Storage) (env : Env) (c : Call) : bool :=
  match c with
  | CreateRaffle _ _ _ _ _ _ _ _ _ => true
  | JoinIncentiveRaffle _ _ _ => true
  | EndRaffle i _ => msg_sender env =? organizer (raffleAt s i)
  | _ => false
  end.


(** A successful transaction rewrites at most one raffle, never its terms
    once it exists, never towards an earlier status, and a raffle awaiting
    randomness only through the callback. *)
Definition touched (c : Call) (r r' : Raffle) : Prop :=
  (status r <> Inactive -> same_terms r r') /\
  status_rank (status r) <= status_rank (status r') /\
  (status r = AwaitingVRF -> exists q words, c = FulfillRandomWords q words) /\
  (status r = Finalized -> False).


(** The parameter checks of [createRaffle]. *)
Definition valid_terms (now : N) (ty : RaffleType) (cost inc lim dl target : N)
    (pool : bool) : Prop :=
  cost <> 0 /\ now < dl /\
  (ty = IncentiveBased -> inc <> 0 /\ inc < cost) /\
  (ty = DonationBased -> lim <> 0) /\
  (pool = true -> target <> 0).

(** The raffle that [createRaffle] stores in a fresh slot. *)
Definition fresh_raffle (n : N) (creator : address) (ty : RaffleType)
    (cost inc lim dl target : N) (pool : bool) (payout : address) : Raffle :=
  {| id := n; organizer := creator; status := Active; raffleType := ty;
     entryCost := cost; incentiveAmount := inc; totalCollected := 0;
     entryLimit := lim; entryCount := 0; deadline := dl; targetAmount := target;
     isPool := pool; vrfRequestId := 0; winnerIndex := 0; payoutAddress := payout;
     hasEntered := ∅ |}.


(** ** Statements about token movements *)

(** The prize transfer of a finalization: none for an empty balance. *)
Definition prize (r : Raffle) : list Movement :=
  if 0 <? totalCollected r then [Push (payoutAddress r) (totalCollected r)] else [].

(** The token movements that a call orders when it succeeds, read off the
    storage it starts from. *)
Definition expected_movements (s : Storage) (env : Env) (c : Call) : list Movement :=
  match c with
  | EnterRaffle i => [Pull (msg_sender env) (entryCost (raffleAt s i))]
  | JoinIncentiveRaffle i pay _ =>
      [Pull (msg_sender env) (entryCost (raffleAt s i));
       Push pay (incentiveAmount (raffleAt s i))]
  | Refund i => [Push (msg_sender env) (raffleAmount (raffleAt s i))]
  | EndRaffle i _ => if isPool (raffleAt s i) then prize (raffleAt s i) else []
  | FulfillRandomWords q _ =>
      if fulfilled (requestAt s q) then []
      else prize (raffleAt s (raffleId (requestAt s q)))
  | _ => []
  end.


End EncoreRafflerV5.

(** * EncoreRaffler: the first contract

    The repository also ships the contract [EncoreRaffler]
    (contracts/EncoreRaffler.sol), the predecessor of [EncoreRafflerV5]: no
    pools, no randomness, and a prize paid to a destination that a second
    trusted signer authorizes.  Same conventions as above; it shares the
    payment token ledger, the errors and the raffle types. *)
Module Legacy.

Inductive RaffleStatus := Inactive | Active | Closed | Finalized.

#[global] Instance RaffleStatus_eq_dec : EqDecision RaffleStatus.
Proof. solve_decision. Defined.

Record Raffle := {
  id : N;
  organizer : address;
  status : RaffleStatus;
  raffleType : RaffleType;
  entryCost : N;
  incentiveAmount : N;
  totalCollected : N;
  entryLimit : N;
  entryCount : N;
  deadline : N;
  hasEntered : gset N
}.

Definition emptyRaffle : Raffle :=
  {| id := 0; organizer := 0; status := Inactive; raffleType := DonationBased;
     entryCost := 0; incentiveAmount := 0; totalCollected := 0; entryLimit := 0;
     entryCount := 0; deadline := 0; hasEntered := ∅ |}.

Definition set_status (v : RaffleStatus) (r : Raffle) : Raffle :=
  {| id := id r; organizer := organizer r; status := v; raffleType := raffleType r;
     entryCost := entryCost r; incentiveAmount := incentiveAmount r;
     totalCollected := totalCollected r; entryLimit := entryLimit r;
     entryCount := entryCount r; deadline := deadline r; hasEntered := hasEntered r |}.

Definition set_totalCollected (v : N) (r : Raffle) : Raffle :=
  {| id := id r; organizer := organizer r; status := status r; raffleType := raffleType r;
     entryCost := entryCost r; incentiveAmount := incentiveAmount r;
     totalCollected := v; entryLimit := entryLimit r;
     entryCount := entryCount r; deadline := deadline r; hasEntered := hasEntered r |}.

Definition set_entryCount (v : N) (r : Raffle) : Raffle :=
  {| id := id r; organizer := organizer r; status := status r; raffleType := raffleType r;
     entryCost := entryCost r; incentiveAmount := incentiveAmount r;
     totalCollected := totalCollected r; entryLimit := entryLimit r;
     entryCount := v; deadline := deadline r; hasEntered := hasEntered r |}.

Definition set_hasEntered (user : address) (b : bool) (r : Raffle) : Raffle :=
  {| id := id r; organizer := organizer r; status := status r; raffleType := raffleType r;
     entryCost := entryCost r; incentiveAmount := incentiveAmount r;
     totalCollected := totalCollected r; entryLimit := entryLimit r;
     entryCount := entryCount r; deadline := deadline r;
     hasEntered := if b then {[user]} ∪ hasEntered r else hasEntered r ∖ {[user]} |}.

Record Storage := {
  owner : address;
  appServerSigner : address;
  bitrefillSigner : address;
  raffles : gmap N Raffle;
  nonces : gmap N N;
  nextRaffleId : N;
  paused : bool
}.

Definition raffleAt (s : Storage) (i : N) : Raffle := default emptyRaffle (raffles s !! i).
Definition nonceOf (s : Storage) (a : address) : N := default 0 (nonces s !! a).

Definition with_raffles (m : gmap N Raffle) (s : Storage) : Storage :=
  {| owner := owner s; appServerSigner := appServerSigner s;
     bitrefillSigner := bitrefillSigner s; raffles := m; nonces := nonces s;
     nextRaffleId := nextRaffleId s; paused := paused s |}.

Definition with_nonces (m : gmap N N) (s : Storage) : Storage :=
  {| owner := owner s; appServerSigner := appServerSigner s;
     bitrefillSigner := bitrefillSigner s; raffles := raffles s; nonces := m;
     nextRaffleId := nextRaffleId s; paused := paused s |}.

Definition with_nextRaffleId (n : N) (s : Storage) : Storage :=
  {| owner := owner s; appServerSigner := appServerSigner s;
     bitrefillSigner := bitrefillSigner s; raffles := raffles s; nonces := nonces s;
     nextRaffleId := n; paused := paused s |}.

Definition with_paused (b : bool) (s : Storage) : Storage :=
  {| owner := owner s; appServerSigner := appServerSigner s;
     bitrefillSigner := bitrefillSigner s; raffles := raffles s; nonces := nonces s;
     nextRaffleId := nextRaffleId s; paused := b |}.

Definition with_appServerSigner (a : address) (s : Storage) : Storage :=
  {| owner := owner s; appServerSigner := a;
     bitrefillSigner := bitrefillSigner s; raffles := raffles s; nonces := nonces s;
     nextRaffleId := nextRaffleId s; paused := paused s |}.

Definition with_bitrefillSigner (a : address) (s : Storage) : Storage :=
  {| owner := owner s; appServerSigner := appServerSigner s;
     bitrefillSigner := a; raffles := raffles s; nonces := nonces s;
     nextRaffleId := nextRaffleId s; paused := paused s |}.

(** Events, and the calls of the payment token in the order they are made. *)
Inductive LogEntry :=
  | Ev_RaffleCreated (raffleId : N) (organizer : address) (raffleType : RaffleType)
      (entryCost : N)
  | Ev_Entry (raffleId : N) (user : address) (amount : N)
  | Ev_IncentiveEntry (raffleId : N) (user : address) (raffleAmount incentiveAmount : N)
      (incentiveDestination : address)
  | Ev_RaffleEnded (raffleId : N) (prizeDestination : address) (prizeAmount : N)
  | Ev_Refunded (raffleId : N) (user : address) (refundAmount : N)
  | Ev_AppServerSignerUpdated (oldSigner newSigner : address)
  | Ev_BitRefillSignerUpdated (oldSigner newSigner : address)
  | Ev_ContractPaused (by_ : address)
  | Ev_ContractUnpaused (by_ : address)
  | Call_transferFrom (from to : address) (amount : N)
  | Call_transfer (to : address) (amount : N).

Record World := {
  storage : Storage;
  token : Token;
  log : list LogEntry
}.

Definition M (A : Type) : Type := World -> Result (A * World).

Definition ret {A} (a : A) : M A := fun w => Ok (a, w).

Definition bind {A B} (m : M A) (k : A -> M B) : M B :=
  fun w => match m w with
           | Ok (a, w') => k a w'
           | Revert e => Revert e
           end.

Definition revert {A} (e : Error) : M A := fun _ => Revert e.

Declare Scope legacy_scope.
Delimit Scope legacy_scope with legacy.
Notation "x <- m ;; k" := (bind m (fun x => k))
  (at level 100, m at next level, right associativity) : legacy_scope.
Notation "m ;; k" := (bind m (fun _ => k))
  (at level 100, right associativity) : legacy_scope.
Local Open Scope legacy_scope.

Definition revert_if (c : bool) (e : Error) : M unit :=
  if c then revert e else ret tt.

Definition getStorage : M Storage := fun w => Ok (storage w, w).

Definition modifyStorage (f : Storage -> Storage) : M unit :=
  fun w => Ok (tt, {| storage := f (storage w); token := token w; log := log w |}).

Definition emit (e : LogEntry) : M unit :=
  fun w => Ok (tt, {| storage := storage w; token := token w; log := log w ++ [e] |}).

Definition readRaffle (i : N) : M Raffle :=
  s <- getStorage ;; ret (raffleAt s i).

Definition writeRaffle (i : N) (f : Raffle -> Raffle) : M unit :=
  modifyStorage (fun s => with_raffles (<[i := f (raffleAt s i)]> (raffles s)) s).

Definition checked_add (a b : N) : M N :=
  if a + b <=? MAX_UINT256 then ret (a + b) else revert (Panic PANIC_ARITHMETIC).

Definition checked_sub (a b : N) : M N :=
  if b <=? a then ret (a - b) else revert (Panic PANIC_ARITHMETIC).

Definition exec (m : M unit) (w : World) : Result World :=
  match m w with
  | Ok (_, w') => Ok w'
  | Revert e => Revert e
  end.

(** The messages that the signers sign: the fields given to
    [abi.encodePacked], whose packed encodings have three different
    lengths. *)
Inductive Message :=
  | CreateRaffleMsg (organizer : address) (raffleType : N)
      (entryCost incentiveAmount entryLimit deadline nonce : N)
  | IncentiveEntryMsg (raffleId : N) (paymentAddress user : address)
  | EndRaffleMsg (raffleId : N) (destination : address) (nonce : N).

(** [this] is [address(this)], and [recover m sig] is the outcome of
    [keccak256(abi.encodePacked(m)).toEthSignedMessageHash().recover(sig)]
    in the OpenZeppelin ECDSA and MessageHashUtils libraries. *)
Class Deployment := {
  this : address;
  recover : Message -> Signature -> Recovery
}.

Section EncoreRaffler.

Context {D : Deployment}.

Definition call_allowance (holder : address) : M N :=
  fun w => Ok (allowance (token w) holder this, w).

Definition call_transferFrom (from : address) (amount : N) : M bool :=
  fun w =>
    let l := log w ++ [Call_transferFrom from this amount] in
    match token_transferFrom (token w) this from this amount with
    | Some t => Ok (true, {| storage := storage w; token := t; log := l |})
    | None => Ok (false, {| storage := storage w; token := token w; log := l |})
    end.

Definition call_transfer (to : address) (amount : N) : M bool :=
  fun w =>
    let l := log w ++ [Call_transfer to amount] in
    match token_transfer (token w) this to amount with
    | Some t => Ok (true, {| storage := storage w; token := t; log := l |})
    | None => Ok (false, {| storage := storage w; token := token w; log := l |})
    end.

(** [hash.recover(_signature)]: the signer, or the revert of the ECDSA
    library. *)
Definition call_recover (m : Message) (_signature : Signature) : M address :=
  match recover m _signature with
  | Recovered signer => ret signer
  | Malformed e => revert (ECDSA e)
  end.

(** *** Modifiers *)

(** Declared by the contract and applied to none of its functions. *)
Definition whenNotPaused : M unit :=
  s <- getStorage ;; revert_if (paused s) ContractPaused.

Definition validAddress (_addr : address) : M unit :=
  revert_if (_addr =? 0) ZeroAddress.

Definition onlyOwner (env : Env) : M unit :=
  s <- getStorage ;; revert_if (negb (msg_sender env =? owner s)) OnlyOwner.

Definition validRaffleId (_raffleId : N) : M unit :=
  s <- getStorage ;;
  revert_if ((_raffleId =? 0) || (nextRaffleId s <=? _raffleId)) InvalidRaffleId.

(** [nonces[a]++]: the value before the increment. *)
Definition useNonce (a : address) : M N :=
  s <- getStorage ;;
  n <- checked_add (nonceOf s a) 1 ;;
  modifyStorage (with_nonces (<[a := n]> (nonces s))) ;;
  ret (nonceOf s a).

Definition constructor (env : Env) (_paymentToken _appServerSigner _bitrefillSigner : address)
  : Result Storage :=
  if _paymentToken =? 0 then Revert ZeroAddress
  else if _appServerSigner =? 0 then Revert ZeroAddress
  else if _bitrefillSigner =? 0 then Revert ZeroAddress
  else Ok {| owner := msg_sender env; appServerSigner := _appServerSigner;
             bitrefillSigner := _bitrefillSigner; raffles := ∅; nonces := ∅;
             nextRaffleId := 1; paused := false |}.

(** *** Owner functions *)

Definition createRaffle (env : Env) (_raffleType : RaffleType)
    (_entryCost _incentiveAmount _entryLimit _deadline : N) (_signature : Signature)
  : M unit :=
  revert_if (_entryCost =? 0) InvalidAmount ;;
  revert_if (_deadline <=? block_timestamp env) InvalidAmount ;;
  revert_if (bool_decide (_raffleType = IncentiveBased)
             && ((_incentiveAmount =? 0) || (_entryCost <=? _incentiveAmount)))
            InvalidAmount ;;
  revert_if (bool_decide (_raffleType = DonationBased) && (_entryLimit =? 0))
            InvalidAmount ;;
  s <- getStorage ;;
  nonce <- useNonce (appServerSigner s) ;;
  signer <- call_recover (CreateRaffleMsg (msg_sender env) (raffleType_code _raffleType)
                            _entryCost _incentiveAmount _entryLimit _deadline nonce)
              _signature ;;
  revert_if (negb (signer =? appServerSigner s)) InvalidSignature ;;
  let raffleId := nextRaffleId s in
  next <- checked_add raffleId 1 ;;
  modifyStorage (with_nextRaffleId next) ;;
  writeRaffle raffleId (fun raffle =>
    {| id := raffleId; organizer := msg_sender env; status := Active;
       raffleType := _raffleType; entryCost := _entryCost;
       incentiveAmount := _incentiveAmount; totalCollected := totalCollected raffle;
       entryLimit := _entryLimit; entryCount := entryCount raffle;
       deadline := _deadline; hasEntered := hasEntered raffle |}) ;;
  emit (Ev_RaffleCreated raffleId (msg_sender env) _raffleType _entryCost).

Definition updateAppServerSigner (env : Env) (_newSigner : address) : M unit :=
  onlyOwner env ;;
  validAddress _newSigner ;;
  s <- getStorage ;;
  let oldSigner := appServerSigner s in
  modifyStorage (with_appServerSigner _newSigner) ;;
  emit (Ev_AppServerSignerUpdated oldSigner _newSigner).

Definition updateBitRefillSigner (env : Env) (_newSigner : address) : M unit :=
  onlyOwner env ;;
  validAddress _newSigner ;;
  s <- getStorage ;;
  let oldSigner := bitrefillSigner s in
  modifyStorage (with_bitrefillSigner _newSigner) ;;
  emit (Ev_BitRefillSignerUpdated oldSigner _newSigner).

Definition pause (env : Env) : M unit :=
  onlyOwner env ;;
  modifyStorage (with_paused true) ;;
  emit (Ev_ContractPaused (msg_sender env)).

Definition unpause (env : Env) : M unit :=
  onlyOwner env ;;
  modifyStorage (with_paused false) ;;
  emit (Ev_ContractUnpaused (msg_sender env)).

(** *** User functions *)

Definition enterRaffle (env : Env) (_raffleId : N) : M unit :=
  validRaffleId _raffleId ;;
  raffle <- readRaffle _raffleId ;;
  revert_if (negb (bool_decide (status raffle = Active))) RaffleNotActive ;;
  revert_if (bool_decide (msg_sender env ∈ hasEntered raffle)) AlreadyEntered ;;
  revert_if (bool_decide (raffleType raffle = IncentiveBased)) InvalidRaffleType ;;
  allowed <- call_allowance (msg_sender env) ;;
  revert_if (allowed <? entryCost raffle) InsufficientAllowance ;;
  writeRaffle _raffleId (set_hasEntered (msg_sender env) true) ;;
  count <- checked_add (entryCount raffle) 1 ;;
  writeRaffle _raffleId (set_entryCount count) ;;
  collected <- checked_add (totalCollected raffle) (entryCost raffle) ;;
  writeRaffle _raffleId (set_totalCollected collected) ;;
  pulled <- call_transferFrom (msg_sender env) (entryCost raffle) ;;
  revert_if (negb pulled) TransferFailed ;;
  raffle <- readRaffle _raffleId ;;
  (if bool_decide (raffleType raffle = DonationBased)
      && (entryLimit raffle <=? entryCount raffle)
   then writeRaffle _raffleId (set_status Closed)
   else ret tt) ;;
  emit (Ev_Entry _raffleId (msg_sender env) (entryCost raffle)).

Definition joinIncentiveRaffle (env : Env) (_raffleId : N) (_paymentAddress : address)
    (_signature : Signature) : M unit :=
  validRaffleId _raffleId ;;
  raffle <- readRaffle _raffleId ;;
  revert_if (negb (bool_decide (status raffle = Active))) RaffleNotActive ;;
  revert_if (bool_decide (msg_sender env ∈ hasEntered raffle)) AlreadyEntered ;;
  revert_if (negb (bool_decide (raffleType raffle = IncentiveBased))) InvalidRaffleType ;;
  signer <- call_recover (IncentiveEntryMsg _raffleId _paymentAddress (msg_sender env))
              _signature ;;
  s <- getStorage ;;
  revert_if (negb (signer =? appServerSigner s)) InvalidSignature ;;
  allowed <- call_allowance (msg_sender env) ;;
  revert_if (allowed <? entryCost raffle) InsufficientAllowance ;;
  writeRaffle _raffleId (set_hasEntered (msg_sender env) true) ;;
  count <- checked_add (entryCount raffle) 1 ;;
  writeRaffle _raffleId (set_entryCount count) ;;
  raffleAmount <- checked_sub (entryCost raffle) (incentiveAmount raffle) ;;
  collected <- checked_add (totalCollected raffle) raffleAmount ;;
  writeRaffle _raffleId (set_totalCollected collected) ;;
  pulled <- call_transferFrom (msg_sender env) (entryCost raffle) ;;
  revert_if (negb pulled) TransferFailed ;;
  forwarded <- call_transfer _paymentAddress (incentiveAmount raffle) ;;
  revert_if (negb forwarded) TransferFailed ;;
  emit (Ev_IncentiveEntry _raffleId (msg_sender env) raffleAmount
          (incentiveAmount raffle) _paymentAddress).

Definition refund (env : Env) (_raffleId : N) : M unit :=
  validRaffleId _raffleId ;;
  raffle <- readRaffle _raffleId ;;
  revert_if (negb (bool_decide (status raffle = Active))) RaffleNotActive ;;
  revert_if (block_timestamp env <=? deadline raffle) DeadlineNotPassed ;;
  revert_if (negb (bool_decide (msg_sender env ∈ hasEntered raffle))) AlreadyEntered ;;
  refundAmount <-
    (if bool_decide (raffleType raffle = IncentiveBased)
     then checked_sub (entryCost raffle) (incentiveAmount raffle)
     else ret (entryCost raffle)) ;;
  writeRaffle _raffleId (set_hasEntered (msg_sender env) false) ;;
  count <- checked_sub (entryCount raffle) 1 ;;
  writeRaffle _raffleId (set_entryCount count) ;;
  collected <- checked_sub (totalCollected raffle) refundAmount ;;
  writeRaffle _raffleId (set_totalCollected collected) ;;
  sent <- call_transfer (msg_sender env) refundAmount ;;
  revert_if (negb sent) TransferFailed ;;
  emit (Ev_Refunded _raffleId (msg_sender env) refundAmount).

(** *** Oracle/server functions *)

Definition endRaffle (env : Env) (_raffleId : N) (_destination : address)
    (_signature : Signature) : M unit :=
  validRaffleId _raffleId ;;
  raffle <- readRaffle _raffleId ;;
  revert_if (negb (bool_decide (status raffle = Active))
             && negb (bool_decide (status raffle = Closed))) RaffleNotActive ;;
  s <- getStorage ;;
  nonce <- useNonce (bitrefillSigner s) ;;
  signer <- call_recover (EndRaffleMsg _raffleId _destination nonce) _signature ;;
  revert_if (negb (signer =? bitrefillSigner s)) InvalidSignature ;;
  let prizeAmount := totalCollected raffle in
  writeRaffle _raffleId (set_status Finalized) ;;
  writeRaffle _raffleId (set_totalCollected 0) ;;
  (if 0 <? prizeAmount
   then sent <- call_transfer _destination prizeAmount ;;
        revert_if (negb sent) TransferFailed
   else ret tt) ;;
  emit (Ev_RaffleEnded _raffleId _destination prizeAmount).

(** *** View functions *)

Definition getRaffleCount (s : Storage) : N := nextRaffleId s - 1.

Definition hasUserEntered (s : Storage) (_raffleId : N) (_user : address) : bool :=
  bool_decide (_user ∈ hasEntered (raffleAt s _raffleId)).

Definition getRaffleInfo (s : Storage) (_raffleId : N)
  : Result (N * address * RaffleStatus * RaffleType * N * N * N * N * N * N) :=
  if (_raffleId =? 0) || (nextRaffleId s <=? _raffleId) then Revert InvalidRaffleId
  else
    let raffle := raffleAt s _raffleId in
    Ok (id raffle, organizer raffle, status raffle, raffleType raffle, entryCost raffle,
        incentiveAmount raffle, totalCollected raffle, entryLimit raffle,
        entryCount raffle, deadline raffle).

Definition getContractBalance (w : World) : N := balanceOf (token w) this.

(** *** Transactions *)

Inductive Call :=
  | CreateRaffle (_raffleType : RaffleType)
      (_entryCost _incentiveAmount _entryLimit _deadline : N) (_signature : Signature)
  | UpdateAppServerSigner (_newSigner : address)
  | UpdateBitRefillSigner (_newSigner : address)
  | Pause
  | Unpause
  | EnterRaffle (_raffleId : N)
  | JoinIncentiveRaffle (_raffleId : N) (_paymentAddress : address) (_signature : Signature)
  | Refund (_raffleId : N)
  | EndRaffle (_raffleId : N) (_destination : address) (_signature : Signature).

Definition perform (env : Env) (c : Call) : M unit :=
  match c with
  | CreateRaffle ty cost inc lim dl sig => createRaffle env ty cost inc lim dl sig
  | UpdateAppServerSigner a => updateAppServerSigner env a
  | UpdateBitRefillSigner a => updateBitRefillSigner env a
  | Pause => pause env
  | Unpause => unpause env
  | EnterRaffle i => enterRaffle env i
  | JoinIncentiveRaffle i pay sig => joinIncentiveRaffle env i pay sig
  | Refund i => refund env i
  | EndRaffle i dest sig => endRaffle env i dest sig
  end.

(** The world with the pause flag set to [b]. *)
Definition flagged (b : bool) (w : World) : World :=
  {| storage := with_paused b (storage w); token := token w; log := log w |}.

(** Token movements ordered by the contract, in order. *)
Fixpoint movements (l : list LogEntry) : list Movement :=
  match l with
  | [] => []
  | Call_transferFrom from _ amount :: l' => Pull from amount :: movements l'
  | Call_transfer to amount :: l' => Push to amount :: movements l'
  | _ :: l' => movements l'
  end.

End EncoreRaffler.

End Legacy.


(** ** Example deployment and scenarios *)

(** The contract lives at address 99; in the examples a signature is the
    one-word list naming its signer, whatever the message. *)
Definition demo : Deployment :=
  {| this := 99;
     recover := fun _ sig =>
       match sig with
       | [signer] => Recovered signer
       | _ => Malformed (ECDSAInvalidSignatureLength (N.of_nat (length sig)))
       end |}.

(** Deployed by account 1 with App Server 2; accounts 10 and 11 hold 1000
    tokens each. *)
Definition genesis : World :=
  {| storage := {| owner := 1; appServerSigner := 2; raffles := ∅; vrfRequests := ∅;
                   nextRaffleId := 1; paused := false; nonces := ∅ |};
     token := {| balances := {[10 := 1000; 11 := 1000]}; allowances := ∅ |};
     log := [] |}.

(** A transaction of [sender] at time [now]; the coordinator would answer a
    randomness request with request id 77. *)
Definition tx (sender now : N) : Env :=
  {| msg_sender := sender; block_timestamp := now; vrf_reply := Some 77 |}.

Definition approvals : list (Env * Call) :=
  [ (tx 10 1, TokenApprove 99 1000); (tx 11 1, TokenApprove 99 1000) ].

(** Scenario A: a DonationBased traditional raffle, [entryCost = 100],
    [entryLimit = 2], two entries, then [endRaffle] by the App Server. *)
Definition donation_one_entry : World :=
  run_all (D := demo)
    (approvals ++
     [ (tx 5 10, CreateRaffle DonationBased 100 0 2 1000 0 false 50 [2]);
       (tx 10 20, EnterRaffle 1) ])
    genesis.

Definition donation_closed : World :=
  run_all (D := demo) [ (tx 11 21, EnterRaffle 1) ] donation_one_entry.

Definition donation_awaiting : World :=
  run_all (D := demo) [ (tx 2 30, EndRaffle 1 []) ] donation_closed.

Definition donation_settled : World :=
  run_all (D := demo) [ (tx 8 40, FulfillRandomWords 77 [7]) ] donation_awaiting.

(** A pool raffle with one entry, ended by the App Server. *)
Definition pool_open : World :=
  run_all (D := demo)
    (approvals ++
     [ (tx 5 10, CreateRaffle ProfitBased 100 0 0 1000 500 true 50 [2]);
       (tx 10 20, EnterRaffle 1) ])
    genesis.

Definition pool_settled : World :=
  run_all (D := demo) [ (tx 2 30, EndRaffle 1 []) ] pool_open.

(** Scenario C: an IncentiveBased traditional raffle, [entryCost = 100],
    [incentiveAmount = 20]; account 10 joins with incentive destination 60. *)
Definition incentive_created : World :=
  run_all (D := demo)
    (approvals ++
     [ (tx 5 10, CreateRaffle IncentiveBased 100 20 0 1000 0 false 50 [2]) ])
    genesis.

Definition incentive_joined : World :=
  run_all (D := demo) [ (tx 10 20, JoinIncentiveRaffle 1 60 [2]) ] incentive_created.

(** A traditional raffle whose deadline is the largest [uint256], with one
    entry. *)
Definition far_deadline : World :=
  run_all (D := demo)
    (approvals ++
     [ (tx 5 10, CreateRaffle ProfitBased 100 0 0 MAX_UINT256 0 false 50 [2]);
       (tx 10 20, EnterRaffle 1) ])
    genesis.

(** A traditional raffle that the App Server (account 2) created itself. *)
Definition own_raffle : World :=
  run_all (D := demo)
    [ (tx 2 10, CreateRaffle ProfitBased 100 0 0 1000 0 false 50 [2]) ]
    genesis.

(** A second raffle, created while the raffle of scenario A awaits
    randomness. *)
Definition second_raffle : World :=
  run_all (D := demo)
    [ (tx 5 31, CreateRaffle ProfitBased 100 0 0 1000 0 false 50 [2]) ]
    donation_awaiting.

(** On the open pool raffle, account 10 takes its refund and enters again,
    or account 11 enters and takes its refund. *)
Definition pool_refunded : World :=
  run_all (D := demo) [ (tx 10 25, Refund 1) ] pool_open.

Definition pool_reentered : World :=
  run_all (D := demo) [ (tx 10 26, EnterRaffle 1) ] pool_refunded.

Definition pool_two : World :=
  run_all (D := demo) [ (tx 11 22, EnterRaffle 1) ] pool_open.

Definition pool_back : World :=
  run_all (D := demo) [ (tx 11 23, Refund 1) ] pool_two.

(** The owner pauses the contract while the raffle of scenario A is open. *)
Definition donation_paused : World :=
  run_all (D := demo) [ (tx 1 22, Pause) ] donation_one_entry.

(** The owner pauses the contract, or replaces the App Server by account 4. *)
Definition paused_world : World :=
  run_all (D := demo) [ (tx 1 5, Pause) ] genesis.

Definition rotated : World :=
  run_all (D := demo) [ (tx 1 5, UpdateAppServerSigner 4) ] genesis.

(** The first contract at address 99, with the same convention for
    signatures; deployed by account 1 with App Server 2 and BitRefill signer
    3; account 10 holds 1000 tokens and has approved the contract. *)
Definition legacy_demo : Legacy.Deployment :=
  {| Legacy.this := 99;
     Legacy.recover := fun _ sig =>
       match sig with
       | [signer] => Recovered signer
       | _ => Malformed (ECDSAInvalidSignatureLength (N.of_nat (length sig)))
       end |}.

Definition legacy_genesis : Legacy.World :=
  {| Legacy.storage :=
       {| Legacy.owner := 1; Legacy.appServerSigner := 2; Legacy.bitrefillSigner := 3;
          Legacy.raffles := ∅; Legacy.nonces := ∅; Legacy.nextRaffleId := 1;
          Legacy.paused := false |};
     Legacy.token := {| balances := {[10 := 1000]}; allowances := {[(10, 99) := 1000]} |};
     Legacy.log := [] |}.

Definition legacy_run (script : list (Env * Legacy.Call)) (w : Legacy.World)
  : Legacy.World :=
  foldl (fun w ec =>
           match Legacy.exec (Legacy.perform (D := legacy_demo) ec.1 ec.2) w with
           | Ok w' => w'
           | Revert _ => w
           end) w script.

(** An IncentiveBased raffle with [entryCost = 100], [incentiveAmount = 20]
    and deadline 1000; account 10 joins with incentive destination 60, and
    takes its refund right after the deadline. *)
Definition legacy_created : Legacy.World :=
  legacy_run [ (tx 5 10, Legacy.CreateRaffle IncentiveBased 100 20 0 1000 [2]) ]
    legacy_genesis.

Definition legacy_joined : Legacy.World :=
  legacy_run [ (tx 10 20, Legacy.JoinIncentiveRaffle 1 60 [2]) ] legacy_created.

Definition legacy_refunded : Legacy.World :=
  legacy_run [ (tx 10 1001, Legacy.Refund 1) ] legacy_joined.


(** Turns the boolean tests met during symbolic execution into
    propositions. *)
Ltac prop_hyps :=
  repeat match goal with
  | H : negb _ = true |- _ => apply negb_true_iff in H
  | H : negb _ = false |- _ => apply negb_false_iff in H
  | H : _ || _ = false |- _ => apply orb_false_iff in H; destruct H
  | H : _ && _ = true |- _ => apply andb_true_iff in H; destruct H
  | H : _ && _ = false |- _ => apply andb_false_iff in H; destruct H
  | H : _ || _ = true |- _ => apply orb_true_iff in H; destruct H
  | H : bool_decide _ = true |- _ => apply bool_decide_eq_true in H
  | H : bool_decide _ = false |- _ => apply bool_decide_eq_false in H
  | H : (_ =? _) = true |- _ => apply N.eqb_eq in H
  | H : (_ =? _) = false |- _ => apply N.eqb_neq in H
  | H : (_ <=? _) = true |- _ => apply N.leb_le in H
  | H : (_ <=? _) = false |- _ => apply N.leb_gt in H
  | H : (_ <? _) = true |- _ => apply N.ltb_lt in H
  | H : (_ <? _) = false |- _ => apply N.ltb_ge in H
  end.

Section Proofs.

Context {D : Deployment}.

(** ** Proof tools *)

(** Symbolic execution of a call in a hypothesis [H : exec m w = Ok w']:
    unfolds the monad, normalises storage reads after writes, and splits on
    every guard; the reverting branches are discarded. *)
Ltac step_run H :=
  cbv beta iota zeta delta
    [exec after perform bind ret revert revert_if getStorage modifyStorage emit readRaffle
     writeRaffle checked_add checked_sub checked_mod call_allowance call_transferFrom
     call_transfer call_requestRandomWords call_recover whenNotPaused validAddress onlyOwner
     validRaffleId useNonce token_call storage token log
     raffleAt requestAt nonceOf with_raffles with_vrfRequests with_nextRaffleId with_paused
     with_nonces with_appServerSigner
     owner appServerSigner raffles vrfRequests nextRaffleId paused nonces] in H;
  rewrite ?lookup_insert_eq, ?insert_insert_eq in H;
  cbn [from_option Datatypes.id raffleId fulfilled] in H.

Ltac run_inv H :=
  repeat (step_run H;
    match type of H with
    | context [if ?c then _ else _] => destruct c eqn:?; try discriminate H
    | context [match ?x with Some _ => _ | None => _ end] =>
        destruct x eqn:?; try discriminate H
    | context [match ?x with Recovered _ => _ | Malformed _ => _ end] =>
        destruct x eqn:?; try discriminate H
    end);
  step_run H.

(** The same on the goal, for calls shown to succeed. *)
Ltac step_goal :=
  cbv beta iota zeta delta
    [exec after perform bind ret revert revert_if getStorage modifyStorage emit readRaffle
     writeRaffle checked_add checked_sub checked_mod call_allowance call_transferFrom
     call_transfer call_requestRandomWords call_recover whenNotPaused validAddress onlyOwner
     validRaffleId useNonce token_call storage token log
     raffleAt requestAt nonceOf with_raffles with_vrfRequests with_nextRaffleId with_paused
     with_nonces with_appServerSigner
     owner appServerSigner raffles vrfRequests nextRaffleId paused nonces];
  rewrite ?lookup_insert_eq, ?insert_insert_eq;
  cbn [from_option Datatypes.id raffleId fulfilled].

Ltac raffle_simpl :=
  cbn [id organizer status raffleType entryCost incentiveAmount totalCollected entryLimit
       entryCount deadline targetAmount isPool vrfRequestId winnerIndex payoutAddress
       hasEntered set_status set_totalCollected set_entryCount set_vrfRequestId
       set_winnerIndex set_hasEntered raffleId fulfilled] in *.

(** ** Ledger lemmas *)

Lemma memberSum_size r :
  memberSum r = N.of_nat (size (hasEntered r)) * raffleAmount r.
Proof.
  unfold memberSum, size, set_size. simpl.
  induction (elements (hasEntered r)) as [|a l IH]; simpl; [lia|].
  rewrite IH. lia.
Qed.

Lemma sumCollected_empty : sumCollected ∅ = 0.
Proof. unfold sumCollected. apply map_fold_empty. Qed.

Lemma sumCollected_insert_fresh m i r :
  m !! i = None -> sumCollected (<[i := r]> m) = totalCollected r + sumCollected m.
Proof.
  intros H. unfold sumCollected.
  apply (map_fold_insert_L (fun _ r acc => totalCollected r + acc)); [|done].
  intros. lia.
Qed.

Lemma sumCollected_update m i r :
  sumCollected (<[i := r]> m) + totalCollected (default emptyRaffle (m !! i))
  = totalCollected r + sumCollected m.
Proof.
  destruct (m !! i) as [old|] eqn:E; simpl.
  - rewrite <- (insert_delete_eq m i r).
    rewrite <- (insert_id m i old E) at 2.
    rewrite <- (insert_delete_eq m i old).
    rewrite !sumCollected_insert_fresh by apply lookup_delete_eq. lia.
  - rewrite sumCollected_insert_fresh by done. lia.
Qed.

Lemma size_enter (X : gset N) (a : N) :
  a ∉ X -> N.of_nat (size ({[a]} ∪ X)) = N.of_nat (size X) + 1.
Proof.
  intros H. rewrite size_union by set_solver. rewrite size_singleton. lia.
Qed.

Lemma size_leave (X : gset N) (a : N) :
  a ∈ X -> N.of_nat (size (X ∖ {[a]})) + 1 = N.of_nat (size X).
Proof.
  intros H. rewrite size_difference by set_solver. rewrite size_singleton.
  assert (size X <> 0%nat) by (intros E; apply size_empty_inv in E; set_solver).
  lia.
Qed.

(** ** The token ledger *)

Lemma balanceOf_move b from to amount a al al' :
  amount <= default 0 (b !! from) ->
  balanceOf {| balances := move from to amount b; allowances := al |} a
    + (if bool_decide (a = from) then amount else 0)
  = balanceOf {| balances := b; allowances := al' |} a
    + (if bool_decide (a = to) then amount else 0).
Proof.
  intros H. unfold balanceOf, move. cbn [balances].
  destruct (decide (a = to)) as [Hto|Hto], (decide (a = from)) as [Hfrom|Hfrom];
    subst; repeat case_bool_decide; try done;
    rewrite ?lookup_insert_eq, ?lookup_insert_ne by done;
    rewrite ?lookup_insert_eq, ?lookup_insert_ne by done; simpl; lia.
Qed.

Lemma token_transfer_balance t from to amount t' a :
  token_transfer t from to amount = Some t' ->
  amount <= balanceOf t from /\
  (forall h s, allowance t' h s <= allowance t h s) /\
  balanceOf t' a + (if bool_decide (a = from) then amount else 0)
  = balanceOf t a + (if bool_decide (a = to) then amount else 0).
Proof.
  unfold token_transfer. destruct (balanceOf t from <? amount) eqn:E; [done|].
  intros [= <-]. apply N.ltb_ge in E. split; [done|]. split; [done|].
  destruct t as [b al]. apply balanceOf_move. exact E.
Qed.

Lemma token_transferFrom_balance t spender from to amount t' a :
  token_transferFrom t spender from to amount = Some t' ->
  amount <= balanceOf t from /\ amount <= allowance t from spender /\
  (forall h s, allowance t' h s <= allowance t h s) /\
  balanceOf t' a + (if bool_decide (a = from) then amount else 0)
  = balanceOf t a + (if bool_decide (a = to) then amount else 0).
Proof.
  unfold token_transferFrom.
  destruct (allowance t from spender <? amount) eqn:E1; [done|].
  destruct (balanceOf t from <? amount) eqn:E2; [done|]. simpl.
  intros [= <-]. apply N.ltb_ge in E1, E2. repeat split; try done.
  - intros h s. unfold allowance. cbn [allowances].
    destruct (decide ((from, spender) = (h, s))) as [[= <- <-]|Hne].
    + rewrite lookup_insert_eq. simpl. lia.
    + rewrite lookup_insert_ne by done. lia.
  - destruct t as [b al]. apply balanceOf_move. exact E2.
Qed.

Lemma token_transfer_enough t from to amount :
  amount <= balanceOf t from -> exists t', token_transfer t from to amount = Some t'.
Proof.
  intros H. unfold token_transfer.
  destruct (balanceOf t from <? amount) eqn:E; [apply N.ltb_lt in E; lia|eauto].
Qed.

(** ** Preservation of the invariant *)

Lemma Inv_update s t l s' t' l' i r' :
  Inv {| storage := s; token := t; log := l |} ->
  raffles s' = <[i := r']> (raffles s) ->
  nextRaffleId s <= nextRaffleId s' ->
  0 < i < nextRaffleId s' ->
  raffle_ok r' ->
  totalCollected r' + balanceOf t this <= totalCollected (raffleAt s i) + balanceOf t' this ->
  (forall spender, allowance t' this spender = 0) ->
  (forall q rq, vrfRequests s' !! q = Some rq -> request_ok s' q rq) ->
  Inv {| storage := s'; token := t'; log := l' |}.
Proof.
  intros [Hr Hq Hnx Hs Ha] Hm Hn Hi Hok Hbal Hal Hreq. cbn [storage token] in *.
  constructor; cbn [storage token]; try done; try lia.
  - intros j r. rewrite Hm. destruct (decide (i = j)) as [<-|Hne].
    + rewrite lookup_insert_eq. intros [= <-]. done.
    + rewrite lookup_insert_ne by done. intros Hj.
      destruct (Hr j r Hj) as [? ?]. split; [done|lia].
  - rewrite Hm. pose proof (sumCollected_update (raffles s) i r') as Hsum.
    unfold raffleAt in Hbal. lia.
Qed.

Lemma requests_kept s s' i r' :
  (forall q rq, vrfRequests s !! q = Some rq -> request_ok s q rq) ->
  vrfRequests s' = vrfRequests s ->
  raffles s' = <[i := r']> (raffles s) ->
  (status (raffleAt s i) = AwaitingVRF ->
   status r' = AwaitingVRF /\ vrfRequestId r' = vrfRequestId (raffleAt s i)) ->
  forall q rq, vrfRequests s' !! q = Some rq -> request_ok s' q rq.
Proof.
  intros Hq Hv Hm Hkeep q rq Hrq. rewrite Hv in Hrq.
  destruct (Hq q rq Hrq) as [Hknown Hpend]. constructor; [done|].
  intros Hf. destruct (Hpend Hf) as [Hst Hid]. unfold raffleAt in *. rewrite Hm.
  destruct (decide (i = raffleId rq)) as [Heq|Hne].
  - rewrite <- Heq in *. rewrite lookup_insert_eq. simpl.
    destruct (Hkeep Hst) as [? ?]. split; congruence.
  - rewrite lookup_insert_ne by done. done.
Qed.

Lemma Inv_raffle s t l i :
  Inv {| storage := s; token := t; log := l |} ->
  status (raffleAt s i) <> Inactive ->
  raffles s !! i = Some (raffleAt s i) /\ raffle_ok (raffleAt s i) /\
  0 < i < nextRaffleId s.
Proof.
  intros [Hr _ _ _ _] Hst. cbn [storage] in Hr. unfold raffleAt in *.
  destruct (raffles s !! i) as [r|] eqn:E; simpl in *; [|done].
  destruct (Hr i r E). done.
Qed.

Lemma raffle_ok_entered r a amount (closes : bool) :
  raffle_ok r -> status r = Active -> a ∉ hasEntered r ->
  amount = raffleAmount r -> entryCount r + 1 <= MAX_UINT256 ->
  raffle_ok ((if closes then set_status Closed else fun x => x)
               (set_totalCollected (totalCollected r + amount)
                  (set_entryCount (entryCount r + 1) (set_hasEntered a true r)))).
Proof.
  intros [Hc Hr Ho Hf Hcr Hi] Hst Ha -> Hmax.
  assert (Hopen : status r <> Finalized) by congruence.
  specialize (Ho Hopen). rewrite memberSum_size in Ho.
  destruct closes; constructor; raffle_simpl; try done; try congruence.
  all: try (rewrite size_enter by done; lia).
  all: intros _; rewrite memberSum_size; unfold raffleAmount in *; raffle_simpl;
       rewrite size_enter by done; lia.
Qed.

Lemma raffle_ok_refunded r a amount :
  raffle_ok r -> status r = Active -> a ∈ hasEntered r ->
  amount = raffleAmount r ->
  raffle_ok (set_totalCollected (totalCollected r - amount)
               (set_entryCount (entryCount r - 1) (set_hasEntered a false r))).
Proof.
  intros [Hc Hr Ho Hf Hcr Hi] Hst Ha ->.
  assert (Hopen : status r <> Finalized) by congruence.
  specialize (Ho Hopen). rewrite memberSum_size in Ho.
  pose proof (size_leave _ _ Ha) as Hsz.
  constructor; raffle_simpl; try done; try congruence; try lia.
  intros _. rewrite memberSum_size. unfold raffleAmount in *. raffle_simpl. nia.
Qed.

Lemma raffle_ok_same_ledger r r' :
  raffle_ok r ->
  hasEntered r' = hasEntered r -> entryCount r' = entryCount r ->
  raffleType r' = raffleType r -> entryCost r' = entryCost r ->
  incentiveAmount r' = incentiveAmount r ->
  status r' <> Inactive ->
  (status r' <> Finalized -> totalCollected r' = totalCollected r /\ status r <> Finalized) ->
  (status r' = Finalized -> totalCollected r' = 0) ->
  raffle_ok r'.
Proof.
  intros [Hc Hr Ho Hf Hcr Hi] Hh He Ht Hco Hin Hst Hopen Hfin.
  constructor.
  - congruence.
  - rewrite He. done.
  - intros Hn. destruct (Hopen Hn) as [-> Hn']. rewrite (Ho Hn').
    rewrite !memberSum_size. unfold raffleAmount. by rewrite Hh, Ht, Hco, Hin.
  - done.
  - done.
  - rewrite Ht, Hco, Hin. done.
Qed.

Lemma raffle_ok_no_entries r :
  raffle_ok r -> status r <> Finalized -> entryCount r = 0 -> totalCollected r = 0.
Proof.
  intros [Hc _ Ho _ _ _] Hst He. rewrite (Ho Hst), memberSum_size. lia.
Qed.

(** Closes the side conditions of [Inv_update] for a call that rewrote the
    raffle [r] stored at [i], where [HI] is the invariant before the call. *)
Ltac inv_side HI Hr :=
  first
    [ eapply requests_kept;
      [ exact (inv_requests _ HI) | reflexivity | reflexivity
      | unfold raffleAt; cbn [storage raffles]; rewrite Hr; raffle_simpl;
        cbn [from_option Datatypes.id]; intros; congruence ]
    | cbn [raffles nextRaffleId vrfRequests];
      first
        [ reflexivity
        | lia
        | unfold raffleAt; cbn [raffles]; rewrite Hr; raffle_simpl;
          cbn [from_option Datatypes.id]; lia
        | let sp := fresh "sp" in
          intros sp; pose proof (inv_no_allowance _ HI sp) as ?; cbn [token] in *;
          repeat match goal with
                 | Hle : forall h s : N, allowance _ h s <= allowance _ h s |- _ =>
                     pose proof (Hle this sp); clear Hle
                 end;
          first [congruence | lia] ]
    | idtac ].

Lemma enterRaffle_Inv env i w w' :
  Inv w -> msg_sender env <> this -> exec (enterRaffle env i) w = Ok w' -> Inv w'.
Proof.
  intros HI Hs H. unfold enterRaffle in H. destruct w as [[o a m q n p nn] t l].
  run_inv H; injection H as <-; prop_hyps.
  all: destruct (m !! i) as [r|] eqn:Hr; cbn [from_option Datatypes.id] in *; [|done].
  all: destruct (inv_raffles _ HI i r Hr) as [Hok Hi]; cbn [storage nextRaffleId] in Hi.
  all: match goal with
       | H : token_transferFrom _ _ _ _ _ = Some _ |- _ =>
           pose proof (token_transferFrom_balance _ _ _ _ _ _ this H)
             as (Hb1 & Hb2 & Hb3 & Hb4)
       end.
  all: rewrite bool_decide_eq_false_2 in Hb4 by congruence.
  all: rewrite bool_decide_eq_true_2 in Hb4 by done.
  all: eapply (Inv_update _ _ _ _ _ _ i _ HI); inv_side HI Hr.
  all: first [ apply (raffle_ok_entered r (msg_sender env) (entryCost r) true)
             | apply (raffle_ok_entered r (msg_sender env) (entryCost r) false) ];
       try done.
  all: unfold raffleAmount; by rewrite bool_decide_eq_false_2.
Qed.

Lemma joinIncentiveRaffle_Inv env i pay sig w w' :
  Inv w -> msg_sender env <> this ->
  exec (joinIncentiveRaffle env i pay sig) w = Ok w' -> Inv w'.
Proof.
  intros HI Hs H. unfold joinIncentiveRaffle in H. destruct w as [[o a m q n p nn] t l].
  run_inv H; injection H as <-; prop_hyps.
  all: destruct (m !! i) as [r|] eqn:Hr; cbn [from_option Datatypes.id] in *; [|done].
  all: destruct (inv_raffles _ HI i r Hr) as [Hok Hi]; cbn [storage nextRaffleId] in Hi.
  all: match goal with
       | H : token_transferFrom _ _ _ _ _ = Some _ |- _ =>
           pose proof (token_transferFrom_balance _ _ _ _ _ _ this H)
             as (Hb1 & Hb2 & Hb3 & Hb4)
       end.
  all: match goal with
       | H : token_transfer _ _ _ _ = Some _ |- _ =>
           pose proof (token_transfer_balance _ _ _ _ _ this H) as (Hc1 & Hc2 & Hc3)
       end.
  all: rewrite bool_decide_eq_false_2 in Hb4 by congruence.
  all: rewrite bool_decide_eq_true_2 in Hb4, Hc3 by done.
  all: eapply (Inv_update _ _ _ _ _ _ i _ HI); inv_side HI Hr.
  all: try (unfold raffleAt; cbn [raffles]; rewrite Hr; raffle_simpl;
            cbn [from_option Datatypes.id]; case_bool_decide; lia).
  all: first
         [ apply (raffle_ok_entered r (msg_sender env) (entryCost r - incentiveAmount r) true)
         | apply (raffle_ok_entered r (msg_sender env) (entryCost r - incentiveAmount r) false) ];
       try done.
  all: unfold raffleAmount; by rewrite bool_decide_eq_true_2.
Qed.

Lemma refund_Inv env i w w' :
  Inv w -> msg_sender env <> this -> exec (refund env i) w = Ok w' -> Inv w'.
Proof.
  intros HI Hs H. unfold refund in H. destruct w as [[o a m q n p nn] t l].
  run_inv H; injection H as <-; prop_hyps.
  all: destruct (m !! i) as [r|] eqn:Hr; cbn [from_option Datatypes.id] in *; [|done].
  all: destruct (inv_raffles _ HI i r Hr) as [Hok Hi]; cbn [storage nextRaffleId] in Hi.
  all: match goal with
       | H : token_transfer _ _ _ _ = Some _ |- _ =>
           pose proof (token_transfer_balance _ _ _ _ _ this H) as (Hc1 & Hc2 & Hc3)
       end.
  all: rewrite bool_decide_eq_true_2 in Hc3 by done.
  all: rewrite bool_decide_eq_false_2 in Hc3 by congruence.
  all: eapply (Inv_update _ _ _ _ _ _ i _ HI); inv_side HI Hr.
  all: apply raffle_ok_refunded; try done; unfold raffleAmount.
  all: first [by rewrite bool_decide_eq_true_2 | by rewrite bool_decide_eq_false_2].
Qed.

Lemma requests_added s s' i r' q0 :
  (forall q rq, vrfRequests s !! q = Some rq -> request_ok s q rq) ->
  vrfRequests s' = <[q0 := {| raffleId := i; fulfilled := false |}]> (vrfRequests s) ->
  raffles s' = <[i := r']> (raffles s) ->
  i <> 0 -> status (raffleAt s i) <> AwaitingVRF ->
  status r' = AwaitingVRF -> vrfRequestId r' = q0 ->
  forall q rq, vrfRequests s' !! q = Some rq -> request_ok s' q rq.
Proof.
  intros Hq Hv Hm Hi Hst Hst' Hid q rq. rewrite Hv.
  destruct (decide (q0 = q)) as [<-|Hne].
  - rewrite lookup_insert_eq. intros [= <-]. constructor; raffle_simpl; [done|].
    intros _. unfold raffleAt. rewrite Hm, lookup_insert_eq. done.
  - rewrite lookup_insert_ne by done. intros Hrq.
    destruct (Hq q rq Hrq) as [Hknown Hpend]. constructor; [done|].
    intros Hf. destruct (Hpend Hf) as [Hs Hv']. unfold raffleAt in *. rewrite Hm.
    rewrite lookup_insert_ne; [done|]. intros ->. done.
Qed.

Lemma requests_fulfilled s s' i r' q0 rq0 :
  (forall q rq, vrfRequests s !! q = Some rq -> request_ok s q rq) ->
  vrfRequests s !! q0 = Some rq0 -> raffleId rq0 = i -> fulfilled rq0 = false ->
  vrfRequests s' = <[q0 := {| raffleId := i; fulfilled := true |}]> (vrfRequests s) ->
  raffles s' = <[i := r']> (raffles s) ->
  forall q rq, vrfRequests s' !! q = Some rq -> request_ok s' q rq.
Proof.
  intros Hq H0 Hi Hf0 Hv Hm q rq. rewrite Hv.
  destruct (Hq q0 rq0 H0) as [Hknown0 Hpend0]. destruct (Hpend0 Hf0) as [_ Hid0].
  destruct (decide (q0 = q)) as [<-|Hne].
  - rewrite lookup_insert_eq. intros [= <-]. constructor; raffle_simpl; [congruence|done].
  - rewrite lookup_insert_ne by done. intros Hrq.
    destruct (Hq q rq Hrq) as [Hknown Hpend]. constructor; [done|].
    intros Hf. destruct (Hpend Hf) as [Hs Hv']. unfold raffleAt in *. rewrite Hm.
    rewrite lookup_insert_ne; [done|]. intros E. rewrite <- E in *. congruence.
Qed.

Lemma endRaffle_Inv env i sig w w' :
  Inv w -> msg_sender env <> this -> exec (endRaffle env i sig) w = Ok w' -> Inv w'.
Proof.
  intros HI Hs H. unfold endRaffle, _finalizePoolRaffle, _requestVRF in H.
  destruct w as [[o a m q n p nn] t l].
  run_inv H; injection H as <-; prop_hyps; try done.
  all: destruct (m !! i) as [r|] eqn:Hr; cbn [from_option Datatypes.id] in *; [|done].
  all: destruct (inv_raffles _ HI i r Hr) as [Hok Hi]; cbn [storage nextRaffleId] in Hi.
  all: try match goal with
       | H : token_transfer _ _ _ _ = Some _ |- _ =>
           pose proof (token_transfer_balance _ _ _ _ _ this H) as (Hc1 & Hc2 & Hc3);
           rewrite bool_decide_eq_true_2 in Hc3 by done
       end.
  all: eapply (Inv_update _ _ _ _ _ _ i _ HI); inv_side HI Hr.
  all: try (unfold raffleAt; cbn [raffles]; rewrite Hr; raffle_simpl;
            cbn [from_option Datatypes.id]; try case_bool_decide; lia).
  all: try (eapply (raffle_ok_same_ledger r); raffle_simpl; try done;
            try (intros; split; congruence)).
  all: try (intros _; apply raffle_ok_no_entries; [done|congruence|done]).
  all: eapply requests_added;
    [ exact (inv_requests _ HI) | reflexivity | reflexivity | done
    | unfold raffleAt; cbn [storage raffles]; rewrite Hr; cbn [from_option Datatypes.id];
      congruence
    | reflexivity | reflexivity ].
Qed.

Lemma fulfillRandomWords_Inv q0 words w w' :
  Inv w -> exec (fulfillRandomWords q0 words) w = Ok w' -> Inv w'.
Proof.
  intros HI H. unfold fulfillRandomWords in H.
  destruct w as [[o a m q n p nn] t l].
  step_run H.
  destruct (q !! q0) as [rq0|] eqn:Hq0; cbn [from_option Datatypes.id] in H;
    [|cbn in H; done].
  destruct words as [|word words].
  { run_inv H; try done. by injection H as <-. }
  run_inv H; try (by injection H as <-); injection H as <-; prop_hyps; try done.
  all: cbn [from_option Datatypes.id raffleId fulfilled] in *.
  all: destruct (m !! raffleId rq0) as [r|] eqn:Hr;
       cbn [from_option Datatypes.id] in *; [|done].
  all: destruct (inv_raffles _ HI _ r Hr) as [Hok Hi]; cbn [storage nextRaffleId] in Hi.
  all: try match goal with
       | H : token_transfer _ _ _ _ = Some _ |- _ =>
           pose proof (token_transfer_balance _ _ _ _ _ this H) as (Hc1 & Hc2 & Hc3);
           rewrite bool_decide_eq_true_2 in Hc3 by done
       end.
  all: eapply (Inv_update _ _ _ _ _ _ (raffleId rq0) _ HI); inv_side HI Hr.
  all: try (unfold raffleAt; cbn [raffles]; rewrite Hr; raffle_simpl;
            cbn [from_option Datatypes.id]; try case_bool_decide; lia).
  all: try (eapply (raffle_ok_same_ledger r); raffle_simpl; try done;
            try (intros; split; congruence)).
  all: eapply (requests_fulfilled _ _ _ _ q0 rq0);
    [ exact (inv_requests _ HI) | exact Hq0 | reflexivity | done
    | reflexivity | reflexivity ].
Qed.

Lemma Inv_frame w w' :
  Inv w ->
  raffles (storage w') = raffles (storage w) ->
  vrfRequests (storage w') = vrfRequests (storage w) ->
  nextRaffleId (storage w') = nextRaffleId (storage w) ->
  balanceOf (token w) this <= balanceOf (token w') this ->
  (forall spender, allowance (token w') this spender = 0) ->
  Inv w'.
Proof.
  intros [Hr Hq Hnx Hs Ha] Hm Hv Hn Hb Hal.
  constructor; try done.
  - rewrite Hm, Hn. done.
  - rewrite Hv. intros q rq Hrq. destruct (Hq q rq Hrq) as [Hk Hp].
    constructor; [done|]. unfold raffleAt in *. rewrite Hm. done.
  - rewrite Hn. done.
  - rewrite Hm. lia.
Qed.

Lemma createRaffle_Inv env ty cost inc lim dl target pool payout sig w w' :
  Inv w ->
  exec (createRaffle env ty cost inc lim dl target pool payout sig) w = Ok w' -> Inv w'.
Proof.
  intros HI H. unfold createRaffle in H. destruct w as [[o a m q n p nn] t l].
  run_inv H; injection H as <-; prop_hyps.
  all: pose proof (inv_next _ HI) as Hn; cbn [storage nextRaffleId] in Hn.
  all: destruct (m !! n) as [r|] eqn:Hr;
       [destruct (inv_raffles _ HI n r Hr) as [_ Hlt]; cbn [storage nextRaffleId] in Hlt; lia|].
  all: cbn [from_option Datatypes.id] in *.
  all: eapply (Inv_update _ _ _ _ _ _ n _ HI); inv_side HI Hr.
  all: try (eapply requests_kept;
            [ exact (inv_requests _ HI) | reflexivity | reflexivity
            | unfold raffleAt; cbn [storage raffles]; rewrite Hr; cbn; done ]).
  all: try (constructor; raffle_simpl; cbn [emptyRaffle]; raffle_simpl;
            try done; try lia;
            try (intros _; rewrite memberSum_size; raffle_simpl; rewrite size_empty; lia);
            try (intros ->; rewrite bool_decide_eq_true_2 in * by done;
                 match goal with
                 | Hc : _ && _ = false |- _ =>
                     cbn [andb] in Hc; apply orb_false_iff in Hc; destruct Hc;
                     prop_hyps; lia
                 | Hc : _ || _ = false |- _ => prop_hyps; lia
                 | _ => prop_hyps; lia
                 end)).
Qed.

Lemma owner_calls_Inv env c w w' :
  (exists a, c = UpdateAppServerSigner a) \/ c = Pause \/ c = Unpause ->
  Inv w -> exec (perform env c) w = Ok w' -> Inv w'.
Proof.
  intros Hc HI H. destruct w as [[o a m q n p nn] t l].
  destruct Hc as [[x ->]|[->| ->]]; cbn [perform] in H;
    unfold updateAppServerSigner, pause, unpause in H;
    run_inv H; injection H as <-;
    (eapply Inv_frame; [exact HI|reflexivity|reflexivity|reflexivity|reflexivity|
                        exact (inv_no_allowance _ HI)]).
Qed.

Lemma token_calls_Inv env c w w' :
  (exists to amount, c = TokenTransfer to amount) \/
  (exists from to amount, c = TokenTransferFrom from to amount) \/
  (exists spender amount, c = TokenApprove spender amount) ->
  Inv w -> msg_sender env <> this -> exec (perform env c) w = Ok w' -> Inv w'.
Proof.
  intros Hc HI Hs H. destruct w as [s t l].
  destruct Hc as [(to & amount & ->)|[(from & to & amount & ->)|(spender & amount & ->)]];
    cbn [perform] in H; run_inv H; injection H as <-.
  - match goal with
    | H : token_transfer _ _ _ _ = Some _ |- _ =>
        pose proof (token_transfer_balance _ _ _ _ _ this H) as (Hc1 & Hc2 & Hc3)
    end.
    rewrite bool_decide_eq_false_2 in Hc3 by congruence.
    eapply Inv_frame; [exact HI|reflexivity..| |]; cbn [token].
    + case_bool_decide; lia.
    + intros sp. pose proof (Hc2 this sp). pose proof (inv_no_allowance _ HI sp) as Hz.
      cbn [token] in Hz. lia.
  - match goal with
    | H : token_transferFrom _ _ _ _ _ = Some _ |- _ =>
        pose proof (token_transferFrom_balance _ _ _ _ _ _ this H)
          as (Hb1 & Hb2 & Hb3 & Hb4)
    end.
    eapply Inv_frame; [exact HI|reflexivity..| |]; cbn [token].
    + pose proof (inv_no_allowance _ HI (msg_sender env)) as Hz. cbn [token] in Hz.
      repeat case_bool_decide; subst; lia.
    + intros sp. pose proof (Hb3 this sp). pose proof (inv_no_allowance _ HI sp) as Hz.
      cbn [token] in Hz. lia.
  - eapply Inv_frame; [exact HI|reflexivity..| |]; cbn [token].
    + unfold token_approve, balanceOf. cbn [balances]. lia.
    + intros sp. unfold token_approve, allowance. cbn [allowances].
      rewrite lookup_insert_ne by congruence.
      exact (inv_no_allowance _ HI sp).
Qed.

Lemma Inv_step env c w w' :
  Inv w -> msg_sender env <> this -> exec (perform env c) w = Ok w' -> Inv w'.
Proof.
  intros HI Hs H. destruct c.
  - exact (createRaffle_Inv _ _ _ _ _ _ _ _ _ _ _ _ HI H).
  - exact (enterRaffle_Inv _ _ _ _ HI Hs H).
  - exact (joinIncentiveRaffle_Inv _ _ _ _ _ _ HI Hs H).
  - exact (refund_Inv _ _ _ _ HI Hs H).
  - exact (endRaffle_Inv _ _ _ _ _ HI Hs H).
  - exact (fulfillRandomWords_Inv _ _ _ _ HI H).
  - eapply owner_calls_Inv; [|exact HI|exact H]. eauto.
  - eapply owner_calls_Inv; [|exact HI|exact H]. eauto.
  - eapply owner_calls_Inv; [|exact HI|exact H]. eauto.
  - eapply token_calls_Inv; [|exact HI|exact Hs|exact H]. eauto 10.
  - eapply token_calls_Inv; [|exact HI|exact Hs|exact H]. eauto 10.
  - eapply token_calls_Inv; [|exact HI|exact Hs|exact H]. eauto 10.
Qed.

Lemma Inv_deploy env _paymentToken _appServerSigner _vrfCoordinator s t :
  constructor env _paymentToken _appServerSigner _vrfCoordinator = Ok s ->
  (forall spender, allowance t this spender = 0) ->
  Inv {| storage := s; token := t; log := [] |}.
Proof.
  unfold constructor. intros H Hal.
  repeat match type of H with
         | context [if ?c then _ else _] => destruct c; try discriminate H
         end.
  injection H as <-. constructor; cbn [storage token raffles vrfRequests nextRaffleId].
  - intros i r. rewrite lookup_empty. done.
  - intros q rq. rewrite lookup_empty. done.
  - lia.
  - rewrite sumCollected_empty. lia.
  - done.
Qed.

Lemma reachable_Inv w : reachable w -> Inv w.
Proof.
  induction 1 as [env pt sg vc s t Hc Hal | w env c w' _ IH Hs Hx].
  - eapply Inv_deploy; eauto.
  - eapply Inv_step; eauto.
Qed.

Lemma reachable_after env c w :
  reachable w -> msg_sender env <> this -> reachable (after (perform env c) w).
Proof.
  intros Hw Hs. unfold after. destruct (exec (perform env c) w) as [w'|e] eqn:E; [|done].
  eapply reachable_step; eauto.
Qed.

Lemma reachable_run_all script w :
  reachable w -> Forall (fun ec => msg_sender ec.1 <> this) script ->
  reachable (run_all script w).
Proof.
  intros Hw Hs. revert w Hw. induction Hs as [|[env c] script Hne _ IH]; intros w Hw.
  - exact Hw.
  - cbn. apply IH. apply reachable_after; done.
Qed.

Lemma Inv_ledger_ok w : Inv w -> ledger_ok w.
Proof.
  intros HI. split.
  - intros i r Hr. destruct (inv_raffles _ HI i r Hr) as [[] _]. done.
  - exact (inv_solvent _ HI).
Qed.

Lemma totalCollected_le_sum m i r :
  m !! i = Some r -> totalCollected r <= sumCollected m.
Proof.
  intros H. rewrite <- (insert_id m i r H), <- insert_delete_eq.
  rewrite sumCollected_insert_fresh by apply lookup_delete_eq. lia.
Qed.

(** The same symbolic execution on the goal; [tac] discards the branches
    whose guards contradict the hypotheses. *)
Ltac run_goal tac :=
  repeat (step_goal;
    match goal with
    | |- context [if ?c then _ else _] =>
        destruct c eqn:?; try (exfalso; prop_hyps; tac)
    | |- context [match ?x with Some _ => _ | None => _ end] =>
        destruct x eqn:?; try (exfalso; prop_hyps; tac)
    | |- context [match ?x with Recovered _ => _ | Malformed _ => _ end] =>
        destruct x eqn:?; try (exfalso; prop_hyps; tac)
    end);
  step_goal.

(** * The claims *)

(** C1 (as amended).  In every world reachable from a deployment, every
    raffle that is not [Finalized] has [totalCollected] equal to the sum over
    its current members of their raffle-portion contribution, every
    [Finalized] raffle has [totalCollected = 0] (its members keep their
    [hasEntered] flag), and the contract's token balance is at least the sum
    of [totalCollected] over all raffles; every transaction preserves this. *)
Theorem ledger_invariant w :
  reachable w ->
  ledger_ok w /\
  forall env c w',
    msg_sender env <> this -> exec (perform env c) w = Ok w' -> ledger_ok w'.
Proof.
  intros Hw. split.
  - apply Inv_ledger_ok, reachable_Inv, Hw.
  - intros env c w' Hs Hx. apply Inv_ledger_ok. eapply Inv_step; [|exact Hs|exact Hx].
    apply reachable_Inv, Hw.
Qed.

(** C10 (as amended).  For every valid raffle id a [refund] called by an
    address that is not currently a member reverts, with [AlreadyEntered],
    the error that also rejects a double entry, while the contract is not
    paused, and with [ContractPaused] while it is paused; it leaves the
    world unchanged: no state is written and no token is moved. *)
Theorem refund_not_member env i w :
  0 < i < nextRaffleId (storage w) ->
  msg_sender env ∉ hasEntered (raffleAt (storage w) i) ->
  exec (refund env i) w
  = Revert (if paused (storage w) then ContractPaused else AlreadyEntered) /\
  after (refund env i) w = w.
Proof.
  intros Hi Hm. destruct w as [[o a m q n p nn] t l].
  cbn [storage paused nextRaffleId] in *. unfold raffleAt in Hm. cbn [raffles] in Hm.
  assert (E : exec (refund env i) {| storage := {| owner := o; appServerSigner := a;
              raffles := m; vrfRequests := q; nextRaffleId := n; paused := p;
              nonces := nn |}; token := t; log := l |}
              = Revert (if p then ContractPaused else AlreadyEntered)).
  { unfold refund. destruct p; [reflexivity|].
    run_goal ltac:(first [congruence | lia | done]). reflexivity. }
  split; [exact E|]. unfold after. rewrite E. reflexivity.
Qed.

Ltac bool_cases H :=
  repeat match type of H with
  | context [bool_decide ?P] =>
      destruct (decide P);
      [ rewrite (bool_decide_eq_true_2 P) in H by done
      | rewrite (bool_decide_eq_false_2 P) in H by done ]
  | context [?a <=? ?b] => destruct (N.leb_spec a b)
  | context [isPool ?r] => destruct (isPool r) eqn:?
  end;
  cbn [andb orb] in H.

Ltac closes_cases :=
  split; [done|]; split;
  (let Hx := fresh "Hx" in
   intros Hx;
   first [ done
         | exfalso; destruct Hx as [[? ?]|[? ?]]; first [congruence | lia | done]
         | exfalso; apply Hx; first [left; split; [done|lia] | right; split; [done|lia]] ]).

Lemma enterRaffle_auto_close env i w w' :
  exec (enterRaffle env i) w = Ok w' ->
  status (raffleAt (storage w) i) = Active /\
  (closes (raffleAt (storage w') i) -> status (raffleAt (storage w') i) = Closed) /\
  (~ closes (raffleAt (storage w') i) -> status (raffleAt (storage w') i) = Active).
Proof.
  intros H. unfold enterRaffle in H. destruct w as [[o a m q n p nn] t l].
  run_inv H; injection H as <-; prop_hyps.
  all: unfold raffleAt, closes; cbn [storage raffles]; rewrite lookup_insert_eq;
       cbn [from_option Datatypes.id]; raffle_simpl.
  all: match goal with Hc : (if _ then _ else _) = _ |- _ => bool_cases Hc end.
  all: closes_cases.
Qed.

Lemma joinIncentiveRaffle_auto_close env i pay sig w w' :
  exec (joinIncentiveRaffle env i pay sig) w = Ok w' ->
  status (raffleAt (storage w) i) = Active /\
  (closes (raffleAt (storage w') i) -> status (raffleAt (storage w') i) = Closed) /\
  (~ closes (raffleAt (storage w') i) -> status (raffleAt (storage w') i) = Active).
Proof.
  intros H. unfold joinIncentiveRaffle in H. destruct w as [[o a m q n p nn] t l].
  run_inv H; injection H as <-; prop_hyps.
  all: unfold raffleAt, closes; cbn [storage raffles]; rewrite lookup_insert_eq;
       cbn [from_option Datatypes.id]; raffle_simpl.
  all: closes_cases.
Qed.

(** C9.  After every successful entry, through [enterRaffle] or
    [joinIncentiveRaffle], the raffle, which was [Active], is [Closed]
    exactly when it is DonationBased with [entryCount >= entryLimit] or a
    pool raffle with [totalCollected >= targetAmount] (both read after the
    entry); otherwise it is still [Active]. *)
Theorem entry_auto_close env c i w w' :
  (c = EnterRaffle i \/ exists pay sig, c = JoinIncentiveRaffle i pay sig) ->
  exec (perform env c) w = Ok w' ->
  status (raffleAt (storage w) i) = Active /\
  (closes (raffleAt (storage w') i) -> status (raffleAt (storage w') i) = Closed) /\
  (~ closes (raffleAt (storage w') i) -> status (raffleAt (storage w') i) = Active).
Proof.
  intros [->|(pay & sig & ->)] H; cbn [perform] in H.
  - eapply enterRaffle_auto_close; eauto.
  - eapply joinIncentiveRaffle_auto_close; eauto.
Qed.

(** C3.  For every request id and random words, delivering the same
    fulfillment callback twice leaves the world that delivering it once
    leaves, and after a delivery that succeeded the second one returns
    without error and without any change of state. *)
Theorem fulfill_idempotent q words w :
  after (fulfillRandomWords q words) (after (fulfillRandomWords q words) w)
  = after (fulfillRandomWords q words) w /\
  forall w', exec (fulfillRandomWords q words) w = Ok w' ->
             exec (fulfillRandomWords q words) w' = Ok w'.
Proof.
  assert (Hsecond : forall w', exec (fulfillRandomWords q words) w = Ok w' ->
                               exec (fulfillRandomWords q words) w' = Ok w').
  { intros w' H. unfold fulfillRandomWords in H. destruct w as [[o a m vr n p nn] t l].
    destruct words as [|word rest]; run_inv H; try done; injection H as <-.
    all: unfold fulfillRandomWords;
         run_goal ltac:(first [congruence | lia | done]); reflexivity. }
  split; [|exact Hsecond].
  unfold after at 2 3. destruct (exec (fulfillRandomWords q words) w) as [w'|e] eqn:E.
  - unfold after. rewrite (Hsecond w' eq_refl). reflexivity.
  - unfold after. rewrite E. reflexivity.
Qed.

(** C8.  In a reachable world, for a raffle in [AwaitingVRF] with
    [entryCount > 0], the first fulfillment callback of its request succeeds
    and sets [winnerIndex = (randomValue mod entryCount) + 1], where
    [randomValue] is the first random word. *)
Theorem fulfill_winnerIndex q word rest w :
  reachable w ->
  fulfilled (requestAt (storage w) q) = false ->
  status (raffleAt (storage w) (raffleId (requestAt (storage w) q))) = AwaitingVRF ->
  0 < entryCount (raffleAt (storage w) (raffleId (requestAt (storage w) q))) ->
  exists w',
    exec (fulfillRandomWords q (word :: rest)) w = Ok w' /\
    winnerIndex (raffleAt (storage w') (raffleId (requestAt (storage w) q)))
    = word mod entryCount (raffleAt (storage w) (raffleId (requestAt (storage w) q))) + 1.
Proof.
  intros Hw Hf Hst Hec. pose proof (reachable_Inv _ Hw) as HI.
  destruct w as [[o a m vr n p nn] t l]. cbn [storage] in *.
  destruct (Inv_raffle _ _ _ _ HI ltac:(rewrite Hst; done)) as (Hr & Hok & Hi).
  pose proof (totalCollected_le_sum _ _ _ Hr) as Hle.
  pose proof (inv_solvent _ HI) as Hsol. cbn [storage token] in Hsol.
  match type of Hok with
  | raffle_ok ?R =>
      destruct (token_transfer_enough t this (payoutAddress R) (totalCollected R)
                  ltac:(etrans; [exact Hle|exact Hsol])) as [t' Ht']
  end.
  pose proof (N.mod_lt word _ (N.neq_sym _ _ (N.lt_neq _ _ Hec))) as Hmod.
  pose proof (ok_count_range _ Hok) as Hmax.
  clear Hr Hle Hsol Hok HI Hw.
  unfold raffleAt, requestAt in *. cbn [raffles vrfRequests] in *.
  unfold fulfillRandomWords.
  run_goal ltac:(first [congruence | lia | done]).
  all: eexists; (split; [reflexivity|]).
  all: unfold raffleAt; cbn [storage raffles]; rewrite lookup_insert_eq; reflexivity.
Qed.

Lemma movements_app l l' : movements (l ++ l') = movements l ++ movements l'.
Proof.
  induction l as [|e l IH]; [done|]. destruct e; cbn [app movements]; by rewrite ?IH.
Qed.

Lemma transfers_seen_app l l' :
  transfers_seen (l ++ l') = transfers_seen l ++ transfers_seen l'.
Proof.
  induction l as [|e l IH]; [done|]. destruct e; cbn [app transfers_seen]; by rewrite ?IH.
Qed.

Ltac log_simpl :=
  cbn [log]; rewrite ?movements_app, ?transfers_seen_app; cbn [movements transfers_seen];
  rewrite ?app_nil_r, <- ?app_assoc; cbn [app].

Lemma joinIncentiveRaffle_split env i pay sig w w' :
  exec (joinIncentiveRaffle env i pay sig) w = Ok w' ->
  let r := raffleAt (storage w) i in
  raffleType r = IncentiveBased /\
  incentiveAmount r <= entryCost r /\
  totalCollected (raffleAt (storage w') i)
    = totalCollected r + (entryCost r - incentiveAmount r) /\
  movements (log w')
    = movements (log w) ++ [Pull (msg_sender env) (entryCost r); Push pay (incentiveAmount r)] /\
  (msg_sender env <> this -> msg_sender env <> pay -> pay <> this ->
   balanceOf (token w') (msg_sender env) + entryCost r = balanceOf (token w) (msg_sender env) /\
   balanceOf (token w') pay = balanceOf (token w) pay + incentiveAmount r /\
   balanceOf (token w') this = balanceOf (token w) this + (entryCost r - incentiveAmount r)).
Proof.
  intros H. unfold joinIncentiveRaffle in H. destruct w as [[o a m q n p nn] t l].
  run_inv H; injection H as <-; prop_hyps.
  all: unfold raffleAt; cbn [storage raffles token]; rewrite lookup_insert_eq;
       cbn [from_option Datatypes.id]; raffle_simpl.
  all: repeat split; try done; try (log_simpl; reflexivity).
  all: match goal with
       | H1 : token_transferFrom _ _ ?u _ _ = Some _,
         H2 : token_transfer _ _ ?v _ = Some _ |- context [balanceOf _ ?x] =>
           pose proof (token_transferFrom_balance _ _ _ _ _ _ x H1) as (_ & _ & _ & Hb);
           pose proof (token_transfer_balance _ _ _ _ _ x H2) as (_ & _ & Hc)
       end.
  all: repeat case_bool_decide; try congruence; lia.
Qed.

Lemma refund_incentive env i w w' :
  exec (refund env i) w = Ok w' ->
  let r := raffleAt (storage w) i in
  raffleType r = IncentiveBased ->
  incentiveAmount r <= entryCost r /\
  totalCollected (raffleAt (storage w') i) + (entryCost r - incentiveAmount r)
    = totalCollected r /\
  movements (log w')
    = movements (log w) ++ [Push (msg_sender env) (entryCost r - incentiveAmount r)] /\
  (msg_sender env <> this ->
   balanceOf (token w') (msg_sender env)
   = balanceOf (token w) (msg_sender env) + (entryCost r - incentiveAmount r)).
Proof.
  intros H. unfold refund in H. destruct w as [[o a m q n p nn] t l].
  run_inv H; injection H as <-; prop_hyps.
  all: unfold raffleAt; cbn [storage raffles token]; rewrite lookup_insert_eq;
       cbn [from_option Datatypes.id]; raffle_simpl.
  all: intros Hty; try congruence.
  all: repeat split; try done; try lia; try (log_simpl; reflexivity).
  all: intros Hs.
  all: match goal with
       | H2 : token_transfer _ _ _ _ = Some _ |- context [balanceOf _ ?x] =>
           pose proof (token_transfer_balance _ _ _ _ _ x H2) as (_ & _ & Hc)
       end.
  all: repeat case_bool_decide; try congruence; lia.
Qed.

Ltac settled_now :=
  unfold settled, raffleAt; cbn [storage raffles]; rewrite ?lookup_insert_eq;
  cbn [from_option Datatypes.id]; raffle_simpl.

Ltac seen_now :=
  eexists; split;
  [ cbn [log]; rewrite <- ?app_assoc, transfers_seen_app; reflexivity
  | cbn [app transfers_seen] ].

Ltac status_kept Hfin :=
  injection_ok;
  unfold raffleAt in *; cbn [storage raffles] in *;
  first
    [ exact Hfin
    | match goal with
      | |- context [<[?j := _]> _ !! ?i] =>
          destruct (decide (j = i)) as [?|?];
          [ exfalso; subst; prop_hyps; congruence
          | rewrite lookup_insert_ne by done; exact Hfin ]
      end ]
with injection_ok :=
  match goal with
  | H : Ok _ = Ok _ |- _ => injection H as <-
  end.

Lemma perform_status_kept env c w w' i :
  Inv w -> exec (perform env c) w = Ok w' ->
  status (raffleAt (storage w) i) = Finalized ->
  status (raffleAt (storage w') i) = Finalized.
Proof.
  intros HI H Hfin. destruct w as [[o a m vr n p nn] t l].
  destruct c; cbn [perform] in H.
  - unfold createRaffle in H. run_inv H.
    all: destruct (m !! n) as [r|] eqn:Hr;
      [destruct (inv_raffles _ HI n r Hr) as [_ Hlt]; cbn [storage nextRaffleId] in Hlt; lia|].
    all: injection H as <-; unfold raffleAt in *; cbn [storage raffles] in *.
    all: destruct (decide (n = i)) as [->|Hne];
      [rewrite Hr in Hfin; done|rewrite lookup_insert_ne by done; exact Hfin].
  - unfold enterRaffle in H. run_inv H; status_kept Hfin.
  - unfold joinIncentiveRaffle in H. run_inv H; status_kept Hfin.
  - unfold refund in H. run_inv H; status_kept Hfin.
  - unfold endRaffle, _finalizePoolRaffle, _requestVRF in H.
    run_inv H; try done; status_kept Hfin.
  - unfold fulfillRandomWords in H.
    destruct _randomWords; run_inv H; try done; status_kept Hfin.
  - unfold updateAppServerSigner in H. run_inv H; status_kept Hfin.
  - unfold pause in H. run_inv H; status_kept Hfin.
  - unfold unpause in H. run_inv H; status_kept Hfin.
  - run_inv H; status_kept Hfin.
  - run_inv H; status_kept Hfin.
  - run_inv H; status_kept Hfin.
Qed.

(** C2 (as amended).  For a raffle that is [Finalized] in a reachable
    world: [endRaffle] reverts, with [RaffleNotActive] unless the contract
    is paused; a fulfillment callback whose request correlates to the raffle
    does not fail but returns without changing anything, its request being
    already fulfilled; and no transaction changes the raffle's status:
    finalization is permanent. *)
Theorem finalized_is_final w i :
  reachable w ->
  status (raffleAt (storage w) i) = Finalized ->
  (forall env sig, exists e,
     exec (endRaffle env i sig) w = Revert e /\
     (paused (storage w) = false -> e = RaffleNotActive)) /\
  (forall q words,
     raffleId (requestAt (storage w) q) = i ->
     exec (fulfillRandomWords q words) w = Ok w) /\
  (forall env c w',
     exec (perform env c) w = Ok w' -> status (raffleAt (storage w') i) = Finalized).
Proof.
  intros Hw Hfin. pose proof (reachable_Inv _ Hw) as HI.
  destruct w as [[o a m vr n p nn] t l]. cbn [storage] in Hfin.
  destruct (Inv_raffle _ _ _ i HI ltac:(rewrite Hfin; done)) as (Hr & Hok & Hi).
  cbn [storage nextRaffleId paused] in *.
  split; [|split].
  - intros env sig. unfold raffleAt in Hfin. cbn [raffles] in Hfin.
    unfold endRaffle.
    run_goal ltac:(first [congruence | lia | done]).
    all: eexists; split; [reflexivity|congruence].
  - intros q words Hq. unfold requestAt in Hq. cbn [vrfRequests] in Hq.
    destruct (vr !! q) as [rq|] eqn:Hrq; cbn [from_option Datatypes.id] in Hq;
      [|cbn in Hq; lia].
    destruct (inv_requests _ HI q rq Hrq) as [Hknown Hpend].
    assert (Hful : fulfilled rq = true).
    { destruct (fulfilled rq); [done|]. destruct (Hpend eq_refl) as [Hst _].
      cbn [storage] in Hst. rewrite Hq in Hst. congruence. }
    unfold fulfillRandomWords. step_goal. rewrite Hrq. cbn [from_option Datatypes.id].
    rewrite Hful. destruct (N.eqb_spec (raffleId rq) 0) as [E|E]; [lia|].
    reflexivity.
  - intros env c w' H. eapply perform_status_kept; eauto.
Qed.

Lemma Inv_member s t l i a :
  Inv {| storage := s; token := t; log := l |} ->
  a ∈ hasEntered (raffleAt s i) ->
  raffles s !! i = Some (raffleAt s i) /\ raffle_ok (raffleAt s i) /\
  0 < i < nextRaffleId s.
Proof.
  intros HI Ha. apply (Inv_raffle s t l i HI). intros E.
  unfold raffleAt in *. destruct (raffles s !! i) as [r|] eqn:Hr; simpl in *.
  - destruct (inv_raffles _ HI i r Hr) as [[] _]. done.
  - set_solver.
Qed.

Lemma token_transfer_short t from to amount :
  token_transfer t from to amount = None -> balanceOf t from < amount.
Proof.
  unfold token_transfer. destruct (balanceOf t from <? amount) eqn:E; [|done].
  intros _. by apply N.ltb_lt.
Qed.

(** What the ledger invariant gives a member who asks for a refund. *)
Lemma refund_funded s t l i a :
  Inv {| storage := s; token := t; log := l |} ->
  a ∈ hasEntered (raffleAt s i) ->
  status (raffleAt s i) = Active ->
  let r := raffleAt s i in
  1 <= entryCount r /\
  (raffleType r = IncentiveBased ->
   incentiveAmount r < entryCost r /\
   entryCost r - incentiveAmount r <= totalCollected r /\
   entryCost r - incentiveAmount r <= balanceOf t this) /\
  (raffleType r <> IncentiveBased ->
   entryCost r <= totalCollected r /\ entryCost r <= balanceOf t this).
Proof.
  intros HI Ha Hst r. destruct (Inv_member s t l i a HI Ha) as (Hr & Hok & _).
  fold r in Hr, Hok, Ha, Hst.
  pose proof (totalCollected_le_sum _ _ _ Hr) as Hle.
  pose proof (inv_solvent _ HI) as Hsol. cbn [storage token] in Hsol.
  destruct Hok as [Hc Hrange Ho _ _ Hinc].
  assert (Hopen : status r <> Finalized) by congruence.
  specialize (Ho Hopen). rewrite memberSum_size in Ho.
  assert (Hsz : size (hasEntered r) <> 0%nat).
  { intros E. apply size_empty_inv in E. set_solver. }
  unfold raffleAmount in Ho. split; [lia|]. split.
  - intros Hty. rewrite bool_decide_eq_true_2 in Ho by done.
    specialize (Hinc Hty). split; [done|]. split; nia.
  - intros Hty. rewrite bool_decide_eq_false_2 in Ho by done. split; nia.
Qed.

Ltac use_facts :=
  repeat match goal with
         | H : ?P -> _, H' : ?P |- _ => specialize (H H')
         | H : token_transfer _ _ _ _ = None |- _ => apply token_transfer_short in H
         | H : _ /\ _ |- _ => destruct H
         end.

Ltac prune := first [congruence | lia | done | use_facts; first [congruence | lia]].

Lemma refund_succeeds env i w :
  reachable w -> paused (storage w) = false ->
  msg_sender env ∈ hasEntered (raffleAt (storage w) i) ->
  status (raffleAt (storage w) i) = Active ->
  (isPool (raffleAt (storage w) i) = false ->
   deadline (raffleAt (storage w) i) + REFUND_GRACE_PERIOD <= MAX_UINT256 /\
   deadline (raffleAt (storage w) i) + REFUND_GRACE_PERIOD < block_timestamp env) ->
  exists w', exec (refund env i) w = Ok w'.
Proof.
  intros Hw Hp Hm Hst Htime. pose proof (reachable_Inv _ Hw) as HI.
  destruct w as [[o a m vr n p nn] t l]. cbn [storage paused] in *.
  destruct (Inv_member _ _ _ _ _ HI Hm) as (_ & _ & Hi).
  destruct (refund_funded _ _ _ _ _ HI Hm Hst) as (Hcount & Hinc & Hstd).
  clear HI Hw. unfold raffleAt in *. cbn [raffles nextRaffleId] in *.
  unfold refund. run_goal prune.
  all: eexists; reflexivity.
Qed.

Lemma refund_ok_inv env i w w' :
  exec (refund env i) w = Ok w' ->
  status (raffleAt (storage w) i) = Active /\
  (isPool (raffleAt (storage w) i) = false ->
   deadline (raffleAt (storage w) i) + REFUND_GRACE_PERIOD <= MAX_UINT256 /\
   deadline (raffleAt (storage w) i) + REFUND_GRACE_PERIOD < block_timestamp env).
Proof.
  intros H. unfold refund in H. destruct w as [[o a m vr n p nn] t l].
  unfold raffleAt. cbn [storage raffles].
  run_inv H; prop_hyps; (split; [done|]); intros Hpool; first [congruence | lia].
Qed.

(** C5 (as amended).  In a reachable world, while the contract is not
    paused, for a participant who has entered a raffle: on a pool raffle
    [refund] succeeds whenever the raffle is [Active], at any time; on a
    traditional raffle it succeeds exactly when the raffle is [Active],
    [deadline + 3600] fits in a [uint256] and [now > deadline + 3600]; on an
    [Active] traditional raffle it reverts with [GracePeriodNotPassed] at any
    time at or before [deadline + 3600] when that sum fits in a [uint256],
    and with an arithmetic panic, at every time, when the sum overflows. *)
Theorem refund_eligibility env i w :
  reachable w ->
  paused (storage w) = false ->
  msg_sender env ∈ hasEntered (raffleAt (storage w) i) ->
  REFUND_GRACE_PERIOD = 3600 /\
  (isPool (raffleAt (storage w) i) = true ->
   status (raffleAt (storage w) i) = Active ->
   exists w', exec (refund env i) w = Ok w') /\
  (isPool (raffleAt (storage w) i) = false ->
   ((exists w', exec (refund env i) w = Ok w') <->
    status (raffleAt (storage w) i) = Active /\
    deadline (raffleAt (storage w) i) + REFUND_GRACE_PERIOD <= MAX_UINT256 /\
    deadline (raffleAt (storage w) i) + REFUND_GRACE_PERIOD < block_timestamp env) /\
   (status (raffleAt (storage w) i) = Active ->
    deadline (raffleAt (storage w) i) + REFUND_GRACE_PERIOD <= MAX_UINT256 ->
    block_timestamp env <= deadline (raffleAt (storage w) i) + REFUND_GRACE_PERIOD ->
    exec (refund env i) w = Revert GracePeriodNotPassed) /\
   (status (raffleAt (storage w) i) = Active ->
    MAX_UINT256 < deadline (raffleAt (storage w) i) + REFUND_GRACE_PERIOD ->
    exec (refund env i) w = Revert (Panic PANIC_ARITHMETIC))).
Proof.
  intros Hw Hp Hm. split; [reflexivity|]. split; [|intros Hpool; split; [|split]].
  - intros Hpool Hst. apply refund_succeeds; try done. congruence.
  - split.
    + intros [w' H]. destruct (refund_ok_inv _ _ _ _ H) as [Hst Ht]. tauto.
    + intros (Hst & Hfit & Hlate). apply refund_succeeds; done.
  - intros Hst Hfit Hearly. pose proof (reachable_Inv _ Hw) as HI.
    destruct w as [[o a m vr n p nn] t l]. cbn [storage paused] in *.
    destruct (Inv_member _ _ _ _ _ HI Hm) as (_ & _ & Hi).
    clear HI Hw. unfold raffleAt in *. cbn [raffles nextRaffleId] in *.
    unfold refund. run_goal prune. reflexivity.
  - intros Hst Hover. pose proof (reachable_Inv _ Hw) as HI.
    destruct w as [[o a m vr n p nn] t l]. cbn [storage paused] in *.
    destruct (Inv_member _ _ _ _ _ HI Hm) as (_ & _ & Hi).
    clear HI Hw. unfold raffleAt in *. cbn [raffles nextRaffleId] in *.
    unfold refund. run_goal prune. reflexivity.
Qed.

(** Sets the stage for [endRaffle] on a live raffle of a reachable world:
    the raffle id is valid and the contract holds the raffle's balance. *)
Lemma endRaffle_stage s t l i :
  reachable {| storage := s; token := t; log := l |} ->
  status (raffleAt s i) = Active \/ status (raffleAt s i) = Closed ->
  0 < i < nextRaffleId s /\ totalCollected (raffleAt s i) <= balanceOf t this.
Proof.
  intros Hw Hst. pose proof (reachable_Inv _ Hw) as HI.
  destruct (Inv_raffle s t l i HI ltac:(destruct Hst as [E|E]; rewrite E; done))
    as (Hr & _ & Hi).
  split; [done|].
  pose proof (totalCollected_le_sum _ _ _ Hr) as Hle.
  pose proof (inv_solvent _ HI) as Hsol. cbn [storage token] in Hsol. lia.
Qed.

Ltac endRaffle_goal :=
  unfold raffleAt, nonceOf, may_end, coordinator_ready in *;
  cbn [storage raffles nextRaffleId paused appServerSigner nonces] in *;
  unfold endRaffle, _finalizePoolRaffle, _requestVRF;
  run_goal prune.

Ltac end_ok Hst :=
  let Hc := fresh "Hc" in
  let x := fresh "x" in
  let E := fresh "Hst" in
  intros [Hc|[Hc|[x Hc]]]; destruct Hst as [E|E]; endRaffle_goal; eexists; reflexivity.

Ltac end_fails Hst :=
  let E := fresh "Hst" in
  destruct Hst as [E|E]; endRaffle_goal; reflexivity.

Ltac end_as_app_server Hst := intros ? ?; end_ok Hst.

Ltac end_as_organizer Hst :=
  intros ? ?; split; [|split];
  [ intros ?; end_fails Hst
  | intros ? ? ?; end_fails Hst
  | intros ? ? ?; end_ok Hst ].

Ltac end_as_both Hst :=
  intros ? ? ?; split; [intros ?; end_fails Hst | intros ?; end_ok Hst].

Ltac end_as_other Hst := intros ? ?; end_fails Hst.

(** C6 (as amended).  In a reachable world, while the contract is not
    paused, for a raffle that is [Active] or [Closed]: a caller that is the
    App Server and not the raffle's organizer ends it with no timing gate and
    no signature; the organizer, when not the App Server, fails with
    [CannotEndPoolEarly] (pool) or [DeadlineNotPassed] (traditional) unless
    the timing gate holds, then unless the signature over the organizer's
    current nonce recovers the App Server: with [InvalidSignature] when it
    recovers another signer and with the ECDSA library's own error when it
    is malformed, and succeeds otherwise; a caller that is both the App
    Server and the organizer has no timing gate but still needs that
    signature; any other caller fails with [InvalidSigner].  Success
    presumes that the VRF coordinator answers when it is asked and, for a
    signed call, that the nonce can be incremented. *)
Theorem endRaffle_authorization env i sig w :
  reachable w ->
  paused (storage w) = false ->
  status (raffleAt (storage w) i) = Active \/ status (raffleAt (storage w) i) = Closed ->
  let s := storage w in
  let r := raffleAt s i in
  let caller := msg_sender env in
  let outcome := recover (EndRaffleMsg i caller (nonceOf s caller)) sig in
  let valid := outcome = Recovered (appServerSigner s) in
  (caller = appServerSigner s -> caller <> organizer r -> coordinator_ready env r ->
   exists w', exec (endRaffle env i sig) w = Ok w') /\
  (caller = organizer r -> caller <> appServerSigner s ->
   (~ may_end env r ->
    exec (endRaffle env i sig) w
    = Revert (if isPool r then CannotEndPoolEarly else DeadlineNotPassed)) /\
   (may_end env r -> nonceOf s caller < MAX_UINT256 -> ~ valid ->
    exec (endRaffle env i sig) w = Revert (rejection outcome)) /\
   (may_end env r -> nonceOf s caller < MAX_UINT256 -> valid -> coordinator_ready env r ->
    exists w', exec (endRaffle env i sig) w = Ok w')) /\
  (caller = appServerSigner s -> caller = organizer r -> nonceOf s caller < MAX_UINT256 ->
   (~ valid -> exec (endRaffle env i sig) w = Revert (rejection outcome)) /\
   (valid -> coordinator_ready env r -> exists w', exec (endRaffle env i sig) w = Ok w')) /\
  (caller <> appServerSigner s -> caller <> organizer r ->
   exec (endRaffle env i sig) w = Revert InvalidSigner).
Proof.
  intros Hw Hp Hst. destruct w as [[o a m vr n p nn] t l].
  destruct (endRaffle_stage _ _ _ _ Hw Hst) as [Hi Hbal]. clear Hw.
  cbn zeta. cbn [storage] in *.
  destruct (isPool (raffleAt _ i)) eqn:Hpool.
  all: split; [|split; [|split]].
  all: [> end_as_app_server Hst | end_as_organizer Hst | end_as_both Hst
        | end_as_other Hst
        | end_as_app_server Hst | end_as_organizer Hst | end_as_both Hst
        | end_as_other Hst ].
Qed.


(** C7.  On an IncentiveBased raffle a successful [joinIncentiveRaffle]
    credits exactly [entryCost - incentiveAmount] to [totalCollected], pulls
    the full [entryCost] from the participant and forwards exactly
    [incentiveAmount] to the incentive destination; a successful [refund]
    on such a raffle takes [entryCost - incentiveAmount] out of
    [totalCollected] and sends exactly that amount back to the participant;
    and in a reachable world, while the contract is not paused, the refund
    of a participant of an [Active] IncentiveBased raffle does succeed, on a
    traditional raffle once the grace period is over, and returns exactly
    [entryCost - incentiveAmount]. *)
Theorem incentive_split :
  (forall env i pay sig w w',
     exec (joinIncentiveRaffle env i pay sig) w = Ok w' ->
     let r := raffleAt (storage w) i in
     raffleType r = IncentiveBased /\
     incentiveAmount r <= entryCost r /\
     totalCollected (raffleAt (storage w') i)
       = totalCollected r + (entryCost r - incentiveAmount r) /\
     movements (log w')
       = movements (log w)
         ++ [Pull (msg_sender env) (entryCost r); Push pay (incentiveAmount r)] /\
     (msg_sender env <> this -> msg_sender env <> pay -> pay <> this ->
      balanceOf (token w') (msg_sender env) + entryCost r
        = balanceOf (token w) (msg_sender env) /\
      balanceOf (token w') pay = balanceOf (token w) pay + incentiveAmount r /\
      balanceOf (token w') this
        = balanceOf (token w) this + (entryCost r - incentiveAmount r))) /\
  (forall env i w w',
     exec (refund env i) w = Ok w' ->
     let r := raffleAt (storage w) i in
     raffleType r = IncentiveBased ->
     incentiveAmount r <= entryCost r /\
     totalCollected (raffleAt (storage w') i) + (entryCost r - incentiveAmount r)
       = totalCollected r /\
     movements (log w')
       = movements (log w) ++ [Push (msg_sender env) (entryCost r - incentiveAmount r)] /\
     (msg_sender env <> this ->
      balanceOf (token w') (msg_sender env)
      = balanceOf (token w) (msg_sender env) + (entryCost r - incentiveAmount r))) /\
  (forall env i w,
     reachable w ->
     paused (storage w) = false ->
     let r := raffleAt (storage w) i in
     msg_sender env ∈ hasEntered r ->
     raffleType r = IncentiveBased ->
     status r = Active ->
     (isPool r = false ->
      deadline r + REFUND_GRACE_PERIOD <= MAX_UINT256 /\
      deadline r + REFUND_GRACE_PERIOD < block_timestamp env) ->
     exists w',
       exec (refund env i) w = Ok w' /\
       totalCollected (raffleAt (storage w') i) + (entryCost r - incentiveAmount r)
         = totalCollected r /\
       movements (log w')
         = movements (log w) ++ [Push (msg_sender env) (entryCost r - incentiveAmount r)]).
Proof.
  split; [|split].
  - intros env i pay sig w w' H. exact (joinIncentiveRaffle_split env i pay sig w w' H).
  - intros env i w w' H. exact (refund_incentive env i w w' H).
  - intros env i w Hw Hp r Hm Hty Hst Htime.
    destruct (refund_succeeds env i w Hw Hp Hm Hst Htime) as [w' H].
    destruct (refund_incentive env i w w' H Hty) as (_ & Htc & Hmv & _).
    exists w'. split; [exact H|]. split; [exact Htc|exact Hmv].
Qed.

(** C4.  Every finalization path, [_finalizePoolRaffle] (reached from
    [endRaffle] on a pool raffle), the first fulfillment of a traditional
    raffle's request by [fulfillRandomWords], and [endRaffle] on a
    traditional raffle without entries in a reachable world, leaves the
    raffle with [totalCollected = 0] and [status = Finalized]; every
    [transfer] it makes goes to the raffle's [payoutAddress] and is made
    when the storage already shows the zero balance and [Finalized].  And in
    a reachable world each path does run to its end: [_finalizePoolRaffle]
    always succeeds; the first fulfillment, with at least one random word,
    of the request of a raffle that awaits randomness succeeds; and
    [endRaffle] called by the App Server on a pool raffle or a raffle
    without entries that is [Active] or [Closed] succeeds and leaves it
    settled. *)
Theorem finalization_settles w i :
  (forall w',
     finalization w i w' ->
     settled i (storage w') /\
     exists seen,
       transfers_seen (log w') = transfers_seen (log w) ++ seen /\
       Forall (fun ts => ts.1 = payoutAddress (raffleAt (storage w) i) /\ settled i ts.2)
              seen) /\
  (reachable w ->
   (exists w', exec (_finalizePoolRaffle i) w = Ok w') /\
   (forall q word rest,
      raffleId (requestAt (storage w) q) = i ->
      fulfilled (requestAt (storage w) q) = false ->
      status (raffleAt (storage w) i) = AwaitingVRF ->
      0 < entryCount (raffleAt (storage w) i) ->
      exists w', exec (fulfillRandomWords q (word :: rest)) w = Ok w') /\
   (forall env sig,
      paused (storage w) = false ->
      status (raffleAt (storage w) i) = Active \/ status (raffleAt (storage w) i) = Closed ->
      msg_sender env = appServerSigner (storage w) ->
      msg_sender env <> organizer (raffleAt (storage w) i) ->
      isPool (raffleAt (storage w) i) = true \/ entryCount (raffleAt (storage w) i) = 0 ->
      exists w', exec (endRaffle env i sig) w = Ok w' /\ settled i (storage w'))).
Proof.
  split.
  - intros w' [j v v' H | q words v v' Hf H | env j sig v v' Hv Hpool Hcount H].
    + unfold _finalizePoolRaffle in H. destruct v as [[o a m vr n p nn] t l].
      run_inv H; injection H as <-; (split; [by settled_now|]).
      all: seen_now;
           repeat (apply Forall_cons_2; [split; [reflexivity|cbn [snd]; by settled_now]|]);
           apply Forall_nil_2.
    + unfold fulfillRandomWords in H. destruct v as [[o a m vr n p nn] t l].
      unfold requestAt in *. cbn [storage vrfRequests] in *.
      destruct words as [|word rest]; run_inv H; try done; try congruence;
        injection H as <-; (split; [by settled_now|]).
      all: seen_now;
           repeat (apply Forall_cons_2; [split; [reflexivity|cbn [snd]; by settled_now]|]);
           apply Forall_nil_2.
    + pose proof (reachable_Inv _ Hv) as HI.
      unfold endRaffle, _finalizePoolRaffle, _requestVRF in H.
      destruct v as [[o a m vr n p nn] t l].
      unfold raffleAt in Hpool, Hcount. cbn [storage raffles] in Hpool, Hcount.
      run_inv H; try congruence; injection H as <-; prop_hyps; try done; try congruence.
      all: destruct (m !! j) as [r|] eqn:Hr; cbn [from_option Datatypes.id] in *; [|done].
      all: destruct (inv_raffles _ HI j r Hr) as [Hok _].
      all: split;
        [ settled_now; split; [|done];
          apply raffle_ok_no_entries; [done|congruence|done]
        | seen_now; apply Forall_nil_2 ].
  - intros Hw. pose proof (reachable_Inv _ Hw) as HI.
    destruct w as [[o a m vr n p nn] t l]. cbn [storage] in *.
    assert (Hbal : totalCollected (raffleAt
                     {| owner := o; appServerSigner := a; raffles := m; vrfRequests := vr;
                        nextRaffleId := n; paused := p; nonces := nn |} i)
                   <= balanceOf t this).
    { unfold raffleAt. cbn [raffles]. destruct (m !! i) as [r|] eqn:Hr;
        cbn [from_option Datatypes.id].
      - pose proof (totalCollected_le_sum _ _ _ Hr) as Hle.
        pose proof (inv_solvent _ HI) as Hsol. cbn [storage token raffles] in Hsol. lia.
      - unfold emptyRaffle. raffle_simpl. lia. }
    split; [|split].
    + unfold raffleAt in Hbal. cbn [raffles] in Hbal.
      unfold _finalizePoolRaffle. run_goal prune. all: eexists; reflexivity.
    + intros q word rest Hq Hf Hst Hec.
      destruct (Inv_raffle _ _ _ i HI ltac:(rewrite Hst; done)) as (_ & Hok & Hi).
      cbn [nextRaffleId] in Hi.
      pose proof (N.mod_lt word _ (N.neq_sym _ _ (N.lt_neq _ _ Hec))) as Hmod.
      pose proof (ok_count_range _ Hok) as Hmax.
      clear Hok HI Hw. subst i.
      unfold raffleAt, requestAt in *. cbn [raffles vrfRequests] in *.
      unfold fulfillRandomWords.
      run_goal prune. all: eexists; reflexivity.
    + intros env sig Hp Hst Happ Horg Hpath.
      destruct (endRaffle_stage _ _ _ _ Hw Hst) as [Hi _].
      assert (Hzero : entryCount (raffleAt
                        {| owner := o; appServerSigner := a; raffles := m;
                           vrfRequests := vr; nextRaffleId := n; paused := p;
                           nonces := nn |} i) = 0 ->
                      totalCollected (raffleAt
                        {| owner := o; appServerSigner := a; raffles := m;
                           vrfRequests := vr; nextRaffleId := n; paused := p;
                           nonces := nn |} i) = 0).
      { intros Hc.
        destruct (Inv_raffle _ _ _ i HI
                    ltac:(destruct Hst as [E|E]; rewrite E; done)) as (_ & Hok & _).
        apply raffle_ok_no_entries; [done| |done].
        destruct Hst as [E|E]; rewrite E; done. }
      clear HI Hw. unfold raffleAt in *.
      cbn [storage raffles nextRaffleId paused appServerSigner] in *.
      unfold endRaffle, _finalizePoolRaffle, _requestVRF.
      destruct Hst as [Hst|Hst], Hpath as [Hpath|Hpath]; run_goal prune.
      all: eexists; (split; [reflexivity|]); settled_now; split; first [done | tauto].
Qed.


(** * Further properties *)

(** ** The shape of raffles is kept by every transaction *)

Lemma Shape_update s s' j r' :
  Shape s -> raffles s' = <[j := r']> (raffles s) ->
  (nextRaffleId s' = nextRaffleId s /\ is_Some (raffles s !! j)) \/
  (nextRaffleId s' = nextRaffleId s + 1 /\ j = nextRaffleId s /\ 0 < j) ->
  raffle_shape j r' -> Shape s'.
Proof.
  intros [Hr Hids] Hm Hn Hsh. constructor.
  - intros i r. rewrite Hm. destruct (decide (j = i)) as [<-|Hne].
    + rewrite lookup_insert_eq. by intros [= <-].
    + rewrite lookup_insert_ne by done. apply Hr.
  - intros i Hi. rewrite Hm. destruct (decide (j = i)) as [<-|Hne].
    + rewrite lookup_insert_eq. eauto.
    + rewrite lookup_insert_ne by done. apply Hids.
      destruct Hn as [[E _]|(E & Ej & _)]; rewrite E in Hi; lia.
Qed.

Lemma Shape_frame s s' :
  Shape s -> raffles s' = raffles s -> nextRaffleId s' = nextRaffleId s -> Shape s'.
Proof.
  intros [Hr Hids] Hm Hn. constructor; rewrite Hm; [done|]. rewrite Hn. done.
Qed.

Ltac shape_auto Hsh :=
  let Hid := fresh "Hid" in
  let Hcost := fresh "Hcost" in
  let Hpay := fresh "Hpay" in
  let Hdon := fresh "Hdon" in
  let Hpool := fresh "Hpool" in
  let Haw := fresh "Haw" in
  let Hwin := fresh "Hwin" in
  destruct Hsh as [Hid Hcost Hpay Hdon Hpool Haw Hwin];
  constructor; raffle_simpl; try done;
  repeat match goal with
         | |- _ /\ _ => split
         | |- _ -> _ => intro
         end;
  use_facts;
  repeat match goal with
         | Hn : ?a <> ?b -> _ |- _ =>
             let Hp := fresh "Hp" in
             assert (Hp : a <> b) by congruence; specialize (Hn Hp)
         | Hn : ?a = ?b -> _ |- _ =>
             let Hp := fresh "Hp" in
             assert (Hp : a = b) by congruence; specialize (Hn Hp)
         end;
  use_facts;
  first [congruence | lia | done | exfalso; congruence].

(** Brings a successful call that rewrote the raffle at [j] to the goal
    [raffle_shape j r'], [r] being the raffle before the call. *)
Ltac shape_stage HS j m :=
  let r := fresh "r" in
  let Hr := fresh "Hr" in
  let Hsh := fresh "Hsh" in
  destruct (m !! j) as [r|] eqn:Hr; cbn [from_option Datatypes.id] in *;
  [ pose proof (shape_raffles _ HS j r Hr) as Hsh; cbn [raffles] in Hsh;
    eapply (Shape_update _ _ j _ HS);
    [ cbn [raffles]; reflexivity
    | left; cbn [nextRaffleId raffles]; split; [reflexivity|rewrite Hr; eauto]
    | ]
  | try done; try (raffle_simpl; cbn [emptyRaffle] in *; congruence) ].

Lemma enterRaffle_Shape env i w w' :
  Shape (storage w) -> exec (enterRaffle env i) w = Ok w' -> Shape (storage w').
Proof.
  intros HS H. unfold enterRaffle in H. destruct w as [[o a m q n p nn] t l].
  cbn [storage] in *.
  run_inv H; injection H as <-; prop_hyps; cbn [storage].
  all: shape_stage HS i m.
  all: match goal with Hc : (if _ then _ else _) = _ |- _ => raffle_simpl; bool_cases Hc end.
  all: try done.
  all: shape_auto Hsh.
Qed.

Lemma joinIncentiveRaffle_Shape env i pay sig w w' :
  Shape (storage w) -> exec (joinIncentiveRaffle env i pay sig) w = Ok w' ->
  Shape (storage w').
Proof.
  intros HS H. unfold joinIncentiveRaffle in H. destruct w as [[o a m q n p nn] t l].
  cbn [storage] in *.
  run_inv H; injection H as <-; prop_hyps; cbn [storage].
  all: shape_stage HS i m.
  all: raffle_simpl; try done.
  all: shape_auto Hsh.
Qed.

Lemma refund_Shape env i w w' :
  Shape (storage w) -> exec (refund env i) w = Ok w' -> Shape (storage w').
Proof.
  intros HS H. unfold refund in H. destruct w as [[o a m q n p nn] t l].
  cbn [storage] in *.
  run_inv H; injection H as <-; prop_hyps; cbn [storage].
  all: shape_stage HS i m.
  all: try (exfalso; set_solver).
  all: shape_auto Hsh.
Qed.

Lemma endRaffle_Shape env i sig w w' :
  Shape (storage w) -> exec (endRaffle env i sig) w = Ok w' -> Shape (storage w').
Proof.
  intros HS H. unfold endRaffle, _finalizePoolRaffle, _requestVRF in H.
  destruct w as [[o a m q n p nn] t l]. cbn [storage] in *.
  run_inv H; injection H as <-; prop_hyps; try done; cbn [storage].
  all: shape_stage HS i m.
  all: shape_auto Hsh.
Qed.

Lemma fulfillRandomWords_Shape q0 words w w' :
  Shape (storage w) -> exec (fulfillRandomWords q0 words) w = Ok w' ->
  Shape (storage w').
Proof.
  intros HS H. unfold fulfillRandomWords in H.
  destruct w as [[o a m q n p nn] t l]. cbn [storage] in *.
  destruct words as [|word rest].
  { run_inv H; try done. by injection H as <-. }
  run_inv H; try (by injection H as <-); injection H as <-; prop_hyps; try done;
    cbn [storage].
  all: match goal with
       | |- context [<[?j := _]> ?mm] => shape_stage HS j mm
       end.
  all: match goal with
       | Hz : entryCount ?r <> 0 |- _ =>
           pose proof (N.mod_lt word _ Hz);
           generalize dependent (word mod entryCount r); intros
       end.
  all: shape_auto Hsh.
Qed.

Lemma createRaffle_Shape env ty cost inc lim dl target pool payout sig w w' :
  Inv w -> Shape (storage w) ->
  exec (createRaffle env ty cost inc lim dl target pool payout sig) w = Ok w' ->
  Shape (storage w').
Proof.
  intros HI HS H. unfold createRaffle in H. destruct w as [[o a m q n p nn] t l].
  cbn [storage] in *.
  run_inv H; injection H as <-; cbn [storage].
  all: pose proof (inv_next _ HI) as Hn; cbn [storage nextRaffleId] in Hn.
  all: destruct (m !! n) as [r|] eqn:Hr;
       [destruct (inv_raffles _ HI n r Hr) as [_ Hlt]; cbn [storage nextRaffleId] in Hlt; lia|].
  all: cbn [from_option Datatypes.id] in *.
  all: eapply (Shape_update _ _ n _ HS).
  all: try (cbn [raffles]; reflexivity).
  all: try (right; cbn [nextRaffleId]; split; [reflexivity|split; [reflexivity|exact Hn]]).
  all: constructor; unfold emptyRaffle; raffle_simpl;
       repeat match goal with
              | |- _ /\ _ => split
              | |- _ -> _ => intro
              end;
       subst; rewrite ?bool_decide_eq_true_2 in * by done; cbn [andb orb] in *;
       prop_hyps; first [congruence | lia | done].
Qed.

Lemma Shape_step env c w w' :
  Inv w -> Shape (storage w) -> exec (perform env c) w = Ok w' -> Shape (storage w').
Proof.
  intros HI HS H. destruct c; cbn [perform] in H.
  - exact (createRaffle_Shape _ _ _ _ _ _ _ _ _ _ _ _ HI HS H).
  - exact (enterRaffle_Shape _ _ _ _ HS H).
  - exact (joinIncentiveRaffle_Shape _ _ _ _ _ _ HS H).
  - exact (refund_Shape _ _ _ _ HS H).
  - exact (endRaffle_Shape _ _ _ _ _ HS H).
  - exact (fulfillRandomWords_Shape _ _ _ _ HS H).
  - destruct w as [s t l]. unfold updateAppServerSigner in H. run_inv H. injection H as <-.
    eapply Shape_frame; [exact HS|reflexivity|reflexivity].
  - destruct w as [s t l]. unfold pause in H. run_inv H. injection H as <-.
    eapply Shape_frame; [exact HS|reflexivity|reflexivity].
  - destruct w as [s t l]. unfold unpause in H. run_inv H. injection H as <-.
    eapply Shape_frame; [exact HS|reflexivity|reflexivity].
  - destruct w as [s t l]. run_inv H. injection H as <-. exact HS.
  - destruct w as [s t l]. run_inv H. injection H as <-. exact HS.
  - destruct w as [s t l]. run_inv H. injection H as <-. exact HS.
Qed.

Lemma reachable_Shape w : reachable w -> Shape (storage w).
Proof.
  induction 1 as [env pt sg vc s t Hc Hal | w env c w' Hw IH Hs Hx].
  - unfold constructor in Hc.
    repeat match type of Hc with
           | context [if ?c then _ else _] => destruct c; try discriminate Hc
           end.
    injection Hc as <-. constructor; cbn [storage raffles nextRaffleId].
    + intros i r. rewrite lookup_empty. done.
    + intros i Hi. lia.
  - eapply Shape_step; [exact (reachable_Inv _ Hw)|exact IH|exact Hx].
Qed.

(** ** What one transaction may do to a raffle *)

Ltac touch_leaf :=
  match goal with
  | H : Ok _ = Ok _ |- _ => injection H as <-
  end;
  cbn [storage raffles];
  first
    [ left; reflexivity
    | right; eexists _, _; split; [reflexivity|];
      unfold touched, same_terms, raffleAt; cbn [storage raffles];
      prop_hyps;
      repeat match goal with
             | |- _ /\ _ => split
             | |- _ -> _ => intro
             end;
      raffle_simpl;
      first [ reflexivity | congruence | done | solve [eauto]
            | repeat match goal with
                     | Hs : status ?r = _ |- _ => rewrite Hs in *
                     end;
              cbn [status_rank]; first [lia | congruence | done] ] ].

Lemma perform_touch env c w w' :
  Inv w -> exec (perform env c) w = Ok w' ->
  raffles (storage w') = raffles (storage w) \/
  exists j r',
    raffles (storage w') = <[j := r']> (raffles (storage w)) /\
    touched c (raffleAt (storage w) j) r'.
Proof.
  intros HI H. destruct w as [[o a m vr n p nn] t l].
  destruct c; cbn [perform] in H.
  - unfold createRaffle in H. run_inv H.
    all: destruct (m !! n) as [r|] eqn:Hr;
      [destruct (inv_raffles _ HI n r Hr) as [_ Hlt]; cbn [storage nextRaffleId] in Hlt; lia|].
    all: injection H as <-; cbn [storage raffles]; right; eexists _, _;
         (split; [reflexivity|]).
    all: unfold touched, raffleAt; cbn [storage raffles]; rewrite Hr;
         cbn [from_option Datatypes.id]; unfold emptyRaffle; raffle_simpl;
         cbn [status_rank]; repeat split; try done; lia.
  - unfold enterRaffle in H. run_inv H; touch_leaf.
  - unfold joinIncentiveRaffle in H. run_inv H; touch_leaf.
  - unfold refund in H. run_inv H; touch_leaf.
  - unfold endRaffle, _finalizePoolRaffle, _requestVRF in H.
    run_inv H; try done; touch_leaf.
  - unfold fulfillRandomWords in H.
    destruct _randomWords; run_inv H; try done; touch_leaf.
  - unfold updateAppServerSigner in H. run_inv H; touch_leaf.
  - unfold pause in H. run_inv H; touch_leaf.
  - unfold unpause in H. run_inv H; touch_leaf.
  - run_inv H; touch_leaf.
  - run_inv H; touch_leaf.
  - run_inv H; touch_leaf.
Qed.


Lemma same_terms_refl r : same_terms r r.
Proof. by repeat split. Qed.

Lemma raffleAt_touch env c w w' i :
  Inv w -> exec (perform env c) w = Ok w' ->
  raffleAt (storage w') i = raffleAt (storage w) i \/
  touched c (raffleAt (storage w) i) (raffleAt (storage w') i).
Proof.
  intros HI H. destruct (perform_touch env c w w' HI H) as [E|(j & r' & E & Ht)].
  - left. unfold raffleAt. by rewrite E.
  - unfold raffleAt in *. rewrite E. destruct (decide (j = i)) as [<-|Hne].
    + right. rewrite lookup_insert_eq. exact Ht.
    + left. by rewrite lookup_insert_ne.
Qed.

(** X1.  The lifecycle only moves forward: no transaction takes a raffle of
    a reachable world to an earlier status, in the order Inactive, Active,
    Closed, AwaitingVRF, Finalized. *)
Theorem status_never_regresses env c w w' i :
  reachable w -> exec (perform env c) w = Ok w' ->
  status_rank (status (raffleAt (storage w) i))
  <= status_rank (status (raffleAt (storage w') i)).
Proof.
  intros Hw H.
  destruct (raffleAt_touch env c w w' i (reachable_Inv _ Hw) H) as [->|(_ & Hr & _)];
    [lia|exact Hr].
Qed.

(** X2.  A raffle awaiting randomness is frozen: in a reachable world every
    successful transaction other than the coordinator's callback leaves the
    whole record of a raffle in [AwaitingVRF] as it is: no entry, no
    refund, no ending. *)
Theorem awaiting_is_frozen env c w w' i :
  reachable w ->
  status (raffleAt (storage w) i) = AwaitingVRF ->
  (forall q words, c <> FulfillRandomWords q words) ->
  exec (perform env c) w = Ok w' ->
  raffleAt (storage w') i = raffleAt (storage w) i.
Proof.
  intros Hw Hst Hc H.
  destruct (raffleAt_touch env c w w' i (reachable_Inv _ Hw) H)
    as [E|(_ & _ & Hcb & _)]; [exact E|].
  destruct (Hcb Hst) as (q & words & ->). by destruct (Hc q words).
Qed.

(** X3.  The terms of a raffle are immutable: in a reachable world no
    transaction changes the id, organizer, type, entry cost, incentive
    amount, entry limit, deadline, target amount, mode or payout address of
    a raffle that exists. *)
Theorem terms_are_immutable env c w w' i :
  reachable w ->
  status (raffleAt (storage w) i) <> Inactive ->
  exec (perform env c) w = Ok w' ->
  same_terms (raffleAt (storage w) i) (raffleAt (storage w') i).
Proof.
  intros Hw Hst H.
  destruct (raffleAt_touch env c w w' i (reachable_Inv _ Hw) H) as [->|(Hsame & _)].
  - apply same_terms_refl.
  - exact (Hsame Hst).
Qed.

(** X4.  A DonationBased raffle never holds more entries than its entry
    limit: in a reachable world [entryCount <= entryLimit], strictly below
    while the raffle is [Active], and the limit is positive. *)
Theorem donation_entry_limit w i r :
  reachable w ->
  raffles (storage w) !! i = Some r ->
  raffleType r = DonationBased ->
  0 < entryLimit r /\ entryCount r <= entryLimit r /\
  (status r = Active -> entryCount r < entryLimit r).
Proof.
  intros Hw Hr Hty.
  exact (sh_donation _ _ (shape_raffles _ (reachable_Shape _ Hw) i r Hr) Hty).
Qed.

(** X5.  [canEndPoolEarly] never answers [true] in a reachable world: a pool
    raffle that reaches its target is closed by the entry that reaches it,
    so no raffle is at once a pool, [Active] and at its target.  The view
    reverts with [InvalidRaffleId] on an id never created and answers
    [false] on every other. *)
Theorem canEndPoolEarly_never w i :
  reachable w ->
  canEndPoolEarly (storage w) i
  = if (i =? 0) || (nextRaffleId (storage w) <=? i)
    then Revert InvalidRaffleId else Ok false.
Proof.
  intros Hw. unfold canEndPoolEarly.
  destruct ((i =? 0) || (nextRaffleId (storage w) <=? i)) eqn:Hv; [done|].
  f_equal. unfold raffleAt.
  destruct (raffles (storage w) !! i) as [r|] eqn:Hr; cbn [from_option Datatypes.id].
  - destruct (isPool r) eqn:Hp; [|done].
    destruct (sh_pool _ _ (shape_raffles _ (reachable_Shape _ Hw) i r Hr) Hp)
      as (_ & _ & Hlt).
    cbn [andb]. case_bool_decide as Hst; [|done]. cbn [andb].
    apply N.leb_gt. exact (Hlt Hst).
  - done.
Qed.

(** X6.  The winner index is an ordinal of an entry: in a reachable world
    [winnerIndex <= entryCount], and it is non-zero exactly for a
    [Finalized] traditional raffle with entries; pool raffles, raffles still
    running and raffles finalized without entries have [winnerIndex = 0]. *)
Theorem winnerIndex_range w i r :
  reachable w ->
  raffles (storage w) !! i = Some r ->
  winnerIndex r <= entryCount r /\
  (winnerIndex r <> 0 <->
   status r = Finalized /\ isPool r = false /\ 0 < entryCount r).
Proof.
  intros Hw Hr.
  destruct (sh_winner _ _ (shape_raffles _ (reachable_Shape _ Hw) i r Hr))
    as (Hle & Hopen & Hpool & Hwon).
  split; [exact Hle|]. split.
  - intros Hnz. repeat split.
    + destruct (decide (status r = Finalized)) as [E|E]; [done|].
      by destruct (Hnz (Hopen E)).
    + destruct (isPool r); [|done]. by destruct (Hnz (Hpool eq_refl)).
    + lia.
  - intros (Hst & Hp & Hec). specialize (Hwon Hst Hp Hec). lia.
Qed.

(** X7.  The valid raffle ids are exactly the ids of created raffles: in a
    reachable world [0 < i < nextRaffleId] holds exactly when raffle [i] is
    stored, and then it is not [Inactive], carries [id = i], a positive
    entry cost and a non-zero payout address; [getRaffleInfo] reverts with
    [InvalidRaffleId] on every other id. *)
Theorem valid_ids_are_created w i :
  reachable w ->
  (0 < i < nextRaffleId (storage w) <-> is_Some (raffles (storage w) !! i)) /\
  (0 < i < nextRaffleId (storage w) ->
   status (raffleAt (storage w) i) <> Inactive /\
   id (raffleAt (storage w) i) = i /\
   0 < entryCost (raffleAt (storage w) i) /\
   payoutAddress (raffleAt (storage w) i) <> 0 /\
   exists info, getRaffleInfo (storage w) i = Ok info) /\
  (~ 0 < i < nextRaffleId (storage w) ->
   status (raffleAt (storage w) i) = Inactive /\
   getRaffleInfo (storage w) i = Revert InvalidRaffleId).
Proof.
  intros Hw. pose proof (reachable_Inv _ Hw) as HI.
  pose proof (reachable_Shape _ Hw) as HS.
  assert (Hiff : 0 < i < nextRaffleId (storage w)
                 <-> is_Some (raffles (storage w) !! i)).
  { split; [apply (shape_ids _ HS)|]. intros [r Hr].
    by destruct (inv_raffles _ HI i r Hr). }
  split; [exact Hiff|]. split.
  - intros Hi. destruct (proj1 Hiff Hi) as [r Hr].
    destruct (inv_raffles _ HI i r Hr) as [Hok _].
    pose proof (shape_raffles _ HS i r Hr) as Hsh.
    unfold getRaffleInfo, raffleAt. rewrite Hr. cbn [from_option Datatypes.id].
    repeat split; [exact (ok_created _ Hok)|exact (sh_id _ _ Hsh)|exact (sh_cost _ _ Hsh)
                  |exact (sh_payout _ _ Hsh)|].
    destruct (N.eqb_spec i 0) as [E|E]; [lia|].
    destruct (N.leb_spec (nextRaffleId (storage w)) i) as [E'|E']; [lia|].
    cbn [orb]. eauto.
  - intros Hi. unfold getRaffleInfo, raffleAt.
    destruct (raffles (storage w) !! i) as [r|] eqn:Hr.
    + destruct Hi. apply Hiff. eauto.
    + split; [done|].
      destruct (N.eqb_spec i 0) as [E|E]; [done|].
      destruct (N.leb_spec (nextRaffleId (storage w)) i) as [E'|E']; [done|lia].
Qed.

(** ** Raffle creation *)

(** X8.  While the contract is not paused, [createRaffle] reverts with
    [ZeroAddress] for a zero payout address; otherwise with [InvalidAmount]
    when a parameter check fails (zero entry cost, deadline not in the
    future, IncentiveBased with a zero incentive or one not below the entry
    cost, DonationBased with a zero entry limit, pool with a zero target);
    otherwise, unless the signature over the caller, the parameters and the
    caller's current nonce recovers the App Server, with [InvalidSignature]
    when it recovers another signer and with the ECDSA library's own error
    when it is malformed; and it succeeds in every other case, short of a
    counter overflow. *)
Theorem createRaffle_checks env ty cost inc lim dl target pool payout sig w :
  paused (storage w) = false ->
  let s := storage w in
  let call := createRaffle env ty cost inc lim dl target pool payout sig in
  let outcome :=
    recover (CreateRaffleMsg (msg_sender env) (raffleType_code ty) cost inc lim dl
               target pool payout (nonceOf s (msg_sender env))) sig in
  (payout = 0 -> exec call w = Revert ZeroAddress) /\
  (payout <> 0 ->
   ~ valid_terms (block_timestamp env) ty cost inc lim dl target pool ->
   exec call w = Revert InvalidAmount) /\
  (payout <> 0 ->
   valid_terms (block_timestamp env) ty cost inc lim dl target pool ->
   nonceOf s (msg_sender env) < MAX_UINT256 ->
   (outcome <> Recovered (appServerSigner s) ->
    exec call w = Revert (rejection outcome)) /\
   (outcome = Recovered (appServerSigner s) -> nextRaffleId s < MAX_UINT256 ->
    exists w', exec call w = Ok w')).
Proof.
  intros Hp. destruct w as [[o a m vr n p nn] t l].
  cbn zeta. unfold nonceOf. cbn [storage paused nonces appServerSigner nextRaffleId] in *.
  split; [|split].
  - intros Hz. unfold createRaffle. run_goal ltac:(first [congruence | lia | done]).
    reflexivity.
  - intros Hz Hbad. unfold createRaffle.
    run_goal ltac:(first [congruence | lia | done]); try reflexivity.
    all: exfalso; apply Hbad; unfold valid_terms; prop_hyps;
         repeat match goal with
                | |- _ /\ _ => split
                | |- _ -> _ => intro
                end;
         subst; first [congruence | lia | done].
  - intros Hz (Hc & Hd & Hi & Hl & Ht) Hn. split.
    + intros Hsig. unfold createRaffle.
      run_goal ltac:(first [congruence | lia | done | use_facts; first [congruence | lia]]);
        reflexivity.
    + intros Hsig Hnext. unfold createRaffle.
      run_goal ltac:(first [congruence | lia | done | use_facts; first [congruence | lia]]).
      eexists. reflexivity.
Qed.

(** X9.  In a reachable world a successful [createRaffle] takes the next
    sequential id, which no raffle holds yet, stores there an [Active]
    raffle with the given terms, the caller as organizer, no entries and a
    zero balance, raises the raffle count by one and the caller's nonce by
    one, and moves no token; the call was made with valid terms and a
    signature of the App Server. *)
Theorem createRaffle_creates env ty cost inc lim dl target pool payout sig w w' :
  reachable w ->
  exec (createRaffle env ty cost inc lim dl target pool payout sig) w = Ok w' ->
  let s := storage w in
  let n := nextRaffleId s in
  raffles s !! n = None /\
  raffles (storage w')
  = <[n := fresh_raffle n (msg_sender env) ty cost inc lim dl target pool payout]>
      (raffles s) /\
  nextRaffleId (storage w') = n + 1 /\
  getRaffleCount (storage w') = getRaffleCount s + 1 /\
  nonceOf (storage w') (msg_sender env) = nonceOf s (msg_sender env) + 1 /\
  token w' = token w /\
  movements (log w') = movements (log w) /\
  valid_terms (block_timestamp env) ty cost inc lim dl target pool /\
  payout <> 0 /\
  recover (CreateRaffleMsg (msg_sender env) (raffleType_code ty) cost inc lim dl
             target pool payout (nonceOf s (msg_sender env))) sig
  = Recovered (appServerSigner s).
Proof.
  intros Hw H. pose proof (reachable_Inv _ Hw) as HI.
  unfold createRaffle in H. destruct w as [[o a m q n p nn] t l].
  cbn zeta. unfold nonceOf, getRaffleCount.
  run_inv H; injection H as <-.
  all: pose proof (inv_next _ HI) as Hn; cbn [storage nextRaffleId] in Hn.
  all: destruct (m !! n) as [r|] eqn:Hr;
       [destruct (inv_raffles _ HI n r Hr) as [_ Hlt]; cbn [storage nextRaffleId] in Hlt; lia|].
  all: cbn [storage raffles nextRaffleId nonces token appServerSigner
            from_option Datatypes.id].
  all: rewrite ?lookup_insert_eq; cbn [from_option Datatypes.id].
  all: unfold valid_terms; prop_hyps.
  all: repeat match goal with
              | |- _ /\ _ => split
              | |- _ -> _ => intro
              end;
       subst; try (log_simpl; reflexivity);
       first [reflexivity | congruence | lia | done].
Qed.

(** ** Entries *)

Ltac entered_now :=
  match goal with
  | Hx : _ ∉ _ |- _ =>
      apply Hx; apply elem_of_union_l, elem_of_singleton_2; reflexivity
  end.

(** X10.  No double entry: while the contract is not paused, on an [Active]
    raffle a member's [enterRaffle] and [joinIncentiveRaffle] both revert
    with [AlreadyEntered], whatever the raffle's type; so right after a
    successful entry a second one by the same account fails, with
    [AlreadyEntered] or, when the first entry closed the raffle, with
    [RaffleNotActive]. *)
Theorem no_double_entry env i w :
  paused (storage w) = false ->
  0 < i < nextRaffleId (storage w) ->
  (status (raffleAt (storage w) i) = Active ->
   msg_sender env ∈ hasEntered (raffleAt (storage w) i) ->
   exec (enterRaffle env i) w = Revert AlreadyEntered /\
   forall pay sig, pay <> 0 ->
     exec (joinIncentiveRaffle env i pay sig) w = Revert AlreadyEntered) /\
  (forall w', exec (enterRaffle env i) w = Ok w' ->
     forall env', msg_sender env' = msg_sender env ->
       exec (enterRaffle env' i) w' = Revert AlreadyEntered \/
       exec (enterRaffle env' i) w' = Revert RaffleNotActive).
Proof.
  intros Hp Hi. destruct w as [[o a m vr n p nn] t l].
  cbn [storage paused nextRaffleId] in *. unfold raffleAt. cbn [raffles].
  split.
  - intros Hst Hm. split; [|intros pay sig Hpay].
    + unfold enterRaffle. run_goal ltac:(first [congruence | lia | done]). reflexivity.
    + unfold joinIncentiveRaffle.
      run_goal ltac:(first [congruence | lia | done]). reflexivity.
  - intros w' H env' Hs. unfold enterRaffle in H. run_inv H; injection H as <-.
    all: prop_hyps.
    + right. unfold enterRaffle.
      run_goal ltac:(first [congruence | lia | done]); try reflexivity.
      all: exfalso; prop_hyps; raffle_simpl; congruence.
    + left. unfold enterRaffle. rewrite Hs.
      run_goal ltac:(first [congruence | lia | done | raffle_simpl; entered_now]);
        try reflexivity.
      all: exfalso; prop_hyps; raffle_simpl; first [congruence | entered_now].
Qed.

(** X11.  Refund conservation: when a member's [refund] succeeds and the
    same account then enters again with [enterRaffle], the raffle's
    [totalCollected], [entryCount] and membership set are exactly what they
    were before the refund. *)
Theorem refund_then_enter env env' i w w1 w2 :
  msg_sender env' = msg_sender env ->
  exec (refund env i) w = Ok w1 ->
  exec (enterRaffle env' i) w1 = Ok w2 ->
  totalCollected (raffleAt (storage w2) i) = totalCollected (raffleAt (storage w) i) /\
  entryCount (raffleAt (storage w2) i) = entryCount (raffleAt (storage w) i) /\
  hasEntered (raffleAt (storage w2) i) = hasEntered (raffleAt (storage w) i).
Proof.
  intros Hs H1 H2. unfold refund in H1. destruct w as [[o a m vr n p nn] t l].
  run_inv H1; injection H1 as <-.
  all: unfold enterRaffle in H2; run_inv H2; injection H2 as <-.
  all: prop_hyps; raffle_simpl; try congruence.
  all: unfold raffleAt; cbn [storage raffles]; rewrite ?lookup_insert_eq;
       cbn [from_option Datatypes.id]; raffle_simpl.
  all: rewrite Hs.
  all: split; [lia|split; [lia|]].
  all: symmetry; apply union_difference_singleton_L; done.
Qed.


(** ** Nonces, pause and ownership *)

(** X12.  Nonce discipline: a successful transaction raises the sender's
    nonce by exactly one when it verifies a signature ([createRaffle],
    [joinIncentiveRaffle], and [endRaffle] called by the raffle's organizer)
    and changes no nonce otherwise; the nonce of every other account is
    never touched. *)
Theorem nonce_discipline env c w w' a :
  exec (perform env c) w = Ok w' ->
  nonceOf (storage w') a
  = nonceOf (storage w) a
    + (if signed_call (storage w) env c && (a =? msg_sender env) then 1 else 0).
Proof.
  intros H. destruct w as [[o sg m vr n p nn] t l].
  unfold nonceOf, signed_call, raffleAt. cbn [storage nonces raffles].
  destruct c; cbn [perform] in H;
    unfold createRaffle, joinIncentiveRaffle, refund, enterRaffle, endRaffle,
           _finalizePoolRaffle, _requestVRF, fulfillRandomWords,
           updateAppServerSigner, pause, unpause in H;
    try (destruct _randomWords);
    run_inv H; try done; injection H as <-; cbn [storage nonces andb].
  all: try lia.
  all: destruct (N.eqb_spec a (msg_sender env)) as [->|Hne];
       rewrite ?lookup_insert_eq, ?lookup_insert_ne by done;
       cbn [from_option Datatypes.id]; lia.
Qed.

(** X13.  The pause switch: while the contract is paused, [createRaffle],
    [enterRaffle], [joinIncentiveRaffle], [refund] and [endRaffle] all
    revert with [ContractPaused], whatever their arguments and caller. *)
Theorem paused_blocks env w :
  paused (storage w) = true ->
  (forall ty cost inc lim dl target pool payout sig,
     exec (createRaffle env ty cost inc lim dl target pool payout sig) w
     = Revert ContractPaused) /\
  (forall i, exec (enterRaffle env i) w = Revert ContractPaused) /\
  (forall i pay sig, exec (joinIncentiveRaffle env i pay sig) w = Revert ContractPaused) /\
  (forall i, exec (refund env i) w = Revert ContractPaused) /\
  (forall i sig, exec (endRaffle env i sig) w = Revert ContractPaused).
Proof.
  intros Hp. destruct w as [[o sg m vr n p nn] t l]. cbn [storage paused] in Hp. subst p.
  repeat split; intros; reflexivity.
Qed.

(** X14.  Owner functions: a caller that is not the owner is rejected with
    [OnlyOwner] by [pause], [unpause] and [updateAppServerSigner]; the owner
    sets the pause flag with [pause], clears it with [unpause], and replaces
    the App Server signer by any non-zero address ([ZeroAddress] for zero);
    each of them changes nothing else in storage and moves no token. *)
Theorem owner_functions env w :
  (msg_sender env <> owner (storage w) ->
   exec (pause env) w = Revert OnlyOwner /\
   exec (unpause env) w = Revert OnlyOwner /\
   forall a, exec (updateAppServerSigner env a) w = Revert OnlyOwner) /\
  (msg_sender env = owner (storage w) ->
   (exists w', exec (pause env) w = Ok w' /\
               storage w' = with_paused true (storage w) /\ token w' = token w) /\
   (exists w', exec (unpause env) w = Ok w' /\
               storage w' = with_paused false (storage w) /\ token w' = token w) /\
   exec (updateAppServerSigner env 0) w = Revert ZeroAddress /\
   (forall a, a <> 0 ->
      exists w', exec (updateAppServerSigner env a) w = Ok w' /\
                 storage w' = with_appServerSigner a (storage w) /\
                 token w' = token w)).
Proof.
  destruct w as [[o sg m vr n p nn] t l]. cbn [storage owner].
  split.
  - intros Hs. repeat split; intros;
      unfold pause, unpause, updateAppServerSigner;
      run_goal ltac:(first [congruence | lia | done]); reflexivity.
  - intros Hs. repeat split; intros;
      unfold pause, unpause, updateAppServerSigner;
      run_goal ltac:(first [congruence | lia | done]);
      first [reflexivity | eexists; repeat split; reflexivity].
Qed.

(** X15.  A rotation of the App Server signer takes effect at once: after
    [updateAppServerSigner] to a different address, a [createRaffle] that
    passes every parameter check fails with [InvalidSignature] when its
    signature recovers the old signer, and is accepted when it recovers the
    new one. *)
Theorem signer_rotation env a w w' env' ty cost inc lim dl target pool payout sig :
  exec (updateAppServerSigner env a) w = Ok w' ->
  a <> appServerSigner (storage w) ->
  paused (storage w) = false ->
  payout <> 0 ->
  valid_terms (block_timestamp env') ty cost inc lim dl target pool ->
  nonceOf (storage w) (msg_sender env') < MAX_UINT256 ->
  nextRaffleId (storage w) < MAX_UINT256 ->
  let signer :=
    recover (CreateRaffleMsg (msg_sender env') (raffleType_code ty) cost inc lim dl
               target pool payout (nonceOf (storage w) (msg_sender env'))) sig in
  (signer = Recovered (appServerSigner (storage w)) ->
   exec (createRaffle env' ty cost inc lim dl target pool payout sig) w'
   = Revert InvalidSignature) /\
  (signer = Recovered a ->
   exists w'', exec (createRaffle env' ty cost inc lim dl target pool payout sig) w'
               = Ok w'').
Proof.
  intros H Hne Hp Hz (Hc & Hd & Hi & Hl & Ht) Hn Hnext.
  destruct w as [[o sg m vr n p nn] t l].
  unfold updateAppServerSigner in H. run_inv H. injection H as <-.
  cbn zeta. unfold nonceOf in *.
  cbn [storage paused nonces appServerSigner nextRaffleId] in *.
  split; intros E; unfold createRaffle;
    run_goal ltac:(first [congruence | lia | done | use_facts; first [congruence | lia]]);
    first [reflexivity | eexists; reflexivity].
Qed.


(** ** Errors of entries and refunds *)

(** X16.  Ids never issued and raffles no longer open: while the contract is
    not paused, [enterRaffle], [joinIncentiveRaffle] (even with a zero
    payment address), [refund] and [endRaffle] revert with
    [InvalidRaffleId] for the id 0 and for every id from [nextRaffleId] on;
    on a valid id whose raffle is [Closed], [AwaitingVRF] or [Finalized],
    [enterRaffle] and [joinIncentiveRaffle] revert with [RaffleNotActive],
    and a member's [refund] reverts with [InvalidRefundConditions] on a pool
    raffle and with [RaffleNotActive] on a traditional one. *)
Theorem closed_raffle_errors env i w :
  paused (storage w) = false ->
  (~ 0 < i < nextRaffleId (storage w) ->
   exec (enterRaffle env i) w = Revert InvalidRaffleId /\
   (forall pay sig, exec (joinIncentiveRaffle env i pay sig) w = Revert InvalidRaffleId) /\
   exec (refund env i) w = Revert InvalidRaffleId /\
   (forall sig, exec (endRaffle env i sig) w = Revert InvalidRaffleId)) /\
  (0 < i < nextRaffleId (storage w) ->
   status (raffleAt (storage w) i) <> Active ->
   exec (enterRaffle env i) w = Revert RaffleNotActive /\
   (forall pay sig, pay <> 0 ->
      exec (joinIncentiveRaffle env i pay sig) w = Revert RaffleNotActive) /\
   (msg_sender env ∈ hasEntered (raffleAt (storage w) i) ->
    exec (refund env i) w
    = Revert (if isPool (raffleAt (storage w) i)
              then InvalidRefundConditions else RaffleNotActive))).
Proof.
  intros Hp. destruct w as [[o sg m vr n p nn] t l].
  cbn [storage paused nextRaffleId] in *. unfold raffleAt in *. cbn [raffles] in *.
  split.
  - intros Hi. repeat split; intros.
    + unfold enterRaffle. run_goal ltac:(first [congruence | lia | done]). reflexivity.
    + unfold joinIncentiveRaffle.
      run_goal ltac:(first [congruence | lia | done]). reflexivity.
    + unfold refund. run_goal ltac:(first [congruence | lia | done]). reflexivity.
    + unfold endRaffle. run_goal ltac:(first [congruence | lia | done]). reflexivity.
  - intros Hi Hst. split; [|split].
    + unfold enterRaffle. run_goal ltac:(first [congruence | lia | done]). reflexivity.
    + intros pay sig Hpay. unfold joinIncentiveRaffle.
      run_goal ltac:(first [congruence | lia | done]). reflexivity.
    + intros Hm. unfold refund.
      run_goal ltac:(first [congruence | lia | done]); reflexivity.
Qed.

Lemma token_transferFrom_inv t spender from to amount r :
  token_transferFrom t spender from to amount = r ->
  match r with
  | Some t' =>
      amount <= allowance t from spender /\ amount <= balanceOf t from /\
      allowance t' from spender + amount = allowance t from spender
  | None => allowance t from spender < amount \/ balanceOf t from < amount
  end.
Proof.
  unfold token_transferFrom.
  destruct (allowance t from spender <? amount) eqn:E1;
    [intros <-; left; by apply N.ltb_lt|].
  destruct (balanceOf t from <? amount) eqn:E2;
    [intros <-; right; by apply N.ltb_lt|].
  cbn [orb]. intros <-. apply N.ltb_ge in E1, E2. repeat split; try done.
  unfold allowance at 1. cbn [allowances]. rewrite lookup_insert_eq.
  cbn [from_option Datatypes.id]. lia.
Qed.

Ltac pull_facts :=
  repeat match goal with
         | Hx : token_transferFrom _ _ _ _ _ = _ |- _ =>
             apply token_transferFrom_inv in Hx; cbn beta iota in Hx
         | Hx : _ /\ _ |- _ => destruct Hx
         | Hx : _ \/ _ |- _ => destruct Hx
         end.

(** X17.  What [enterRaffle] needs from the token: while the contract is not
    paused, for a non-member on an [Active] raffle that is not
    IncentiveBased, the entry reverts with [InsufficientAllowance] when the
    caller's allowance to the contract is below the entry cost, with
    [TransferFailed] when the allowance suffices and the balance does not,
    and otherwise succeeds, short of a counter overflow: it pulls exactly
    the entry cost, records the caller as a member and raises [entryCount]
    by one and [totalCollected] by the entry cost. *)
Theorem enterRaffle_funding env i w :
  paused (storage w) = false ->
  0 < i < nextRaffleId (storage w) ->
  status (raffleAt (storage w) i) = Active ->
  msg_sender env ∉ hasEntered (raffleAt (storage w) i) ->
  raffleType (raffleAt (storage w) i) <> IncentiveBased ->
  entryCount (raffleAt (storage w) i) < MAX_UINT256 ->
  totalCollected (raffleAt (storage w) i) + entryCost (raffleAt (storage w) i)
    <= MAX_UINT256 ->
  let r := raffleAt (storage w) i in
  let user := msg_sender env in
  (allowance (token w) user this < entryCost r ->
   exec (enterRaffle env i) w = Revert InsufficientAllowance) /\
  (entryCost r <= allowance (token w) user this ->
   balanceOf (token w) user < entryCost r ->
   exec (enterRaffle env i) w = Revert TransferFailed) /\
  (entryCost r <= allowance (token w) user this ->
   entryCost r <= balanceOf (token w) user ->
   exists w',
     exec (enterRaffle env i) w = Ok w' /\
     hasUserEntered (storage w') i user = true /\
     entryCount (raffleAt (storage w') i) = entryCount r + 1 /\
     totalCollected (raffleAt (storage w') i) = totalCollected r + entryCost r /\
     movements (log w') = movements (log w) ++ [Pull user (entryCost r)] /\
     allowance (token w') user this + entryCost r = allowance (token w) user this).
Proof.
  intros Hp Hi Hst Hm Hty Hec Htc. destruct w as [[o sg m vr n p nn] t l].
  cbn zeta. cbn [storage paused nextRaffleId token log] in *.
  unfold raffleAt in *. cbn [raffles] in *.
  split; [|split].
  - intros Hal. unfold enterRaffle.
    run_goal ltac:(first [congruence | lia | done]). reflexivity.
  - intros Hal Hbal. unfold enterRaffle.
    run_goal ltac:(first [congruence | lia | done | pull_facts; lia]). reflexivity.
  - intros Hal Hbal. unfold enterRaffle.
    run_goal ltac:(first [congruence | lia | done | pull_facts; lia]).
    all: eexists; (split; [reflexivity|]).
    all: unfold hasUserEntered, raffleAt; cbn [storage raffles token log];
         rewrite ?lookup_insert_eq; cbn [from_option Datatypes.id]; raffle_simpl.
    all: pull_facts.
    all: repeat split; try (log_simpl; reflexivity); try reflexivity; try done.
    all: apply bool_decide_eq_true_2, elem_of_union_l, elem_of_singleton_2;
         reflexivity.
Qed.


(** X18.  Each entry function takes its own raffle type: while the contract
    is not paused, for a non-member on an [Active] raffle, [enterRaffle]
    reverts with [InvalidRaffleType] on an IncentiveBased raffle and
    [joinIncentiveRaffle] on every other; [joinIncentiveRaffle] reverts with
    [ZeroAddress] for a zero payment address before it looks at the raffle,
    and on an IncentiveBased raffle, unless the signature over the raffle,
    the caller, the payment address and the caller's current nonce recovers
    the App Server, with [InvalidSignature] when it recovers another signer
    and with the ECDSA library's own error when it is malformed. *)
Theorem entry_function_by_type env i w :
  paused (storage w) = false ->
  0 < i < nextRaffleId (storage w) ->
  let s := storage w in
  let r := raffleAt s i in
  let user := msg_sender env in
  (forall sig, exec (joinIncentiveRaffle env i 0 sig) w = Revert ZeroAddress) /\
  (status r = Active -> user ∉ hasEntered r ->
   (raffleType r = IncentiveBased ->
    exec (enterRaffle env i) w = Revert InvalidRaffleType) /\
   (forall pay sig, pay <> 0 -> raffleType r <> IncentiveBased ->
      exec (joinIncentiveRaffle env i pay sig) w = Revert InvalidRaffleType) /\
   (forall pay sig, pay <> 0 -> raffleType r = IncentiveBased ->
      nonceOf s user < MAX_UINT256 ->
      recover (IncentiveEntryMsg i user pay (nonceOf s user)) sig
      <> Recovered (appServerSigner s) ->
      exec (joinIncentiveRaffle env i pay sig) w
      = Revert (rejection (recover (IncentiveEntryMsg i user pay (nonceOf s user)) sig)))).
Proof.
  intros Hp Hi. destruct w as [[o sg m vr n p nn] t l].
  cbn zeta. unfold nonceOf, raffleAt.
  cbn [storage paused nextRaffleId raffles nonces appServerSigner] in *.
  split; [|intros Hst Hm; split; [|split]].
  - intros sig. unfold joinIncentiveRaffle.
    run_goal ltac:(first [congruence | lia | done]). reflexivity.
  - intros Hty. unfold enterRaffle.
    run_goal ltac:(first [congruence | lia | done]). reflexivity.
  - intros pay sig Hpay Hty. unfold joinIncentiveRaffle.
    run_goal ltac:(first [congruence | lia | done]). reflexivity.
  - intros pay sig Hpay Hty Hn Hsig. unfold joinIncentiveRaffle.
    run_goal ltac:(first [congruence | lia | done]); reflexivity.
Qed.

(** X19.  The token movements of a transaction: every successful call of the
    contract orders exactly the movements of its row, in this order:
    [enterRaffle] pulls the entry cost from the caller;
    [joinIncentiveRaffle] pulls the entry cost and pushes the incentive
    amount to the payment address; [refund] pushes the raffle portion back
    to the caller; [endRaffle] pushes the balance of a pool raffle to its
    payout address and moves nothing for a traditional raffle; the first
    callback of a request pushes the raffle's balance to its payout address
    and a repeated one moves nothing; no transfer is ordered for an empty
    balance; every other call moves nothing. *)
Theorem transaction_movements env c w w' :
  exec (perform env c) w = Ok w' ->
  movements (log w') = movements (log w) ++ expected_movements (storage w) env c.
Proof.
  intros H. destruct w as [[o sg m vr n p nn] t l].
  unfold expected_movements, prize, raffleAmount, raffleAt, requestAt.
  cbn [storage raffles vrfRequests log].
  destruct c; cbn [perform] in H;
    unfold createRaffle, joinIncentiveRaffle, refund, enterRaffle, endRaffle,
           _finalizePoolRaffle, _requestVRF, fulfillRandomWords,
           updateAppServerSigner, pause, unpause in H;
    try (destruct _randomWords);
    run_inv H; try done; injection H as <-; cbn [log].
  all: rewrite <- ?app_assoc, ?movements_app; cbn [movements app];
       rewrite ?app_nil_r.
  all: repeat match goal with
              | Hx : ?b = _ |- context [if ?b then _ else _] => rewrite Hx
              end.
  all: try reflexivity.
Qed.

(** ** The callback and the end of a raffle *)

(** A recorded request that is still pending belongs to a traditional
    raffle that awaits randomness, has entries and holds a positive balance
    that the contract can pay. *)
Lemma pending_request s t l q :
  reachable {| storage := s; token := t; log := l |} ->
  raffleId (requestAt s q) <> 0 ->
  fulfilled (requestAt s q) = false ->
  let r := raffleAt s (raffleId (requestAt s q)) in
  status r = AwaitingVRF /\ isPool r = false /\
  0 < entryCount r <= MAX_UINT256 /\
  0 < totalCollected r <= balanceOf t this.
Proof.
  intros Hw Hq Hf r. pose proof (reachable_Inv _ Hw) as HI.
  pose proof (reachable_Shape _ Hw) as HS. cbn [storage] in HS.
  unfold requestAt in Hq, Hf, r.
  destruct (vrfRequests s !! q) as [rq|] eqn:Hrq; cbn [from_option Datatypes.id] in *;
    [|done].
  destruct (inv_requests _ HI q rq Hrq) as [_ Hpend]. cbn [storage] in Hpend.
  destruct (Hpend Hf) as [Hst _]. fold r in Hst.
  destruct (Inv_raffle _ _ _ (raffleId rq) HI ltac:(fold r; rewrite Hst; done))
    as (Hr & Hok & _).
  fold r in Hr, Hok. pose proof (shape_raffles _ HS _ _ Hr) as Hsh.
  pose proof (totalCollected_le_sum _ _ _ Hr) as Hle.
  pose proof (inv_solvent _ HI) as Hsol. cbn [storage token] in Hsol.
  pose proof (sh_awaiting _ _ Hsh Hst) as Hec.
  pose proof (sh_cost _ _ Hsh) as Hcost.
  destruct Hok as [Hc Hrange Ho _ _ Hinc].
  specialize (Ho ltac:(congruence)). rewrite memberSum_size, <- Hc in Ho.
  split; [done|]. split.
  - destruct (isPool r) eqn:Hp; [|done].
    by destruct (sh_pool _ _ Hsh Hp) as (_ & Hne & _).
  - split; [lia|]. split; [|lia].
    unfold raffleAmount in Ho. case_bool_decide as Hty; [specialize (Hinc Hty)|]; nia.
Qed.

Lemma callback_first q word rest w :
  reachable w ->
  raffleId (requestAt (storage w) q) <> 0 ->
  fulfilled (requestAt (storage w) q) = false ->
  let i := raffleId (requestAt (storage w) q) in
  let r := raffleAt (storage w) i in
  exists w',
    exec (fulfillRandomWords q (word :: rest)) w = Ok w' /\
    getVRFRequest (storage w') q = (i, true) /\
    status (raffleAt (storage w') i) = Finalized /\
    totalCollected (raffleAt (storage w') i) = 0 /\
    winnerIndex (raffleAt (storage w') i) = word mod entryCount r + 1 /\
    movements (log w') = movements (log w) ++ [Push (payoutAddress r) (totalCollected r)].
Proof.
  intros Hw Hq Hf. destruct w as [[o a m vr n p nn] t l]. cbn [storage] in *.
  destruct (pending_request _ _ _ q Hw Hq Hf) as (Hst & Hpool & Hec & Htc).
  cbn zeta.
  match type of Hst with
  | status ?R = _ =>
      destruct (token_transfer_enough t this (payoutAddress R) (totalCollected R)
                  ltac:(lia)) as [t' Ht'];
      pose proof (N.mod_lt word (entryCount R) ltac:(lia)) as Hmod
  end.
  clear Hw. unfold getVRFRequest, raffleAt, requestAt in *.
  cbn [raffles vrfRequests] in *.
  unfold fulfillRandomWords.
  run_goal ltac:(first [congruence | lia | done]).
  all: eexists; (split; [reflexivity|]).
  all: unfold raffleAt, requestAt; cbn [storage raffles vrfRequests log];
       rewrite ?lookup_insert_eq; cbn [from_option Datatypes.id raffleId fulfilled];
       raffle_simpl.
  all: repeat split; try reflexivity.
  all: rewrite <- ?app_assoc, ?movements_app; cbn [movements app];
       rewrite ?app_nil_r; reflexivity.
Qed.

(** X20.  The outcomes of the coordinator's callback in a reachable world:
    it reverts with [VRFRequestNotFound] for a request id that was never
    recorded; it returns without any change for a request already
    fulfilled; for a pending request it panics (index out of bounds) on an
    empty array of words and in every other case succeeds, never reverting
    with [RaffleNotAwaitingVRF], a division by zero or [TransferFailed]: it
    marks the request fulfilled, finalizes the raffle with
    [winnerIndex = word mod entryCount + 1] and pays the whole balance,
    which is positive, to the payout address in one transfer. *)
Theorem callback_outcomes q w :
  reachable w ->
  let i := fst (getVRFRequest (storage w) q) in
  let r := raffleAt (storage w) i in
  (i = 0 -> forall words,
     exec (fulfillRandomWords q words) w = Revert VRFRequestNotFound) /\
  (i <> 0 -> snd (getVRFRequest (storage w) q) = true -> forall words,
     exec (fulfillRandomWords q words) w = Ok w) /\
  (i <> 0 -> snd (getVRFRequest (storage w) q) = false ->
   exec (fulfillRandomWords q []) w = Revert (Panic PANIC_INDEX_OUT_OF_BOUNDS) /\
   0 < totalCollected r /\
   forall word rest, exists w',
     exec (fulfillRandomWords q (word :: rest)) w = Ok w' /\
     getVRFRequest (storage w') q = (i, true) /\
     status (raffleAt (storage w') i) = Finalized /\
     totalCollected (raffleAt (storage w') i) = 0 /\
     winnerIndex (raffleAt (storage w') i) = word mod entryCount r + 1 /\
     movements (log w')
     = movements (log w) ++ [Push (payoutAddress r) (totalCollected r)]).
Proof.
  intros Hw. cbn zeta. unfold getVRFRequest. cbn [fst snd].
  split; [|split].
  - intros Hq words. destruct w as [[o a m vr n p nn] t l].
    unfold requestAt in Hq. cbn [storage vrfRequests] in Hq.
    unfold fulfillRandomWords.
    run_goal ltac:(first [congruence | lia | done]). reflexivity.
  - intros Hq Hf words. destruct w as [[o a m vr n p nn] t l].
    unfold requestAt in Hq, Hf. cbn [storage vrfRequests] in Hq, Hf.
    unfold fulfillRandomWords.
    run_goal ltac:(first [congruence | lia | done]). reflexivity.
  - intros Hq Hf. split; [|split].
    + destruct w as [[o a m vr n p nn] t l]. cbn [storage] in *.
      destruct (pending_request _ _ _ q Hw Hq Hf) as (Hst & _).
      unfold raffleAt, requestAt in *. cbn [raffles vrfRequests] in *.
      unfold fulfillRandomWords.
      run_goal ltac:(first [congruence | lia | done]). reflexivity.
    + destruct w as [[o a m vr n p nn] t l]. cbn [storage] in *.
      destruct (pending_request _ _ _ q Hw Hq Hf) as (_ & _ & _ & Htc). lia.
    + intros word rest. exact (callback_first q word rest w Hw Hq Hf).
Qed.

(** X21.  What a successful [endRaffle] does: a pool raffle is finalized at
    once, its balance zeroed and, when positive, pushed to the payout
    address; a traditional raffle without entries is finalized at once with
    no transfer and no randomness request; a traditional raffle with entries
    moves to [AwaitingVRF] under the request id the coordinator answered,
    that request is recorded as pending for this raffle, and nothing is paid
    and the balance is kept until the callback.  Entries and membership are
    never changed, and no request is recorded on the first two paths. *)
Theorem endRaffle_outcomes env i sig w w' :
  exec (endRaffle env i sig) w = Ok w' ->
  let r := raffleAt (storage w) i in
  let r' := raffleAt (storage w') i in
  entryCount r' = entryCount r /\ hasEntered r' = hasEntered r /\
  winnerIndex r' = winnerIndex r /\
  (isPool r = true ->
   status r' = Finalized /\ totalCollected r' = 0 /\
   vrfRequests (storage w') = vrfRequests (storage w) /\
   movements (log w') = movements (log w) ++ prize r) /\
  (isPool r = false -> entryCount r = 0 ->
   status r' = Finalized /\ totalCollected r' = totalCollected r /\
   vrfRequests (storage w') = vrfRequests (storage w) /\
   movements (log w') = movements (log w)) /\
  (isPool r = false -> entryCount r <> 0 ->
   exists q, vrf_reply env = Some q /\
     status r' = AwaitingVRF /\ vrfRequestId r' = q /\
     getVRFRequest (storage w') q = (i, false) /\
     totalCollected r' = totalCollected r /\
     movements (log w') = movements (log w)).
Proof.
  intros H. destruct w as [[o a m vr n p nn] t l].
  unfold endRaffle, _finalizePoolRaffle, _requestVRF in H.
  cbn zeta. unfold prize, getVRFRequest, raffleAt, requestAt.
  cbn [storage raffles vrfRequests log].
  run_inv H; try done; injection H as <-.
  all: cbn [storage raffles vrfRequests log]; rewrite ?lookup_insert_eq;
       cbn [from_option Datatypes.id]; raffle_simpl; prop_hyps.
  all: repeat match goal with
              | |- _ /\ _ => split
              | |- _ -> _ => intro
              end; try reflexivity; try congruence; try lia.
  all: try (rewrite <- ?app_assoc, ?movements_app; cbn [movements app];
            rewrite ?app_nil_r;
            repeat match goal with
                   | Hx : ?b = _ |- context [if ?b then _ else _] => rewrite Hx
                   end; reflexivity).
  all: eexists; (split; [reflexivity|]);
       rewrite ?lookup_insert_eq; cbn [from_option Datatypes.id raffleId fulfilled];
       repeat split;
       rewrite <- ?app_assoc, ?movements_app; cbn [movements app];
       rewrite ?app_nil_r; reflexivity.
Qed.

Ltac lookup_in Hx :=
  repeat first [ rewrite lookup_insert_eq in Hx
               | progress cbn [from_option Datatypes.id raffleId fulfilled] in Hx ].

(** X22.  Ending and drawing compose: in a reachable world, after a
    successful [endRaffle] on a traditional raffle with entries, the
    callback for the request id that the coordinator answered, with at least
    one random word, succeeds: the raffle is finalized with
    [winnerIndex = word mod entryCount + 1] and the balance it held when it
    was ended is pushed to its payout address, the only token movement of
    the two calls. *)
Theorem endRaffle_then_callback env i sig w w1 :
  reachable w ->
  msg_sender env <> this ->
  exec (endRaffle env i sig) w = Ok w1 ->
  let r := raffleAt (storage w) i in
  isPool r = false ->
  entryCount r <> 0 ->
  exists q, vrf_reply env = Some q /\
    forall word rest, exists w2,
      exec (fulfillRandomWords q (word :: rest)) w1 = Ok w2 /\
      status (raffleAt (storage w2) i) = Finalized /\
      winnerIndex (raffleAt (storage w2) i) = word mod entryCount r + 1 /\
      totalCollected (raffleAt (storage w2) i) = 0 /\
      movements (log w2)
      = movements (log w) ++ [Push (payoutAddress r) (totalCollected r)].
Proof.
  intros Hw Hs H. cbn zeta. intros Hpool Hec.
  assert (Hw1 : reachable w1) by exact (reachable_step w env (EndRaffle i sig) w1 Hw Hs H).
  destruct w as [[o a m vr n p nn] t l].
  unfold endRaffle, _finalizePoolRaffle, _requestVRF in H.
  unfold raffleAt in Hpool, Hec. cbn [storage raffles] in Hpool, Hec.
  run_inv H; try done; try congruence; prop_hyps; try congruence.
  all: injection H as <-.
  all: eexists; (split; [reflexivity|]); intros word rest.
  all: match goal with
       | |- context [fulfillRandomWords ?q] =>
           destruct (callback_first q word rest _ Hw1) as (w2 & Hx & _ & Hfin & Htc & Hwin & Hmv)
       end.
  all: try (unfold requestAt; cbn [storage vrfRequests]; rewrite lookup_insert_eq;
            cbn [from_option Datatypes.id raffleId fulfilled]; first [lia | reflexivity]).
  all: exists w2; (split; [exact Hx|]).
  all: unfold requestAt, raffleAt in Hfin, Htc, Hwin, Hmv;
       cbn [storage vrfRequests raffles log] in Hfin, Htc, Hwin, Hmv;
       lookup_in Hfin; lookup_in Htc; lookup_in Hwin; lookup_in Hmv; raffle_simpl.
  all: unfold raffleAt; cbn [storage raffles log].
  all: repeat split; try done.
  all: rewrite Hmv, <- ?app_assoc, ?movements_app; cbn [movements app];
       rewrite ?app_nil_r; reflexivity.
Qed.

Lemma raffle_ext r r' :
  id r = id r' -> organizer r = organizer r' -> status r = status r' ->
  raffleType r = raffleType r' -> entryCost r = entryCost r' ->
  incentiveAmount r = incentiveAmount r' -> totalCollected r = totalCollected r' ->
  entryLimit r = entryLimit r' -> entryCount r = entryCount r' ->
  deadline r = deadline r' -> targetAmount r = targetAmount r' ->
  isPool r = isPool r' -> vrfRequestId r = vrfRequestId r' ->
  winnerIndex r = winnerIndex r' -> payoutAddress r = payoutAddress r' ->
  hasEntered r = hasEntered r' -> r = r'.
Proof. destruct r, r'. raffle_simpl. intros. by subst. Qed.

Lemma enter_refund_record a r :
  a ∉ hasEntered r ->
  set_totalCollected (totalCollected r + entryCost r - entryCost r)
    (set_entryCount (entryCount r + 1 - 1)
       (set_hasEntered a false
          (set_totalCollected (totalCollected r + entryCost r)
             (set_entryCount (entryCount r + 1) (set_hasEntered a true r)))))
  = r.
Proof.
  intros Ha. apply raffle_ext; raffle_simpl; try reflexivity; try lia.
  apply set_eq. intros x. set_unfold. split; [tauto|].
  intros Hx. split; [by right|]. by intros ->.
Qed.

(** X23.  Entering and then asking the money back is a round trip: when
    [enterRaffle] succeeds and the same account's [refund] then succeeds,
    the raffle's record is exactly what it was before the entry, and the two
    calls pulled the entry cost from the account and pushed the same amount
    back to it. *)
Theorem enter_then_refund env env' i w w1 w2 :
  msg_sender env' = msg_sender env ->
  exec (enterRaffle env i) w = Ok w1 ->
  exec (refund env' i) w1 = Ok w2 ->
  let r := raffleAt (storage w) i in
  raffleAt (storage w2) i = r /\
  movements (log w2)
  = movements (log w) ++ [Pull (msg_sender env) (entryCost r);
                          Push (msg_sender env) (entryCost r)].
Proof.
  intros Hs H1 H2. cbn zeta. unfold enterRaffle in H1.
  destruct w as [[o a m vr n p nn] t l].
  run_inv H1; injection H1 as <-.
  all: unfold refund in H2; run_inv H2; injection H2 as <-.
  all: prop_hyps; raffle_simpl; try congruence.
  all: unfold raffleAt; cbn [storage raffles log]; rewrite ?lookup_insert_eq;
       cbn [from_option Datatypes.id]; raffle_simpl.
  all: rewrite Hs in *.
  all: split;
       [|rewrite <- ?app_assoc, ?movements_app; cbn [movements app];
         rewrite ?app_nil_r; reflexivity].
  all: apply enter_refund_record; done.
Qed.

(** ** Counters *)

(** X24.  [entryCount] counts the members: in a reachable world the
    [entryCount] of every raffle, finalized or not, is the number of
    accounts for which [hasUserEntered] answers [true], and an account for
    which it answers [true] names a raffle that exists. *)
Theorem entryCount_counts_members w i :
  reachable w ->
  let r := raffleAt (storage w) i in
  entryCount r = N.of_nat (size (hasEntered r)) /\
  (forall user, hasUserEntered (storage w) i user = true ->
     0 < i < nextRaffleId (storage w) /\ status r <> Inactive /\ 0 < entryCount r).
Proof.
  intros Hw. pose proof (reachable_Inv _ Hw) as HI. cbn zeta.
  destruct w as [s t l]. cbn [storage] in *.
  assert (Hcount : entryCount (raffleAt s i) = N.of_nat (size (hasEntered (raffleAt s i)))).
  { unfold raffleAt. destruct (raffles s !! i) as [r|] eqn:Hr;
      cbn [from_option Datatypes.id].
    - destruct (inv_raffles _ HI i r Hr) as [Hok _]. exact (ok_count _ Hok).
    - unfold emptyRaffle. raffle_simpl. by rewrite size_empty. }
  split; [exact Hcount|].
  intros user Hu. unfold hasUserEntered in Hu. apply bool_decide_eq_true in Hu.
  destruct (Inv_member s t l i user HI Hu) as (_ & Hok & Hi).
  split; [done|]. split; [exact (ok_created _ Hok)|].
  rewrite Hcount.
  assert (size (hasEntered (raffleAt s i)) <> 0%nat); [|lia].
  intros E. apply size_empty_inv in E. set_solver.
Qed.

(** X25.  At most one pending request per raffle: in a reachable world a
    recorded request names a created raffle; while it is pending that raffle
    is a traditional one in [AwaitingVRF] whose [vrfRequestId] is the
    request's id, so two pending requests of the same raffle are the same
    request. *)
Theorem pending_request_unique w q q' :
  reachable w ->
  let s := storage w in
  fst (getVRFRequest s q) <> 0 ->
  snd (getVRFRequest s q) = false ->
  let r := raffleAt s (fst (getVRFRequest s q)) in
  status r = AwaitingVRF /\ isPool r = false /\ vrfRequestId r = q /\
  (fst (getVRFRequest s q') = fst (getVRFRequest s q) ->
   snd (getVRFRequest s q') = false -> q' = q).
Proof.
  intros Hw. cbn zeta. unfold getVRFRequest. cbn [fst snd]. intros Hq Hf.
  pose proof (reachable_Inv _ Hw) as HI.
  destruct w as [s t l]. cbn [storage] in *.
  destruct (pending_request _ _ _ q Hw Hq Hf) as (Hst & Hpool & _).
  assert (Hid : forall q0, raffleId (requestAt s q0) <> 0 ->
                           fulfilled (requestAt s q0) = false ->
                           vrfRequestId (raffleAt s (raffleId (requestAt s q0))) = q0).
  { intros q0 Hq0 Hf0. unfold requestAt in *.
    destruct (vrfRequests s !! q0) as [rq|] eqn:Hrq; cbn [from_option Datatypes.id] in *;
      [|done].
    destruct (inv_requests _ HI q0 rq Hrq) as [_ Hpend]. by destruct (Hpend Hf0). }
  repeat split; try done.
  - by apply Hid.
  - intros E Hf'. rewrite <- (Hid q') by congruence. rewrite E. by apply Hid.
Qed.

Lemma size_initial_segment {A} (m : gmap N A) n :
  (forall i, is_Some (m !! i) <-> 0 < i < n + 1) -> size m = N.to_nat n.
Proof.
  revert m. induction n as [|n IH] using N.peano_ind; intros m Hd.
  - assert (m = ∅) as ->; [|by rewrite map_size_empty].
    apply map_empty. intros i. apply eq_None_not_Some. rewrite Hd. lia.
  - destruct (proj2 (Hd (N.succ n)) ltac:(lia)) as [x Hx].
    assert (Hsz : size (delete (N.succ n) m) = N.to_nat n).
    { apply IH. intros i. rewrite lookup_delete_is_Some, Hd. lia. }
    rewrite map_size_delete_Some in Hsz by eauto. 
    assert (size m <> 0%nat); [|lia].
    apply map_size_non_empty_iff. intros ->. by rewrite lookup_empty in Hx.
Qed.

(** X26.  [getRaffleCount] counts the raffles: in a reachable world it is
    the number of raffles held in storage, and the ids in use are exactly
    1 to [getRaffleCount]. *)
Theorem getRaffleCount_counts w :
  reachable w ->
  getRaffleCount (storage w) = N.of_nat (size (raffles (storage w))) /\
  (forall i, is_Some (raffles (storage w) !! i) <-> 1 <= i <= getRaffleCount (storage w)).
Proof.
  intros Hw. pose proof (reachable_Inv _ Hw) as HI.
  pose proof (reachable_Shape _ Hw) as HS.
  pose proof (inv_next _ HI) as Hn. unfold getRaffleCount.
  assert (Hd : forall i, is_Some (raffles (storage w) !! i)
                         <-> 0 < i < nextRaffleId (storage w) - 1 + 1).
  { intros i. replace (nextRaffleId (storage w) - 1 + 1) with (nextRaffleId (storage w))
      by lia.
    split; [|apply (shape_ids _ HS)].
    intros [r Hr]. by destruct (inv_raffles _ HI i r Hr). }
  split.
  - rewrite (size_initial_segment _ _ Hd). lia.
  - intros i. rewrite Hd. lia.
Qed.

Lemma token_transferFrom_received t spender from to amount t' :
  token_transferFrom t spender from to amount = Some t' ->
  amount <= balanceOf t' to.
Proof.
  intros H.
  destruct (token_transferFrom_balance t spender from to amount t' to H)
    as (Hb & _ & _ & Heq).
  rewrite (bool_decide_eq_true_2 (to = to)) in Heq by done.
  case_bool_decide; subst; lia.
Qed.

End Proofs.

(** * The first contract, [EncoreRaffler] *)

Section LegacyProofs.

Context {L : Legacy.Deployment}.

Ltac legacy_step_in H :=
  cbv beta iota zeta delta
    [Legacy.exec Legacy.perform Legacy.bind Legacy.ret Legacy.revert Legacy.revert_if
     Legacy.getStorage Legacy.modifyStorage Legacy.emit Legacy.readRaffle
     Legacy.writeRaffle Legacy.checked_add Legacy.checked_sub Legacy.call_allowance
     Legacy.call_transferFrom Legacy.call_transfer Legacy.call_recover
     Legacy.validAddress Legacy.onlyOwner
     Legacy.validRaffleId Legacy.useNonce Legacy.storage Legacy.token Legacy.log
     Legacy.raffleAt Legacy.nonceOf Legacy.with_raffles Legacy.with_nonces
     Legacy.with_nextRaffleId Legacy.with_paused Legacy.with_appServerSigner
     Legacy.with_bitrefillSigner Legacy.flagged Legacy.owner Legacy.appServerSigner
     Legacy.bitrefillSigner Legacy.raffles Legacy.nextRaffleId Legacy.paused
     Legacy.nonces] in H;
  rewrite ?lookup_insert_eq, ?insert_insert_eq in H;
  cbn [from_option Datatypes.id] in H.

Ltac legacy_run_in H :=
  repeat (legacy_step_in H;
    match type of H with
    | context [if ?c then _ else _] => destruct c eqn:?; try discriminate H
    | context [match ?x with Some _ => _ | None => _ end] =>
        destruct x eqn:?; try discriminate H
    | context [match ?x with Recovered _ => _ | Malformed _ => _ end] =>
        destruct x eqn:?; try discriminate H
    end);
  legacy_step_in H.

Ltac legacy_step :=
  cbv beta iota zeta delta
    [Legacy.exec Legacy.perform Legacy.bind Legacy.ret Legacy.revert Legacy.revert_if
     Legacy.getStorage Legacy.modifyStorage Legacy.emit Legacy.readRaffle
     Legacy.writeRaffle Legacy.checked_add Legacy.checked_sub Legacy.call_allowance
     Legacy.call_transferFrom Legacy.call_transfer Legacy.call_recover
     Legacy.validAddress Legacy.onlyOwner
     Legacy.validRaffleId Legacy.useNonce Legacy.storage Legacy.token Legacy.log
     Legacy.raffleAt Legacy.nonceOf Legacy.with_raffles Legacy.with_nonces
     Legacy.with_nextRaffleId Legacy.with_paused Legacy.with_appServerSigner
     Legacy.with_bitrefillSigner Legacy.flagged Legacy.owner Legacy.appServerSigner
     Legacy.bitrefillSigner Legacy.raffles Legacy.nextRaffleId Legacy.paused
     Legacy.nonces];
  rewrite ?lookup_insert_eq, ?insert_insert_eq;
  cbn [from_option Datatypes.id].

Ltac legacy_run tac :=
  repeat (legacy_step;
    match goal with
    | |- context [if ?c then _ else _] =>
        destruct c eqn:?; try (exfalso; prop_hyps; tac)
    | |- context [match ?x with Some _ => _ | None => _ end] =>
        destruct x eqn:?; try (exfalso; prop_hyps; tac)
    | |- context [match ?x with Recovered _ => _ | Malformed _ => _ end] =>
        destruct x eqn:?; try (exfalso; prop_hyps; tac)
    end);
  legacy_step.

Ltac token_facts :=
  repeat match goal with
         | Hx : token_transferFrom _ _ _ _ _ = None |- _ =>
             apply token_transferFrom_inv in Hx; cbn beta iota in Hx
         | Hx : token_transferFrom _ _ _ _ _ = Some _ |- _ =>
             apply token_transferFrom_received in Hx
         | Hx : token_transfer _ _ _ _ = None |- _ => apply token_transfer_short in Hx
         | Hx : _ \/ _ |- _ => destruct Hx
         end.

Ltac legacy_simpl :=
  cbn [Legacy.id Legacy.organizer Legacy.status Legacy.raffleType Legacy.entryCost
       Legacy.incentiveAmount Legacy.totalCollected Legacy.entryLimit Legacy.entryCount
       Legacy.deadline Legacy.hasEntered Legacy.set_status Legacy.set_totalCollected
       Legacy.set_entryCount Legacy.set_hasEntered] in *.

Lemma legacy_movements_app l l' :
  Legacy.movements (l ++ l') = Legacy.movements l ++ Legacy.movements l'.
Proof.
  induction l as [|e l IH]; [done|].
  destruct e; cbn [app Legacy.movements]; by rewrite ?IH.
Qed.

(** X27.  The pause switch of the first contract stops nothing: the
    modifier [whenNotPaused] is declared and applied to no function, so
    every call other than [pause] and [unpause] themselves has the same
    outcome whatever the pause flag is: the same revert, or the same new
    world up to the flag. *)
Theorem legacy_pause_is_inert env c b w :
  c <> Legacy.Pause -> c <> Legacy.Unpause ->
  Legacy.exec (Legacy.perform env c) (Legacy.flagged b w)
  = match Legacy.exec (Legacy.perform env c) w with
    | Ok w' => Ok (Legacy.flagged b w')
    | Revert e => Revert e
    end.
Proof.
  intros Hp Hu. destruct w as [[o a bs m nn n p] t l].
  destruct c; try congruence; cbn [Legacy.perform];
    unfold Legacy.createRaffle, Legacy.updateAppServerSigner,
           Legacy.updateBitRefillSigner, Legacy.enterRaffle,
           Legacy.joinIncentiveRaffle, Legacy.refund, Legacy.endRaffle;
    legacy_run ltac:(fail); reflexivity.
Qed.

(** X28.  The refund gate of the first contract: on a valid id, [refund]
    reverts with [RaffleNotActive] unless the raffle is [Active], then with
    [DeadlineNotPassed] at any time up to and including the deadline, and
    only then with [AlreadyEntered] for an account that has not entered; so
    a call that succeeds was made by a member of an [Active] raffle strictly
    after the deadline, with no grace period, and it pushes the raffle
    portion of the entry cost back to the caller and clears the
    membership. *)
Theorem legacy_refund_gate env i w :
  0 < i < Legacy.nextRaffleId (Legacy.storage w) ->
  let r := Legacy.raffleAt (Legacy.storage w) i in
  let user := msg_sender env in
  (Legacy.status r <> Legacy.Active ->
   Legacy.exec (Legacy.refund env i) w = Revert RaffleNotActive) /\
  (Legacy.status r = Legacy.Active -> block_timestamp env <= Legacy.deadline r ->
   Legacy.exec (Legacy.refund env i) w = Revert DeadlineNotPassed) /\
  (Legacy.status r = Legacy.Active -> Legacy.deadline r < block_timestamp env ->
   user ∉ Legacy.hasEntered r ->
   Legacy.exec (Legacy.refund env i) w = Revert AlreadyEntered) /\
  (forall w', Legacy.exec (Legacy.refund env i) w = Ok w' ->
     Legacy.status r = Legacy.Active /\ Legacy.deadline r < block_timestamp env /\
     user ∈ Legacy.hasEntered r /\
     Legacy.hasUserEntered (Legacy.storage w') i user = false /\
     Legacy.movements (Legacy.log w')
     = Legacy.movements (Legacy.log w)
       ++ [Push user (if bool_decide (Legacy.raffleType r = IncentiveBased)
                      then Legacy.entryCost r - Legacy.incentiveAmount r
                      else Legacy.entryCost r)]).
Proof.
  intros Hi. destruct w as [[o a bs m nn n p] t l]. cbn zeta.
  unfold Legacy.raffleAt, Legacy.hasUserEntered.
  cbn [Legacy.storage Legacy.nextRaffleId Legacy.raffles Legacy.log] in *.
  split; [|split; [|split]].
  - intros Hst. unfold Legacy.refund.
    legacy_run ltac:(first [congruence | lia | done]). reflexivity.
  - intros Hst Ht. unfold Legacy.refund.
    legacy_run ltac:(first [congruence | lia | done]). reflexivity.
  - intros Hst Ht Hm. unfold Legacy.refund.
    legacy_run ltac:(first [congruence | lia | done]). reflexivity.
  - intros w' H. unfold Legacy.refund in H. legacy_run_in H; injection H as <-.
    all: prop_hyps.
    all: unfold Legacy.raffleAt; cbn [Legacy.storage Legacy.raffles Legacy.log];
         rewrite ?lookup_insert_eq; cbn [from_option Datatypes.id]; legacy_simpl.
    all: repeat split; try done; try lia.
    all: try (apply bool_decide_eq_false_2; set_solver).
    all: rewrite <- ?app_assoc, ?legacy_movements_app; cbn [Legacy.movements app];
         rewrite ?app_nil_r; reflexivity.
Qed.

(** X29.  Ending a raffle of the first contract: on an [Active] or [Closed]
    raffle the caller plays no role; unless the signature over the raffle
    id, the destination and the current nonce of the BitRefill signer
    recovers that signer, the call reverts, with [InvalidSignature] when the
    signature recovers another signer and with the ECDSA library's own error
    when it is malformed; otherwise, when the contract holds the raffle's
    balance, it
    succeeds, consumes that nonce, finalizes the raffle, zeroes its balance
    and pushes all of it to the destination named in the call; after that
    every [endRaffle] on the raffle reverts with [RaffleNotActive]. *)
Theorem legacy_endRaffle_payout env i dest sig w :
  0 < i < Legacy.nextRaffleId (Legacy.storage w) ->
  let s := Legacy.storage w in
  let r := Legacy.raffleAt s i in
  let signer := Legacy.bitrefillSigner s in
  Legacy.status r = Legacy.Active \/ Legacy.status r = Legacy.Closed ->
  Legacy.nonceOf s signer < MAX_UINT256 ->
  (Legacy.recover (Legacy.EndRaffleMsg i dest (Legacy.nonceOf s signer)) sig
   <> Recovered signer ->
   Legacy.exec (Legacy.endRaffle env i dest sig) w
   = Revert (rejection
               (Legacy.recover (Legacy.EndRaffleMsg i dest (Legacy.nonceOf s signer)) sig))) /\
  (Legacy.recover (Legacy.EndRaffleMsg i dest (Legacy.nonceOf s signer)) sig
   = Recovered signer ->
   Legacy.totalCollected r <= balanceOf (Legacy.token w) Legacy.this ->
   exists w',
     Legacy.exec (Legacy.endRaffle env i dest sig) w = Ok w' /\
     Legacy.status (Legacy.raffleAt (Legacy.storage w') i) = Legacy.Finalized /\
     Legacy.totalCollected (Legacy.raffleAt (Legacy.storage w') i) = 0 /\
     Legacy.nonceOf (Legacy.storage w') signer = Legacy.nonceOf s signer + 1 /\
     Legacy.movements (Legacy.log w')
     = Legacy.movements (Legacy.log w)
       ++ (if 0 <? Legacy.totalCollected r
           then [Push dest (Legacy.totalCollected r)] else []) /\
     forall env' dest' sig',
       Legacy.exec (Legacy.endRaffle env' i dest' sig') w' = Revert RaffleNotActive).
Proof.
  intros Hi. destruct w as [[o a bs m nn n p] t l]. cbn zeta.
  unfold Legacy.raffleAt, Legacy.nonceOf.
  cbn [Legacy.storage Legacy.nextRaffleId Legacy.raffles Legacy.nonces Legacy.log
       Legacy.token Legacy.bitrefillSigner] in *.
  intros Hst Hn. split.
  - intros Hsig. unfold Legacy.endRaffle.
    destruct Hst as [Hst|Hst];
      legacy_run ltac:(first [congruence | lia | done]); reflexivity.
  - intros Hsig Hbal. unfold Legacy.endRaffle.
    destruct Hst as [Hst|Hst];
      legacy_run ltac:(first [congruence | lia | done | token_facts; lia]).
    all: eexists; (split; [reflexivity|]).
    all: unfold Legacy.raffleAt, Legacy.nonceOf;
         cbn [Legacy.storage Legacy.raffles Legacy.nonces Legacy.log];
         rewrite ?lookup_insert_eq; cbn [from_option Datatypes.id]; legacy_simpl.
    all: repeat split; try reflexivity.
    all: try (rewrite <- ?app_assoc, ?legacy_movements_app; cbn [Legacy.movements app];
              rewrite ?app_nil_r; reflexivity).
    all: intros env' dest' sig'; unfold Legacy.endRaffle;
         legacy_run ltac:(first [congruence | lia | done | legacy_simpl; congruence]);
         reflexivity.
Qed.


Lemma legacy_raffle_ext r r' :
  Legacy.id r = Legacy.id r' -> Legacy.organizer r = Legacy.organizer r' ->
  Legacy.status r = Legacy.status r' -> Legacy.raffleType r = Legacy.raffleType r' ->
  Legacy.entryCost r = Legacy.entryCost r' ->
  Legacy.incentiveAmount r = Legacy.incentiveAmount r' ->
  Legacy.totalCollected r = Legacy.totalCollected r' ->
  Legacy.entryLimit r = Legacy.entryLimit r' ->
  Legacy.entryCount r = Legacy.entryCount r' ->
  Legacy.deadline r = Legacy.deadline r' ->
  Legacy.hasEntered r = Legacy.hasEntered r' -> r = r'.
Proof. destruct r, r'. legacy_simpl. intros. by subst. Qed.

Lemma legacy_entry_undone a x r :
  a ∉ Legacy.hasEntered r ->
  Legacy.set_totalCollected (Legacy.totalCollected r + x - x)
    (Legacy.set_entryCount (Legacy.entryCount r + 1 - 1)
       (Legacy.set_hasEntered a false
          (Legacy.set_totalCollected (Legacy.totalCollected r + x)
             (Legacy.set_entryCount (Legacy.entryCount r + 1)
                (Legacy.set_hasEntered a true r)))))
  = r.
Proof.
  intros Ha. apply legacy_raffle_ext; legacy_simpl; try reflexivity; try lia.
  apply set_eq. intros y. set_unfold. split; [tauto|].
  intros Hy. split; [by right|]. by intros ->.
Qed.

(** X30.  A signature for [joinIncentiveRaffle] of the first contract can be
    used again: the signed message names the raffle, the payment address
    and the account and carries no nonce, so after a successful join and a
    successful refund the same account joins again with the same signature,
    at any time, as soon as its allowance and balance cover the entry cost;
    the incentive portion is forwarded to the payment address once more. *)
Theorem legacy_join_replay env env1 env2 i pay sig w w1 w2 :
  msg_sender env1 = msg_sender env ->
  msg_sender env2 = msg_sender env ->
  Legacy.exec (Legacy.joinIncentiveRaffle env i pay sig) w = Ok w1 ->
  Legacy.exec (Legacy.refund env1 i) w1 = Ok w2 ->
  let r := Legacy.raffleAt (Legacy.storage w) i in
  let user := msg_sender env in
  Legacy.entryCost r <= allowance (Legacy.token w2) user Legacy.this ->
  Legacy.entryCost r <= balanceOf (Legacy.token w2) user ->
  exists w3,
    Legacy.exec (Legacy.joinIncentiveRaffle env2 i pay sig) w2 = Ok w3 /\
    Legacy.movements (Legacy.log w3)
    = Legacy.movements (Legacy.log w)
      ++ [Pull user (Legacy.entryCost r); Push pay (Legacy.incentiveAmount r);
          Push user (Legacy.entryCost r - Legacy.incentiveAmount r);
          Pull user (Legacy.entryCost r); Push pay (Legacy.incentiveAmount r)].
Proof.
  intros Hs1 Hs2 H1 H2. cbn zeta. destruct w as [[o a bs m nn n p] t l].
  unfold Legacy.raffleAt. cbn [Legacy.storage Legacy.raffles Legacy.log].
  unfold Legacy.joinIncentiveRaffle in H1. legacy_run_in H1. injection H1 as <-.
  unfold Legacy.refund in H2. rewrite Hs1 in H2.
  legacy_run_in H2; legacy_simpl; prop_hyps; try congruence.
  injection H2 as <-. cbn [Legacy.token Legacy.storage Legacy.log].
  intros Hal Hbal.
  rewrite legacy_entry_undone by done.
  unfold Legacy.joinIncentiveRaffle. rewrite Hs2.
  legacy_run ltac:(first [ congruence | lia | done | token_facts; lia ]).
  eexists. split; [reflexivity|].
  cbn [Legacy.log]. rewrite <- ?app_assoc, ?legacy_movements_app.
  cbn [Legacy.movements app]. rewrite ?app_nil_r. reflexivity.
Qed.

End LegacyProofs.

(** * The claims on the example scenarios *)

Lemma genesis_reachable : reachable (D := demo) genesis.
Proof. by apply (reachable_deploy (D := demo) (tx 1 0) 7 2 8). Qed.

Ltac reach :=
  first
    [ exact genesis_reachable
    | apply (reachable_run_all (D := demo));
      [ reach | repeat (apply Forall_cons_2; [discriminate|]); apply Forall_nil_2 ] ].

Ltac member := apply (bool_decide_unpack _); vm_compute; exact I.
Ltac not_member :=
  let Hin := fresh "Hin" in
  intros Hin; apply (bool_decide_pack _) in Hin; vm_compute in Hin; exact Hin.

Lemma donation_one_entry_reachable : reachable (D := demo) donation_one_entry.
Proof. unfold donation_one_entry. reach. Qed.

Lemma donation_awaiting_reachable : reachable (D := demo) donation_awaiting.
Proof.
  unfold donation_awaiting, donation_closed.
  apply (reachable_run_all (D := demo));
    [|repeat (apply Forall_cons_2; [discriminate|]); apply Forall_nil_2].
  apply (reachable_run_all (D := demo));
    [|repeat (apply Forall_cons_2; [discriminate|]); apply Forall_nil_2].
  exact donation_one_entry_reachable.
Qed.

Lemma donation_settled_reachable : reachable (D := demo) donation_settled.
Proof.
  unfold donation_settled.
  apply (reachable_run_all (D := demo));
    [|repeat (apply Forall_cons_2; [discriminate|]); apply Forall_nil_2].
  exact donation_awaiting_reachable.
Qed.

Lemma pool_open_reachable : reachable (D := demo) pool_open.
Proof. unfold pool_open. reach. Qed.

Lemma pool_settled_reachable : reachable (D := demo) pool_settled.
Proof.
  unfold pool_settled.
  apply (reachable_run_all (D := demo));
    [|repeat (apply Forall_cons_2; [discriminate|]); apply Forall_nil_2].
  exact pool_open_reachable.
Qed.

Lemma incentive_created_reachable : reachable (D := demo) incentive_created.
Proof. unfold incentive_created. reach. Qed.

Lemma donation_paused_reachable : reachable (D := demo) donation_paused.
Proof.
  unfold donation_paused.
  apply (reachable_run_all (D := demo));
    [|repeat (apply Forall_cons_2; [discriminate|]); apply Forall_nil_2].
  exact donation_one_entry_reachable.
Qed.

Lemma incentive_joined_reachable : reachable (D := demo) incentive_joined.
Proof.
  unfold incentive_joined, incentive_created.
  apply (reachable_run_all (D := demo));
    [|repeat (apply Forall_cons_2; [discriminate|]); apply Forall_nil_2].
  reach.
Qed.

Lemma far_deadline_reachable : reachable (D := demo) far_deadline.
Proof. unfold far_deadline. reach. Qed.

Lemma own_raffle_reachable : reachable (D := demo) own_raffle.
Proof. unfold own_raffle. reach. Qed.

(** C1, witness: the ledger invariant on the settled pool raffle. *)
Lemma ledger_invariant_witness :
  reachable (D := demo) pool_settled /\ ledger_ok (D := demo) pool_settled.
Proof.
  split; [exact pool_settled_reachable|].
  exact (proj1 (ledger_invariant (D := demo) pool_settled pool_settled_reachable)).
Defined.

(** C1, counterexample to the claim as stated: after the pool raffle is
    finalized, account 10 is still a member ([hasEntered] true) with a
    contribution of 100, while [totalCollected] is 0. *)
Lemma ledger_claim_counterexample :
  reachable (D := demo) pool_settled /\
  hasUserEntered (storage pool_settled) 1 10 = true /\
  totalCollected (raffleAt (storage pool_settled) 1) = 0 /\
  memberSum (raffleAt (storage pool_settled) 1) = 100 /\
  totalCollected (raffleAt (storage pool_settled) 1)
  <> memberSum (raffleAt (storage pool_settled) 1).
Proof.
  split; [exact pool_settled_reachable|].
  repeat split; try (vm_compute; reflexivity). vm_compute. discriminate.
Qed.

(** C2, witness: the raffle of scenario A once settled. *)
Lemma finalized_is_final_witness :
  status (raffleAt (storage donation_settled) 1) = Finalized /\
  (exists e, exec (endRaffle (D := demo) (tx 2 50) 1 []) donation_settled = Revert e /\
             (paused (storage donation_settled) = false -> e = RaffleNotActive)) /\
  exec (fulfillRandomWords (D := demo) 77 [9]) donation_settled = Ok donation_settled.
Proof.
  assert (Hfin : status (raffleAt (storage donation_settled) 1) = Finalized)
    by (vm_compute; reflexivity).
  destruct (finalized_is_final (D := demo) donation_settled 1
              donation_settled_reachable Hfin) as (Hend & Hcb & _).
  split; [exact Hfin|]. split; [exact (Hend (tx 2 50) [])|].
  apply Hcb. vm_compute. reflexivity.
Defined.

(** C2, counterexample to the claim as stated: on the finalized raffle of
    scenario A the fulfillment callback of its request does not fail. *)
Lemma finalized_callback_counterexample :
  reachable (D := demo) donation_settled /\
  status (raffleAt (storage donation_settled) 1) = Finalized /\
  raffleId (requestAt (storage donation_settled) 77) = 1 /\
  exec (fulfillRandomWords (D := demo) 77 [7]) donation_settled = Ok donation_settled.
Proof.
  split; [exact donation_settled_reachable|].
  repeat split; vm_compute; reflexivity.
Qed.

(** C3, witness: the callback of scenario A delivered a second time. *)
Lemma fulfill_idempotent_witness :
  exec (fulfillRandomWords (D := demo) 77 [7]) donation_awaiting = Ok donation_settled /\
  exec (fulfillRandomWords (D := demo) 77 [7]) donation_settled = Ok donation_settled.
Proof.
  assert (H : exec (fulfillRandomWords (D := demo) 77 [7]) donation_awaiting
              = Ok donation_settled) by (vm_compute; reflexivity).
  split; [exact H|].
  exact (proj2 (fulfill_idempotent (D := demo) 77 [7] donation_awaiting)
           donation_settled H).
Defined.

(** C4, witness: the three paths.  The VRF fulfillment of scenario A pays
    200 to the payout address 50 once the storage shows the raffle settled;
    [_finalizePoolRaffle] runs on the open pool raffle and settles it; the
    App Server ends the raffle of scenario C before anyone has joined, which
    finalizes it at once. *)
Lemma finalization_settles_witness :
  (settled 1 (storage donation_settled) /\
   exists seen,
     transfers_seen (log donation_settled) = transfers_seen (log donation_awaiting) ++ seen /\
     Forall (fun ts => ts.1 = 50 /\ settled 1 ts.2) seen) /\
  (exists w', exec (_finalizePoolRaffle (D := demo) 1) pool_open = Ok w' /\
              settled 1 (storage w')) /\
  (exists w', exec (endRaffle (D := demo) (tx 2 30) 1 []) incentive_created = Ok w' /\
              settled 1 (storage w')).
Proof.
  split; [|split].
  - assert (Hf : fulfilled (requestAt (storage donation_awaiting) 77) = false)
      by (vm_compute; reflexivity).
    assert (Hx : exec (fulfillRandomWords (D := demo) 77 [7]) donation_awaiting
                 = Ok donation_settled) by (vm_compute; reflexivity).
    exact (proj1 (finalization_settles (D := demo) donation_awaiting 1) donation_settled
             (finalize_vrf (D := demo) 77 [7] donation_awaiting donation_settled Hf Hx)).
  - destruct (proj2 (finalization_settles (D := demo) pool_open 1) pool_open_reachable)
      as ((w' & H) & _).
    exists w'. split; [exact H|].
    exact (proj1 (proj1 (finalization_settles (D := demo) pool_open 1) w'
                    (finalize_pool (D := demo) 1 pool_open w' H))).
  - destruct (proj2 (finalization_settles (D := demo) incentive_created 1)
                incentive_created_reachable) as (_ & _ & Hend).
    apply (Hend (tx 2 30) []).
    + vm_compute. reflexivity.
    + left. vm_compute. reflexivity.
    + vm_compute. reflexivity.
    + vm_compute. discriminate.
    + right. vm_compute. reflexivity.
Defined.

(** C5, witness: scenario D on the incentive raffle (deadline 1000): the
    refund fails with the grace-period error at time 4600 = deadline + 3600
    and succeeds at time 4601. *)
Lemma refund_eligibility_witness :
  exec (refund (D := demo) (tx 10 4600) 1) incentive_joined = Revert GracePeriodNotPassed /\
  exists w', exec (refund (D := demo) (tx 10 4601) 1) incentive_joined = Ok w'.
Proof.
  assert (Hp : paused (storage incentive_joined) = false) by (vm_compute; reflexivity).
  assert (Hm : 10 ∈ hasEntered (raffleAt (storage incentive_joined) 1)) by member.
  assert (Hpool : isPool (raffleAt (storage incentive_joined) 1) = false)
    by (vm_compute; reflexivity).
  assert (Hst : status (raffleAt (storage incentive_joined) 1) = Active)
    by (vm_compute; reflexivity).
  assert (Hfit : deadline (raffleAt (storage incentive_joined) 1) + REFUND_GRACE_PERIOD
                 <= MAX_UINT256) by (vm_compute; discriminate).
  split.
  - destruct (refund_eligibility (D := demo) (tx 10 4600) 1 incentive_joined
                incentive_joined_reachable Hp Hm) as (_ & _ & Htrad).
    destruct (Htrad Hpool) as (_ & Hearly & _).
    apply (Hearly Hst Hfit). vm_compute. discriminate.
  - destruct (refund_eligibility (D := demo) (tx 10 4601) 1 incentive_joined
                incentive_joined_reachable Hp Hm) as (_ & _ & Htrad).
    destruct (Htrad Hpool) as (Hiff & _ & _).
    apply Hiff. split; [exact Hst|]. split; [exact Hfit|]. vm_compute. reflexivity.
Defined.

(** C5, counterexample to the claim as stated: on a traditional raffle whose
    deadline is the largest [uint256], every time is at or before
    [deadline + 3600], yet the member's refund does not fail with the
    grace-period error: the checked addition panics. *)
Lemma refund_grace_counterexample :
  reachable (D := demo) far_deadline /\
  paused (storage far_deadline) = false /\
  hasUserEntered (storage far_deadline) 1 10 = true /\
  isPool (raffleAt (storage far_deadline) 1) = false /\
  status (raffleAt (storage far_deadline) 1) = Active /\
  block_timestamp (tx 10 5000)
    <= deadline (raffleAt (storage far_deadline) 1) + REFUND_GRACE_PERIOD /\
  exec (refund (D := demo) (tx 10 5000) 1) far_deadline = Revert (Panic PANIC_ARITHMETIC) /\
  exec (refund (D := demo) (tx 10 5000) 1) far_deadline <> Revert GracePeriodNotPassed.
Proof.
  split; [exact far_deadline_reachable|].
  repeat split; try (vm_compute; reflexivity); vm_compute; discriminate.
Qed.

(** C6, witness: on the open pool raffle the App Server ends the raffle
    without a signature, a stranger is turned away, and the organizer, at
    the deadline, is turned away with the library's error for an empty
    signature and with [InvalidSignature] for a signature of account 7. *)
Lemma endRaffle_authorization_witness :
  (exists w', exec (endRaffle (D := demo) (tx 2 30) 1 []) pool_open = Ok w') /\
  exec (endRaffle (D := demo) (tx 11 30) 1 []) pool_open = Revert InvalidSigner /\
  exec (endRaffle (D := demo) (tx 5 1000) 1 []) pool_open
  = Revert (ECDSA (ECDSAInvalidSignatureLength 0)) /\
  exec (endRaffle (D := demo) (tx 5 1000) 1 [7]) pool_open = Revert InvalidSignature.
Proof.
  assert (Hp : paused (storage pool_open) = false) by (vm_compute; reflexivity).
  assert (Hst : status (raffleAt (storage pool_open) 1) = Active
                \/ status (raffleAt (storage pool_open) 1) = Closed)
    by (left; vm_compute; reflexivity).
  assert (Hend : may_end (tx 5 1000) (raffleAt (storage pool_open) 1)).
  { vm_compute. right. discriminate. }
  split; [|split; [|split]].
  - destruct (endRaffle_authorization (D := demo) (tx 2 30) 1 [] pool_open
                pool_open_reachable Hp Hst) as (Happ & _).
    apply Happ; [vm_compute; reflexivity|vm_compute; discriminate|].
    left. vm_compute. reflexivity.
  - destruct (endRaffle_authorization (D := demo) (tx 11 30) 1 [] pool_open
                pool_open_reachable Hp Hst) as (_ & _ & _ & Hother).
    apply Hother; vm_compute; discriminate.
  - destruct (endRaffle_authorization (D := demo) (tx 5 1000) 1 [] pool_open
                pool_open_reachable Hp Hst) as (_ & Horg & _).
    destruct (Horg ltac:(vm_compute; reflexivity) ltac:(vm_compute; discriminate))
      as (_ & Hsig & _).
    apply (Hsig Hend); [vm_compute; reflexivity|]. intros H. vm_compute in H. discriminate.
  - destruct (endRaffle_authorization (D := demo) (tx 5 1000) 1 [7] pool_open
                pool_open_reachable Hp Hst) as (_ & Horg & _).
    destruct (Horg ltac:(vm_compute; reflexivity) ltac:(vm_compute; discriminate))
      as (_ & Hsig & _).
    apply (Hsig Hend); [vm_compute; reflexivity|]. intros H. vm_compute in H. discriminate.
Defined.

(** C6, counterexample to the claim as stated: the App Server ends a raffle
    that it organizes itself, with a signature made by account 5, and fails
    for want of its own signature. *)
Lemma endRaffle_app_server_counterexample :
  reachable (D := demo) own_raffle /\
  paused (storage own_raffle) = false /\
  status (raffleAt (storage own_raffle) 1) = Active /\
  msg_sender (tx 2 20) = appServerSigner (storage own_raffle) /\
  exec (endRaffle (D := demo) (tx 2 20) 1 [5]) own_raffle = Revert InvalidSignature.
Proof.
  split; [exact own_raffle_reachable|].
  repeat split; vm_compute; reflexivity.
Qed.

(** C7, witness: scenario C.  With [entryCost = 100] and
    [incentiveAmount = 20], joining credits 80, pulls 100 from account 10 and
    forwards 20 to the destination 60; the refund after the grace period
    succeeds and returns exactly 80. *)
Lemma incentive_split_witness :
  totalCollected (raffleAt (storage incentive_joined) 1) = 80 /\
  movements (log incentive_joined)
    = movements (log incentive_created) ++ [Pull 10 100; Push 60 20] /\
  exists w',
    exec (refund (D := demo) (tx 10 4601) 1) incentive_joined = Ok w' /\
    movements (log w') = movements (log incentive_joined) ++ [Push 10 80] /\
    balanceOf (token w') 10 = balanceOf (token incentive_joined) 10 + 80.
Proof.
  assert (Hj : exec (joinIncentiveRaffle (D := demo) (tx 10 20) 1 60 [2]) incentive_created
               = Ok incentive_joined) by (vm_compute; reflexivity).
  destruct (incentive_split (D := demo)) as (Hjoin & Hrefund & Hruns).
  destruct (Hjoin (tx 10 20) 1 60 [2] incentive_created incentive_joined Hj)
    as (_ & _ & Hcredit & Hmoves & _).
  split; [exact Hcredit|]. split; [exact Hmoves|].
  destruct (Hruns (tx 10 4601) 1 incentive_joined incentive_joined_reachable
              ltac:(vm_compute; reflexivity) ltac:(member)
              ltac:(vm_compute; reflexivity) ltac:(vm_compute; reflexivity)
              ltac:(intros _; split; [vm_compute; discriminate|vm_compute; reflexivity]))
    as (w' & Hr & _ & Hback).
  exists w'. split; [exact Hr|]. split; [exact Hback|].
  destruct (Hrefund (tx 10 4601) 1 incentive_joined w' Hr ltac:(vm_compute; reflexivity))
    as (_ & _ & _ & Hbal).
  apply Hbal. vm_compute. discriminate.
Defined.

(** C8, witness: scenario A.  With two entries and [randomValue = 7] the
    winner index is [(7 mod 2) + 1 = 2]. *)
Lemma fulfill_winnerIndex_witness :
  exists w',
    exec (fulfillRandomWords (D := demo) 77 [7]) donation_awaiting = Ok w' /\
    winnerIndex (raffleAt (storage w') 1) = 2.
Proof.
  exact (fulfill_winnerIndex (D := demo) 77 7 [] donation_awaiting
           donation_awaiting_reachable
           ltac:(vm_compute; reflexivity) ltac:(vm_compute; reflexivity)
           ltac:(vm_compute; reflexivity)).
Defined.

(** C9, witness: scenario A.  The second entry reaches [entryLimit = 2] and
    closes the raffle. *)
Lemma entry_auto_close_witness :
  closes (raffleAt (storage donation_closed) 1) /\
  status (raffleAt (storage donation_closed) 1) = Closed.
Proof.
  assert (Hx : exec (perform (D := demo) (tx 11 21) (EnterRaffle 1)) donation_one_entry
               = Ok donation_closed) by (vm_compute; reflexivity).
  destruct (entry_auto_close (D := demo) (tx 11 21) (EnterRaffle 1) 1
              donation_one_entry donation_closed (or_introl eq_refl) Hx)
    as (_ & Hclose & _).
  assert (Hc : closes (raffleAt (storage donation_closed) 1)).
  { left. split; [vm_compute; reflexivity|vm_compute; discriminate]. }
  split; [exact Hc|exact (Hclose Hc)].
Defined.

(** C10, witness: account 11 never entered the raffle of scenario A; its
    refund is rejected with [AlreadyEntered], and with [ContractPaused] once
    the owner has paused the contract. *)
Lemma refund_not_member_witness :
  exec (refund (D := demo) (tx 11 30) 1) donation_one_entry = Revert AlreadyEntered /\
  after (refund (D := demo) (tx 11 30) 1) donation_one_entry = donation_one_entry /\
  exec (refund (D := demo) (tx 11 30) 1) donation_paused = Revert ContractPaused.
Proof.
  destruct (refund_not_member (D := demo) (tx 11 30) 1 donation_one_entry
              ltac:(split; vm_compute; reflexivity) ltac:(not_member)) as [He Ha].
  destruct (refund_not_member (D := demo) (tx 11 30) 1 donation_paused
              ltac:(split; vm_compute; reflexivity) ltac:(not_member)) as [Hp _].
  split; [exact He|]. split; [exact Ha|exact Hp].
Defined.

(** C10, counterexample to the claim as stated: account 11 never entered the
    raffle of scenario A and the id is valid, but while the contract is
    paused its refund reverts with [ContractPaused], not [AlreadyEntered]:
    the modifier [whenNotPaused] runs before the membership check. *)
Lemma refund_not_member_counterexample :
  reachable (D := demo) donation_paused /\
  0 < 1 < nextRaffleId (storage donation_paused) /\
  hasUserEntered (storage donation_paused) 1 11 = false /\
  exec (refund (D := demo) (tx 11 30) 1) donation_paused = Revert ContractPaused /\
  exec (refund (D := demo) (tx 11 30) 1) donation_paused <> Revert AlreadyEntered.
Proof.
  split; [exact donation_paused_reachable|].
  repeat split; try (vm_compute; reflexivity). vm_compute. discriminate.
Qed.

(** * Further properties on the example scenarios *)

Lemma donation_closed_reachable : reachable (D := demo) donation_closed.
Proof.
  unfold donation_closed.
  apply (reachable_run_all (D := demo));
    [|repeat (apply Forall_cons_2; [discriminate|]); apply Forall_nil_2].
  exact donation_one_entry_reachable.
Qed.

(** X1, witness: the entry that closes the raffle of scenario A takes it
    from [Active] to [Closed]. *)
Lemma status_never_regresses_witness :
  status_rank (status (raffleAt (storage donation_one_entry) 1))
  <= status_rank (status (raffleAt (storage donation_closed) 1)).
Proof.
  exact (status_never_regresses (D := demo) (tx 11 21) (EnterRaffle 1)
           donation_one_entry donation_closed 1 donation_one_entry_reachable
           ltac:(vm_compute; reflexivity)).
Defined.

(** X2, witness: creating a second raffle leaves the raffle of scenario A,
    which awaits randomness, as it is. *)
Lemma awaiting_is_frozen_witness :
  raffleAt (storage second_raffle) 1 = raffleAt (storage donation_awaiting) 1.
Proof.
  apply (awaiting_is_frozen (D := demo) (tx 5 31)
           (CreateRaffle ProfitBased 100 0 0 1000 0 false 50 [2])
           donation_awaiting second_raffle 1 donation_awaiting_reachable).
  - vm_compute. reflexivity.
  - intros q words. discriminate.
  - vm_compute. reflexivity.
Defined.

(** X3, witness: the closing entry of scenario A changes no term. *)
Lemma terms_are_immutable_witness :
  same_terms (raffleAt (storage donation_one_entry) 1)
             (raffleAt (storage donation_closed) 1).
Proof.
  apply (terms_are_immutable (D := demo) (tx 11 21) (EnterRaffle 1)
           donation_one_entry donation_closed 1 donation_one_entry_reachable).
  - vm_compute. discriminate.
  - vm_compute. reflexivity.
Defined.

(** X4, witness: the raffle of scenario A closed at its limit of two. *)
Lemma donation_entry_limit_witness :
  entryCount (raffleAt (storage donation_closed) 1)
  <= entryLimit (raffleAt (storage donation_closed) 1).
Proof.
  exact (proj1 (proj2
           (donation_entry_limit (D := demo) donation_closed 1
              (raffleAt (storage donation_closed) 1) donation_closed_reachable
              ltac:(vm_compute; reflexivity) ltac:(vm_compute; reflexivity)))).
Defined.

(** X5, witness: the open pool raffle, below its target. *)
Lemma canEndPoolEarly_never_witness :
  canEndPoolEarly (storage pool_open) 1 = Ok false.
Proof.
  rewrite (canEndPoolEarly_never (D := demo) pool_open 1 pool_open_reachable).
  vm_compute. reflexivity.
Defined.

(** X6, witness: the winner of scenario A is one of its two entries. *)
Lemma winnerIndex_range_witness :
  winnerIndex (raffleAt (storage donation_settled) 1)
  <= entryCount (raffleAt (storage donation_settled) 1).
Proof.
  exact (proj1
           (winnerIndex_range (D := demo) donation_settled 1
              (raffleAt (storage donation_settled) 1) donation_settled_reachable
              ltac:(vm_compute; reflexivity))).
Defined.

(** X7, witness: with one raffle created, id 1 names it and id 2 is
    rejected. *)
Lemma valid_ids_are_created_witness :
  status (raffleAt (storage donation_one_entry) 1) <> Inactive /\
  getRaffleInfo (storage donation_one_entry) 2 = Revert InvalidRaffleId.
Proof.
  split.
  - destruct (valid_ids_are_created (D := demo) donation_one_entry 1
                donation_one_entry_reachable) as (_ & Hin & _).
    apply Hin. split; vm_compute; reflexivity.
  - destruct (valid_ids_are_created (D := demo) donation_one_entry 2
                donation_one_entry_reachable) as (_ & _ & Hout).
    apply Hout. intros [_ H]. vm_compute in H. discriminate.
Defined.

(** X8, witness: a zero payout address, a DonationBased raffle without
    entry limit, and an empty signature. *)
Lemma createRaffle_checks_witness :
  exec (createRaffle (D := demo) (tx 5 10) DonationBased 100 0 2 1000 0 false 0 [2]) genesis
  = Revert ZeroAddress /\
  exec (createRaffle (D := demo) (tx 5 10) DonationBased 100 0 0 1000 0 false 50 [2]) genesis
  = Revert InvalidAmount /\
  exec (createRaffle (D := demo) (tx 5 10) DonationBased 100 0 2 1000 0 false 50 []) genesis
  = Revert (ECDSA (ECDSAInvalidSignatureLength 0)).
Proof.
  assert (Hp : paused (storage genesis) = false) by reflexivity.
  split; [|split].
  - destruct (createRaffle_checks (D := demo) (tx 5 10) DonationBased 100 0 2 1000 0 false
                0 [2] genesis Hp) as (Hz & _).
    apply Hz. reflexivity.
  - destruct (createRaffle_checks (D := demo) (tx 5 10) DonationBased 100 0 0 1000 0 false
                50 [2] genesis Hp) as (_ & Hbad & _).
    apply Hbad; [discriminate|].
    intros (_ & _ & _ & Hl & _). exact (Hl eq_refl eq_refl).
  - destruct (createRaffle_checks (D := demo) (tx 5 10) DonationBased 100 0 2 1000 0 false
                50 [] genesis Hp) as (_ & _ & Hok).
    assert (Hv : valid_terms (block_timestamp (tx 5 10)) DonationBased 100 0 2 1000 0 false).
    { unfold valid_terms. repeat split; intros; try discriminate; reflexivity. }
    destruct (Hok ltac:(discriminate) Hv ltac:(vm_compute; reflexivity)) as (Hrej & _).
    apply Hrej. intros H. vm_compute in H. discriminate.
Defined.

(** X9, witness: the raffle that the App Server creates on the fresh
    deployment. *)
Lemma createRaffle_creates_witness :
  getRaffleCount (storage own_raffle) = getRaffleCount (storage genesis) + 1 /\
  token own_raffle = token genesis.
Proof.
  destruct (createRaffle_creates (D := demo) (tx 2 10) ProfitBased 100 0 0 1000 0 false
              50 [2] genesis own_raffle genesis_reachable
              ltac:(vm_compute; reflexivity))
    as (_ & _ & _ & Hc & _ & Ht & _).
  split; [exact Hc|exact Ht].
Defined.

(** X10, witness: account 10 tries to enter the raffle of scenario A again. *)
Lemma no_double_entry_witness :
  exec (enterRaffle (D := demo) (tx 10 25) 1) donation_one_entry = Revert AlreadyEntered.
Proof.
  destruct (no_double_entry (D := demo) (tx 10 25) 1 donation_one_entry
              ltac:(vm_compute; reflexivity) ltac:(split; vm_compute; reflexivity))
    as (Hm & _).
  destruct (Hm ltac:(vm_compute; reflexivity) ltac:(member)) as (He & _).
  exact He.
Defined.

(** X11, witness: on the open pool raffle account 10 takes its refund and
    enters again. *)
Lemma refund_then_enter_witness :
  totalCollected (raffleAt (storage pool_reentered) 1)
  = totalCollected (raffleAt (storage pool_open) 1) /\
  entryCount (raffleAt (storage pool_reentered) 1)
  = entryCount (raffleAt (storage pool_open) 1) /\
  hasEntered (raffleAt (storage pool_reentered) 1)
  = hasEntered (raffleAt (storage pool_open) 1).
Proof.
  exact (refund_then_enter (D := demo) (tx 10 25) (tx 10 26) 1
           pool_open pool_refunded pool_reentered eq_refl
           ltac:(vm_compute; reflexivity) ltac:(vm_compute; reflexivity)).
Defined.

(** X12, witness: the creation of a raffle by account 2 consumes that
    account's nonce and no other. *)
Lemma nonce_discipline_witness :
  nonceOf (storage own_raffle) 2 = nonceOf (storage genesis) 2 + 1 /\
  nonceOf (storage own_raffle) 5 = nonceOf (storage genesis) 5 + 0.
Proof.
  assert (Hx : exec (perform (D := demo) (tx 2 10)
                       (CreateRaffle ProfitBased 100 0 0 1000 0 false 50 [2])) genesis
               = Ok own_raffle) by (vm_compute; reflexivity).
  split.
  - exact (nonce_discipline (D := demo) (tx 2 10)
             (CreateRaffle ProfitBased 100 0 0 1000 0 false 50 [2])
             genesis own_raffle 2 Hx).
  - exact (nonce_discipline (D := demo) (tx 2 10)
             (CreateRaffle ProfitBased 100 0 0 1000 0 false 50 [2])
             genesis own_raffle 5 Hx).
Defined.

(** X13, witness: an entry while the contract is paused. *)
Lemma paused_blocks_witness :
  exec (enterRaffle (D := demo) (tx 10 20) 1) paused_world = Revert ContractPaused.
Proof.
  destruct (paused_blocks (D := demo) (tx 10 20) paused_world
              ltac:(vm_compute; reflexivity)) as (_ & He & _).
  exact (He 1).
Defined.

(** X14, witness: account 7 may not pause the contract, the owner may. *)
Lemma owner_functions_witness :
  exec (pause (tx 7 5)) genesis = Revert OnlyOwner /\
  exists w', exec (pause (tx 1 5)) genesis = Ok w' /\
             storage w' = with_paused true (storage genesis) /\
             token w' = token genesis.
Proof.
  split.
  - destruct (owner_functions (tx 7 5) genesis) as (Hno & _).
    destruct (Hno ltac:(vm_compute; discriminate)) as (Hp & _). exact Hp.
  - destruct (owner_functions (tx 1 5) genesis) as (_ & Hyes).
    destruct (Hyes ltac:(reflexivity)) as (Hp & _). exact Hp.
Defined.

(** X15, witness: after the App Server is replaced by account 4, a
    signature of the old App Server is refused and one of account 4 is
    accepted. *)
Lemma signer_rotation_witness :
  exec (createRaffle (D := demo) (tx 5 10) DonationBased 100 0 2 1000 0 false 50 [2]) rotated
  = Revert InvalidSignature /\
  exists w'',
    exec (createRaffle (D := demo) (tx 5 10) DonationBased 100 0 2 1000 0 false 50 [4]) rotated
    = Ok w''.
Proof.
  assert (Hx : exec (updateAppServerSigner (tx 1 5) 4) genesis = Ok rotated)
    by (vm_compute; reflexivity).
  assert (Hv : valid_terms (block_timestamp (tx 5 10)) DonationBased 100 0 2 1000 0 false).
  { unfold valid_terms. repeat split; intros; try discriminate; reflexivity. }
  split.
  - destruct (signer_rotation (D := demo) (tx 1 5) 4 genesis rotated (tx 5 10)
                DonationBased 100 0 2 1000 0 false 50 [2] Hx
                ltac:(vm_compute; discriminate) eq_refl ltac:(discriminate) Hv
                ltac:(vm_compute; reflexivity) ltac:(vm_compute; reflexivity))
      as (Hold & _).
    apply Hold. reflexivity.
  - destruct (signer_rotation (D := demo) (tx 1 5) 4 genesis rotated (tx 5 10)
                DonationBased 100 0 2 1000 0 false 50 [4] Hx
                ltac:(vm_compute; discriminate) eq_refl ltac:(discriminate) Hv
                ltac:(vm_compute; reflexivity) ltac:(vm_compute; reflexivity))
      as (_ & Hnew).
    apply Hnew. reflexivity.
Defined.

(** X16, witness: on the closed raffle of scenario A, an id never issued
    and an entry that comes too late. *)
Lemma closed_raffle_errors_witness :
  exec (enterRaffle (D := demo) (tx 12 30) 5) donation_closed = Revert InvalidRaffleId /\
  exec (enterRaffle (D := demo) (tx 12 30) 1) donation_closed = Revert RaffleNotActive.
Proof.
  assert (Hp : paused (storage donation_closed) = false) by (vm_compute; reflexivity).
  split.
  - destruct (closed_raffle_errors (D := demo) (tx 12 30) 5 donation_closed Hp)
      as (Hbad & _).
    refine (proj1 (Hbad _)). intros [_ H]. vm_compute in H. discriminate.
  - destruct (closed_raffle_errors (D := demo) (tx 12 30) 1 donation_closed Hp)
      as (_ & Hok).
    refine (proj1 (Hok _ _)); [split; vm_compute; reflexivity|vm_compute; discriminate].
Defined.

(** X17, witness: account 12 has given the contract no allowance. *)
Lemma enterRaffle_funding_witness :
  exec (enterRaffle (D := demo) (tx 12 21) 1) donation_one_entry
  = Revert InsufficientAllowance.
Proof.
  destruct (enterRaffle_funding (D := demo) (tx 12 21) 1 donation_one_entry
              ltac:(vm_compute; reflexivity) ltac:(split; vm_compute; reflexivity)
              ltac:(vm_compute; reflexivity) ltac:(not_member)
              ltac:(vm_compute; discriminate) ltac:(vm_compute; reflexivity)
              ltac:(vm_compute; discriminate)) as (Hlow & _).
  apply Hlow. vm_compute. reflexivity.
Defined.

(** X18, witness: on the IncentiveBased raffle of scenario C, a join with a
    zero payment address, a plain entry, and a join with an empty
    signature. *)
Lemma entry_function_by_type_witness :
  exec (joinIncentiveRaffle (D := demo) (tx 10 20) 1 0 [2]) incentive_created
  = Revert ZeroAddress /\
  exec (enterRaffle (D := demo) (tx 10 20) 1) incentive_created = Revert InvalidRaffleType /\
  exec (joinIncentiveRaffle (D := demo) (tx 10 20) 1 60 []) incentive_created
  = Revert (ECDSA (ECDSAInvalidSignatureLength 0)).
Proof.
  destruct (entry_function_by_type (D := demo) (tx 10 20) 1 incentive_created
              ltac:(vm_compute; reflexivity) ltac:(split; vm_compute; reflexivity))
    as (Hz & Htype).
  split; [exact (Hz [2])|].
  destruct (Htype ltac:(vm_compute; reflexivity) ltac:(not_member)) as (He & _ & Hsig).
  split; [apply He; vm_compute; reflexivity|].
  apply (Hsig 60 []).
  - discriminate.
  - vm_compute. reflexivity.
  - vm_compute. reflexivity.
  - intros H. vm_compute in H. discriminate.
Defined.

(** X19, witness: the join of scenario C pulls 100 and forwards 20. *)
Lemma transaction_movements_witness :
  movements (log incentive_joined)
  = movements (log incentive_created) ++ [Pull 10 100; Push 60 20].
Proof.
  exact (transaction_movements (D := demo) (tx 10 20) (JoinIncentiveRaffle 1 60 [2])
           incentive_created incentive_joined ltac:(vm_compute; reflexivity)).
Defined.

(** X20, witness: while the raffle of scenario A awaits randomness, a
    callback for an unknown request and one without random words. *)
Lemma callback_outcomes_witness :
  exec (fulfillRandomWords (D := demo) 5 [7]) donation_awaiting
  = Revert VRFRequestNotFound /\
  exec (fulfillRandomWords (D := demo) 77 []) donation_awaiting
  = Revert (Panic PANIC_INDEX_OUT_OF_BOUNDS).
Proof.
  split.
  - destruct (callback_outcomes (D := demo) 5 donation_awaiting
                donation_awaiting_reachable) as (Hun & _).
    apply Hun. vm_compute. reflexivity.
  - destruct (callback_outcomes (D := demo) 77 donation_awaiting
                donation_awaiting_reachable) as (_ & _ & Hpend).
    destruct (Hpend ltac:(vm_compute; discriminate) ltac:(vm_compute; reflexivity))
      as (He & _).
    exact He.
Defined.

(** X21, witness: the App Server ends the raffle of scenario A; request 77
    is recorded and nothing is paid yet. *)
Lemma endRaffle_outcomes_witness :
  status (raffleAt (storage donation_awaiting) 1) = AwaitingVRF /\
  getVRFRequest (storage donation_awaiting) 77 = (1, false) /\
  movements (log donation_awaiting) = movements (log donation_closed).
Proof.
  destruct (endRaffle_outcomes (D := demo) (tx 2 30) 1 [] donation_closed donation_awaiting
              ltac:(vm_compute; reflexivity)) as (_ & _ & _ & _ & _ & Hvrf).
  destruct (Hvrf ltac:(vm_compute; reflexivity) ltac:(vm_compute; discriminate))
    as (q & Hq & Hst & _ & Hreq & _ & Hmv).
  cbn in Hq. injection Hq as Hq. subst q.
  split; [exact Hst|]. split; [exact Hreq|exact Hmv].
Defined.

(** X22, witness: scenario A from its end to the draw: the winner is entry
    2 and the 200 collected go to the payout address 50. *)
Lemma endRaffle_then_callback_witness :
  exists w2,
    exec (fulfillRandomWords (D := demo) 77 [7]) donation_awaiting = Ok w2 /\
    winnerIndex (raffleAt (storage w2) 1) = 2 /\
    movements (log w2) = movements (log donation_closed) ++ [Push 50 200].
Proof.
  destruct (endRaffle_then_callback (D := demo) (tx 2 30) 1 [] donation_closed
              donation_awaiting donation_closed_reachable
              ltac:(vm_compute; discriminate) ltac:(vm_compute; reflexivity)
              ltac:(vm_compute; reflexivity) ltac:(vm_compute; discriminate))
    as (q & Hq & Hcb).
  cbn in Hq. injection Hq as Hq. subst q.
  destruct (Hcb 7 []) as (w2 & Hx & _ & Hwin & _ & Hmv).
  exists w2. split; [exact Hx|]. split; [exact Hwin|exact Hmv].
Defined.

(** X23, witness: on the open pool raffle account 11 enters and takes its
    refund. *)
Lemma enter_then_refund_witness :
  raffleAt (storage pool_back) 1 = raffleAt (storage pool_open) 1 /\
  movements (log pool_back) = movements (log pool_open) ++ [Pull 11 100; Push 11 100].
Proof.
  exact (enter_then_refund (D := demo) (tx 11 22) (tx 11 23) 1
           pool_open pool_two pool_back eq_refl
           ltac:(vm_compute; reflexivity) ltac:(vm_compute; reflexivity)).
Defined.

(** X24, witness: the two members of the raffle of scenario A. *)
Lemma entryCount_counts_members_witness :
  entryCount (raffleAt (storage donation_closed) 1)
  = N.of_nat (size (hasEntered (raffleAt (storage donation_closed) 1))).
Proof.
  exact (proj1 (entryCount_counts_members (D := demo) donation_closed 1
                  donation_closed_reachable)).
Defined.

(** X25, witness: request 77 is the pending request of the raffle of
    scenario A. *)
Lemma pending_request_unique_witness :
  vrfRequestId (raffleAt (storage donation_awaiting) 1) = 77.
Proof.
  destruct (pending_request_unique (D := demo) donation_awaiting 77 77
              donation_awaiting_reachable
              ltac:(vm_compute; discriminate) ltac:(vm_compute; reflexivity))
    as (_ & _ & Hid & _).
  exact Hid.
Defined.

(** X26, witness: one raffle created, one raffle stored. *)
Lemma getRaffleCount_counts_witness :
  getRaffleCount (storage donation_closed)
  = N.of_nat (size (raffles (storage donation_closed))).
Proof.
  exact (proj1 (getRaffleCount_counts (D := demo) donation_closed
                  donation_closed_reachable)).
Defined.

(** X27, witness: the join of the first contract goes through while the
    contract is paused. *)
Lemma legacy_pause_is_inert_witness :
  Legacy.exec (Legacy.perform (D := legacy_demo) (tx 10 20)
                 (Legacy.JoinIncentiveRaffle 1 60 [2]))
    (Legacy.flagged true legacy_created)
  = Ok (Legacy.flagged true legacy_joined).
Proof.
  rewrite (legacy_pause_is_inert (L := legacy_demo) (tx 10 20)
             (Legacy.JoinIncentiveRaffle 1 60 [2]) true legacy_created
             ltac:(discriminate) ltac:(discriminate)).
  vm_compute. reflexivity.
Defined.

(** X28, witness: at the deadline itself the refund is still refused. *)
Lemma legacy_refund_gate_witness :
  Legacy.exec (Legacy.refund (D := legacy_demo) (tx 10 1000) 1) legacy_joined
  = Revert DeadlineNotPassed.
Proof.
  destruct (legacy_refund_gate (L := legacy_demo) (tx 10 1000) 1 legacy_joined
              ltac:(split; vm_compute; reflexivity)) as (_ & Hearly & _).
  apply Hearly; [vm_compute; reflexivity|vm_compute; discriminate].
Defined.

(** X29, witness: account 12, with a signature of the BitRefill signer,
    sends the 80 collected to account 70; with an empty signature the call
    reverts with the library's error. *)
Lemma legacy_endRaffle_payout_witness :
  (exists w',
     Legacy.exec (Legacy.endRaffle (D := legacy_demo) (tx 12 30) 1 70 [3]) legacy_joined
     = Ok w' /\
     Legacy.movements (Legacy.log w')
     = Legacy.movements (Legacy.log legacy_joined) ++ [Push 70 80]) /\
  Legacy.exec (Legacy.endRaffle (D := legacy_demo) (tx 12 30) 1 70 []) legacy_joined
  = Revert (ECDSA (ECDSAInvalidSignatureLength 0)).
Proof.
  split.
  - destruct (legacy_endRaffle_payout (L := legacy_demo) (tx 12 30) 1 70 [3] legacy_joined
                ltac:(split; vm_compute; reflexivity) ltac:(left; vm_compute; reflexivity)
                ltac:(vm_compute; reflexivity)) as (_ & Hok).
    destruct (Hok ltac:(vm_compute; reflexivity) ltac:(vm_compute; discriminate))
      as (w' & Hx & _ & _ & _ & Hmv & _).
    exists w'. split; [exact Hx|exact Hmv].
  - destruct (legacy_endRaffle_payout (L := legacy_demo) (tx 12 30) 1 70 [] legacy_joined
                ltac:(split; vm_compute; reflexivity) ltac:(left; vm_compute; reflexivity)
                ltac:(vm_compute; reflexivity)) as (Hrej & _).
    apply Hrej. intros H. vm_compute in H. discriminate.
Defined.

(** X30, witness: account 10 joins, takes its refund after the deadline and
    joins again with the signature of the first join; the destination 60
    receives the incentive twice. *)
Lemma legacy_join_replay_witness :
  exists w3,
    Legacy.exec (Legacy.joinIncentiveRaffle (D := legacy_demo) (tx 10 2000) 1 60 [2])
      legacy_refunded = Ok w3 /\
    Legacy.movements (Legacy.log w3)
    = Legacy.movements (Legacy.log legacy_created)
      ++ [Pull 10 100; Push 60 20; Push 10 80; Pull 10 100; Push 60 20].
Proof.
  exact (legacy_join_replay (L := legacy_demo) (tx 10 20) (tx 10 1001) (tx 10 2000)
           1 60 [2] legacy_created legacy_joined legacy_refunded eq_refl eq_refl
           ltac:(vm_compute; reflexivity) ltac:(vm_compute; reflexivity)
           ltac:(vm_compute; discriminate) ltac:(vm_compute; discriminate)).
Defined.
